(** * Sculpt automasking: a shallow embedding of
      source/blender/editors/sculpt_paint/sculpt_automasking.c

    Single-precision values are IEEE-754 binary32 numbers, modelled with the
    Standard Library's [spec_float] at precision 24 and maximal exponent 128.
    C [int] values that stay far from the 32-bit limits (flags, edge
    distances, propagation steps) are integers in [Z]; vertex indices, which
    only ever index arrays, are natural numbers.  Arrays are lists that are
    updated in place with stdpp's insert.  Facts about rounding are proved
    through the rational values of the single-precision numbers. *)

From Stdlib Require Import ZArith QArith Qpower Lqa Bool List Lia String.
From Stdlib Require Import Floats.SpecFloat.
From stdpp Require Import base list.

Local Open Scope Z_scope.

(** ** Single-precision arithmetic *)

Module F32.

Definition prec : Z := 24.
Definition emax : Z := 128.

Definition float : Type := spec_float.

Definition add : float -> float -> float := SFadd prec emax.
Definition sub : float -> float -> float := SFsub prec emax.
Definition mul : float -> float -> float := SFmul prec emax.
Definition div : float -> float -> float := SFdiv prec emax.
Definition sqrt : float -> float := SFsqrt prec emax.
Definition fabsf : float -> float := SFabs.
Definition eqb : float -> float -> bool := SFeqb.
Definition ltb : float -> float -> bool := SFltb.
Definition leb : float -> float -> bool := SFleb.

(** The C conversion [(float)i] of an integer. *)
Definition of_Z (z : Z) : float := binary_normalize prec emax z 0 false.

Definition zero : float := S754_zero false.
Definition one : float := S754_finite false 8388608 (-23).
Definition half : float := S754_finite false 8388608 (-24).
Definition three_quarters : float := S754_finite false 12582912 (-24).
Definition quarter : float := S754_finite false 8388608 (-25).
Definition minus_one : float := S754_finite true 8388608 (-23).
Definition fifty : float := S754_finite false 13107200 (-18).

(** [x] is an ordered value of the closed interval from 0.0 to 1.0. *)
Definition in_unit_interval (x : float) : bool := leb zero x && leb x one.

End F32.

Abbreviation float := F32.float.

Declare Scope f32_scope.
Delimit Scope f32_scope with f32.
Infix "+" := F32.add : f32_scope.
Infix "-" := F32.sub : f32_scope.
Infix "*" := F32.mul : f32_scope.
Infix "/" := F32.div : f32_scope.

(** ** Helpers of BLI_math *)

Definition vec3 : Type := (float * float * float)%type.

Definition zero_v3 : vec3 := (F32.zero, F32.zero, F32.zero).

(** Modelled from the spec: [add_v3_v3] of BLI_math (not among the sources),
    the component-wise sum [r += a] that accumulates the neighbours'
    positions. *)
Definition add_v3_v3 (r a : vec3) : vec3 :=
  let '(r0, r1, r2) := r in
  let '(a0, a1, a2) := a in
  (r0 + a0, r1 + a1, r2 + a2)%f32.

(** Modelled from the spec: [sub_v3_v3] of BLI_math (not among the sources),
    the component-wise difference [r -= a], the spec's [mean - co]. *)
Definition sub_v3_v3 (r a : vec3) : vec3 :=
  let '(r0, r1, r2) := r in
  let '(a0, a1, a2) := a in
  (r0 - a0, r1 - a1, r2 - a2)%f32.

(** Modelled from the spec: [mul_v3_fl] of BLI_math (not among the sources),
    the scaling [r *= f] of every component, which turns the sum of the
    positions into their mean. *)
Definition mul_v3_fl (r : vec3) (f : float) : vec3 :=
  let '(r0, r1, r2) := r in
  (r0 * f, r1 * f, r2 * f)%f32.

(** Modelled from the spec: [dot_v3v3] of BLI_math (math_vector_inline.c is
    not among the sources), the dot product the spec writes [dot(diff, n)],
    summed left to right. *)
Definition dot_v3v3 (a b : vec3) : float :=
  let '(a0, a1, a2) := a in
  let '(b0, b1, b2) := b in
  (a0 * b0 + a1 * b1 + a2 * b2)%f32.

(** Modelled from the spec: [len_v3v3] of BLI_math (not among the sources),
    the distance between two points: the square root of the squared norm of
    their difference. *)
Definition len_v3v3 (a b : vec3) : float :=
  let d := sub_v3_v3 b a in
  F32.sqrt (dot_v3v3 d d).

(** Modelled from the spec: [signf] of BLI_math (not among the sources), the
    [sign(c)] of the cavity remap; Blender's version never returns zero. *)
Definition signf (f : float) : float :=
  if F32.ltb f F32.zero then F32.minus_one else F32.one.

(** Modelled from the spec: [pow2f] of BLI_math (not among the sources), the
    square [p^2] of the boundary falloff. *)
Definition pow2f (x : float) : float := (x * x)%f32.

(** Modelled from the spec: the [CLAMP(a, b, c)] macro of BLI_utildefines.h
    (not among the sources): [if (a < b) a = b; else if (a > c) a = c;]. *)
Definition CLAMP (a b c : float) : float :=
  if F32.ltb a b then b else if F32.ltb c a then c else a.

(** ** Flags and enumerations *)

(** Modelled from the spec: the bits of [eAutomasking_flag]
    (DNA_brush_enums.h is not among the sources), one bit per strategy in the
    order the spec lists them. *)
Definition BRUSH_AUTOMASKING_TOPOLOGY : Z := 1.
Definition BRUSH_AUTOMASKING_FACE_SETS : Z := 2.
Definition BRUSH_AUTOMASKING_BOUNDARY_EDGES : Z := 4.
Definition BRUSH_AUTOMASKING_BOUNDARY_FACE_SETS : Z := 8.
Definition BRUSH_AUTOMASKING_CAVITY : Z := 16.
Definition BRUSH_AUTOMASKING_CAVITY_INVERT : Z := 32.

(** The C truth value of [flags & mode]. *)
Definition flag_set (flags mode : Z) : bool := negb (Z.land flags mode =? 0).

Inductive PBVHType := PBVH_FACES | PBVH_GRIDS | PBVH_BMESH.

Inductive eBoundaryAutomaskMode :=
  | AUTOMASK_INIT_BOUNDARY_EDGES
  | AUTOMASK_INIT_BOUNDARY_FACE_SETS.

Inductive ePaintFalloffShape := PAINT_FALLOFF_SHAPE_SPHERE | PAINT_FALLOFF_SHAPE_TUBE.

Inductive eBrushSculptTool :=
  | SCULPT_TOOL_GRAB
  | SCULPT_TOOL_THUMB
  | SCULPT_TOOL_ROTATE
  | SCULPT_TOOL_OTHER.

(** ** Brush, scene settings and sculpt session *)

Record Brush := {
  automasking_flags : Z;
  automasking_boundary_edges_propagation_steps : Z;
  automasking_cavity_factor : float;
  falloff_shape : ePaintFalloffShape;
  sculpt_tool : eBrushSculptTool
}.

(** [Sculpt]: the scene-level flags, and the brush [BKE_paint_brush] finds in
    [sd->paint] (a pointer that may be null). *)
Record Sculpt := {
  sd_automasking_flags : Z;
  paint_brush : option Brush
}.

(** The sculpt session as this file consumes it: the queries of sculpt.c on
    the mesh, which are not among the sources, are fields.
    [floodfill_visits use_radius] is the sequence of [(from_v, to_v)] pairs
    on which [SCULPT_floodfill_execute], started from the active vertex,
    calls the topology callback; the callback's answer depends only on
    positions and on [use_radius], so the sequence is a function of the
    session. *)
Record SculptSession := {
  totvert : nat;
  vertex_co : nat -> vec3;
  vertex_no : nat -> vec3;
  vertex_neighbors : nat -> list nat;
  vertex_is_boundary : nat -> bool;
  vertex_has_face_set : nat -> Z -> bool;
  vertex_has_unique_face_set : nat -> bool;
  active_face_set : Z;
  pmap : bool;
  pbvh_type : PBVHType;
  stroke_cache : bool;
  stroke_is_dynamic_topology : Brush -> bool;
  floodfill_visits : bool -> list (nat * nat)
}.

Record Object := { sculpt : SculptSession }.

Record AutomaskingSettings := {
  flags : Z;
  initial_face_set : Z;
  cavity_factor : float
}.

Record AutomaskingCache := {
  settings : AutomaskingSettings;
  factor : option (list float)
}.

(** ** Arrays *)

(** [a[i]]; reading past the end is undefined in C and is given the value
    [d] here. *)
Definition arr_get {A} (d : A) (a : list A) (i : nat) : A := default d (a !! i).

(** [for (int i = 0; i < n; i++) body], as a state transformer. *)
Definition for_range {S} (n : nat) (body : nat -> S -> S) (s : S) : S :=
  fold_left (fun s i => body i s) (seq 0 n) s.

(** ** Enabled strategies *)

Definition SCULPT_is_automasking_mode_enabled
    (sd : Sculpt) (br : option Brush) (mode : Z) : bool :=
  match br with
  | Some br => flag_set (automasking_flags br) mode || flag_set (sd_automasking_flags sd) mode
  | None => flag_set (sd_automasking_flags sd) mode
  end.

Definition SCULPT_is_automasking_enabled
    (sd : Sculpt) (ss : SculptSession) (br : option Brush) : bool :=
  if match br with Some b => stroke_is_dynamic_topology ss b | None => false end
  then false
  else if SCULPT_is_automasking_mode_enabled sd br BRUSH_AUTOMASKING_TOPOLOGY then true
  else if SCULPT_is_automasking_mode_enabled sd br BRUSH_AUTOMASKING_FACE_SETS then true
  else if SCULPT_is_automasking_mode_enabled sd br BRUSH_AUTOMASKING_BOUNDARY_EDGES then true
  else if SCULPT_is_automasking_mode_enabled sd br BRUSH_AUTOMASKING_BOUNDARY_FACE_SETS then true
  else if SCULPT_is_automasking_mode_enabled sd br BRUSH_AUTOMASKING_CAVITY then true
  else false.

Definition sculpt_automasking_mode_effective_bits
    (sculpt : Sculpt) (brush : option Brush) : Z :=
  match brush with
  | Some b => Z.lor (sd_automasking_flags sculpt) (automasking_flags b)
  | None => sd_automasking_flags sculpt
  end.

Definition SCULPT_automasking_needs_factors_cache
    (sd : Sculpt) (brush : option Brush) : bool :=
  let automasking_flags := sculpt_automasking_mode_effective_bits sd brush in
  if flag_set automasking_flags BRUSH_AUTOMASKING_TOPOLOGY then true
  else if flag_set automasking_flags
            (Z.lor (Z.lor BRUSH_AUTOMASKING_BOUNDARY_FACE_SETS
                          BRUSH_AUTOMASKING_BOUNDARY_EDGES)
                   BRUSH_AUTOMASKING_CAVITY)
  then match brush with
       | Some b => negb (automasking_boundary_edges_propagation_steps b =? 1)
       | None => false
       end
  else false.

(** ** Cavity *)

(** The neighbour loop of [SCULPT_calc_cavity]: the running [avg], [elen]
    and [e_num]. *)
Definition cavity_accumulate (ss : SculptSession) (co : vec3) (nbrs : list nat)
    : vec3 * float * float :=
  fold_left
    (fun '(avg, elen, e_num) ni =>
       let co2 := vertex_co ss ni in
       (add_v3_v3 avg co2, (elen + len_v3v3 co co2)%f32, (e_num + F32.one)%f32))
    nbrs (zero_v3, F32.zero, F32.zero).

(** [SCULPT_calc_cavity], with the division it uses as a parameter. *)
Definition calc_cavity_with (fdiv : float -> float -> float)
    (ss : SculptSession) (vertex : nat) : float :=
  let co := vertex_co ss vertex in
  let '(avg, elen, e_num) := cavity_accumulate ss co (vertex_neighbors ss vertex) in
  if F32.eqb e_num F32.zero then F32.zero
  else
    let avg := mul_v3_fl avg (fdiv F32.one e_num) in
    let elen := fdiv elen e_num in
    let no := vertex_no ss vertex in
    let avg := sub_v3_v3 avg co in
    fdiv (dot_v3v3 avg no) elen.

Definition SCULPT_calc_cavity : SculptSession -> nat -> float :=
  calc_cavity_with F32.div.

Definition sculpt_automasking_cavity_factor
    (automasking : AutomaskingCache) (ss : SculptSession) (vert : nat) : float :=
  let factor := SCULPT_calc_cavity ss vert in
  let sign := signf factor in
  let factor :=
    (F32.fabsf factor * cavity_factor (settings automasking) * F32.fifty)%f32 in
  let factor := (factor * sign * F32.half + F32.half)%f32 in
  let factor := CLAMP factor F32.zero F32.one in
  if flag_set (flags (settings automasking)) BRUSH_AUTOMASKING_CAVITY_INVERT
  then (F32.one - factor)%f32
  else factor.

(** ** The query *)

Definition SCULPT_automasking_factor_get
    (automasking : option AutomaskingCache) (ss : SculptSession) (vert : nat) : float :=
  match automasking with
  | None => F32.one
  | Some automasking =>
    match factor automasking with
    | Some factor => arr_get F32.zero factor vert
    | None =>
      let flags := flags (settings automasking) in
      if flag_set flags BRUSH_AUTOMASKING_FACE_SETS
         && negb (vertex_has_face_set ss vert (initial_face_set (settings automasking)))
      then F32.zero
      else if flag_set flags BRUSH_AUTOMASKING_BOUNDARY_EDGES
              && vertex_is_boundary ss vert
      then F32.zero
      else if flag_set flags BRUSH_AUTOMASKING_BOUNDARY_FACE_SETS
              && negb (vertex_has_unique_face_set ss vert)
      then F32.zero
      else if flag_set flags BRUSH_AUTOMASKING_CAVITY
      then sculpt_automasking_cavity_factor automasking ss vert
      else F32.one
    end
  end.

(** ** Outcomes *)

(** A call either returns or dereferences a null pointer. *)
Inductive outcome (A : Type) :=
  | Done (a : A)
  | NullDeref.
Arguments Done {A} a.
Arguments NullDeref {A}.

Definition bind {A B} (m : outcome A) (k : A -> outcome B) : outcome B :=
  match m with
  | Done a => k a
  | NullDeref => NullDeref
  end.

Notation "'call' x <- m ; k" := (bind m (fun x => k))
  (at level 10, x name, m at level 100, k at level 200).

(** What a whole-mesh initializer leaves behind: the assertion that fired
    (a debug build stops there, a release build goes on), whether the
    returned pointer is non-null, and the caller's array after the call. *)
Record init_result := {
  init_assert : option string;
  init_returned : bool;
  init_factor : list float
}.

Definition init_failed (msg : option string) (automask_factor : list float) : init_result :=
  {| init_assert := msg; init_returned := false; init_factor := automask_factor |}.

Definition init_ok (automask_factor : list float) : init_result :=
  {| init_assert := None; init_returned := true; init_factor := automask_factor |}.

(** ** Topology *)

Definition sculpt_automasking_is_constrained_by_radius (br : Brush) : bool :=
  match falloff_shape br with
  | PAINT_FALLOFF_SHAPE_TUBE => false
  | _ =>
    match sculpt_tool br with
    | SCULPT_TOOL_GRAB | SCULPT_TOOL_THUMB | SCULPT_TOOL_ROTATE => true
    | _ => false
    end
  end.

(** The effect of [automask_floodfill_cb] on the array. *)
Definition automask_floodfill_cb (from_v to_v : nat) (automask_factor : list float)
    : list float :=
  <[from_v := F32.one]> (<[to_v := F32.one]> automask_factor).

Definition SCULPT_topology_automasking_init
    (sd : Sculpt) (ob : Object) (automask_factor : list float) : outcome init_result :=
  let ss := sculpt ob in
  let brush := paint_brush sd in
  if match pbvh_type ss with PBVH_FACES => negb (pmap ss) | _ => false end
  then Done (init_failed (Some "Topology masking: pmap missing"%string) automask_factor)
  else
    let automask_factor :=
      for_range (totvert ss) (fun i a => <[i := F32.zero]> a) automask_factor in
    call use_radius <-
      (if stroke_cache ss
       then match brush with
            | Some b => Done (sculpt_automasking_is_constrained_by_radius b)
            | None => NullDeref
            end
       else Done false) ;
    Done (init_ok
            (fold_left (fun a '(from_v, to_v) => automask_floodfill_cb from_v to_v a)
                       (floodfill_visits ss use_radius) automask_factor)).

(** ** Face sets *)

Definition sculpt_face_sets_automasking_init
    (sd : Sculpt) (ob : Object) (automask_factor : list float) : init_result :=
  let ss := sculpt ob in
  let brush := paint_brush sd in
  if negb (SCULPT_is_automasking_enabled sd ss brush)
  then init_failed None automask_factor
  else if match pbvh_type ss with PBVH_FACES => negb (pmap ss) | _ => false end
  then init_failed (Some "Face Sets automasking: pmap missing"%string) automask_factor
  else
    let active_face_set := active_face_set ss in
    init_ok
      (for_range (totvert ss)
         (fun i a =>
            if negb (vertex_has_face_set ss i active_face_set)
            then <[i := (arr_get F32.zero a i * F32.zero)%f32]> a
            else a)
         automask_factor).

(** ** Cavity, whole mesh *)

(** One round of the blur, after the two pointers were swapped: the loop
    over the vertices writes [factor] and reads [scratch]. *)
Definition cavity_blur_round (ss : SculptSession) (factor scratch : list float)
    : list float :=
  for_range (totvert ss)
    (fun i factor =>
       let '(sum, tot) :=
         fold_left
           (fun '(sum, tot) ni => ((sum + arr_get F32.zero scratch ni)%f32, tot + 1))
           (vertex_neighbors ss i) (F32.zero, 0) in
       let sum := if tot =? 0 then sum else (sum / F32.of_Z tot)%f32 in
       <[i := ((sum + arr_get F32.zero factor i) * F32.half)%f32]> factor)
    factor.

(** [rounds] iterations of the blur loop on the pair of pointers
    [(factor, scratch)]. *)
Fixpoint cavity_blur (rounds : nat) (ss : SculptSession) (factor scratch : list float)
    : list float * list float :=
  match rounds with
  | O => (factor, scratch)
  | S rounds =>
    let '(factor, scratch) := (scratch, factor) in
    let factor := cavity_blur_round ss factor scratch in
    cavity_blur rounds ss factor scratch
  end.

(** [factor[i] *= sculpt_automasking_cavity_factor(automasking, ss, i)] for
    every vertex. *)
Definition cavity_multiply (automasking : AutomaskingCache) (ss : SculptSession)
    (factor : list float) : list float :=
  for_range (totvert ss)
    (fun i f =>
       <[i := (arr_get F32.zero f i * sculpt_automasking_cavity_factor automasking ss i)%f32]> f)
    factor.

(** The values the blur buffer holds after the loop, for
    [boundary_propagation_steps > 1]; the two buffers come from
    [MEM_malloc_arrayN] and are set to 1.0 throughout. *)
Definition cavity_blurred (automasking : AutomaskingCache) (ss : SculptSession)
    (boundary_propagation_steps : Z) : list float :=
  let factor := replicate (totvert ss) F32.one in
  let scratch := replicate (totvert ss) F32.one in
  let factor := cavity_multiply automasking ss factor in
  fst (cavity_blur (Z.to_nat (boundary_propagation_steps - 1)) ss factor scratch).

(** The step count is a C [int].  The number of blur rounds,
    [boundary_propagation_steps - 1], is the source's for every step count
    above the least [int]; at the least [int] the source's subtraction
    overflows, and the properties of this initializer are stated for step
    counts above it. *)
Definition sculpt_cavity_automasking_init
    (sd : Sculpt) (ob : Object) (automasking : AutomaskingCache)
    (automask_factor : list float) (boundary_propagation_steps : Z) : init_result :=
  let ss := sculpt ob in
  let brush := paint_brush sd in
  if negb (SCULPT_is_automasking_enabled sd ss brush)
  then init_failed None automask_factor
  else if match pbvh_type ss with PBVH_FACES => negb (pmap ss) | _ => false end
  then init_failed (Some "Cavity mask automasking: pmap missing"%string) automask_factor
  else if 1 <? boundary_propagation_steps
  then
    let factor := cavity_blurred automasking ss boundary_propagation_steps in
    init_ok
      (for_range (totvert ss)
         (fun i a => <[i := (arr_get F32.zero a i * arr_get F32.zero factor i)%f32]> a)
         automask_factor)
  else init_ok (cavity_multiply automasking ss automask_factor).

(** ** Boundary distance field *)

Definition EDGE_DISTANCE_INF : Z := -1.

(** The seeding loop, on the zeroed array [MEM_callocN] returns. *)
Definition boundary_seed (ss : SculptSession) (mode : eBoundaryAutomaskMode)
    (edge_distance : list Z) : list Z :=
  for_range (totvert ss)
    (fun i edge_distance =>
       let edge_distance := <[i := EDGE_DISTANCE_INF]> edge_distance in
       match mode with
       | AUTOMASK_INIT_BOUNDARY_EDGES =>
         if vertex_is_boundary ss i then <[i := 0]> edge_distance else edge_distance
       | AUTOMASK_INIT_BOUNDARY_FACE_SETS =>
         if negb (vertex_has_unique_face_set ss i)
         then <[i := 0]> edge_distance
         else edge_distance
       end)
    edge_distance.

(** The body of the inner loop for vertex [i]: skipped unless [i] is still
    at INF, otherwise one test and one possible store per neighbour, all on
    the one array. *)
Definition boundary_propagate_vertex (ss : SculptSession) (propagation_it : Z)
    (i : nat) (edge_distance : list Z) : list Z :=
  if negb (arr_get 0 edge_distance i =? EDGE_DISTANCE_INF) then edge_distance
  else
    fold_left
      (fun edge_distance ni =>
         if arr_get 0 edge_distance ni =? propagation_it
         then <[i := propagation_it + 1]> edge_distance
         else edge_distance)
      (vertex_neighbors ss i) edge_distance.

(** One iteration of the outer loop. *)
Definition boundary_propagate_pass (ss : SculptSession) (propagation_it : Z)
    (edge_distance : list Z) : list Z :=
  for_range (totvert ss) (boundary_propagate_vertex ss propagation_it) edge_distance.

(** The outer loop, [propagation_it] from 0 while below [propagation_steps]. *)
Definition boundary_propagate (ss : SculptSession) (propagation_steps : Z)
    (edge_distance : list Z) : list Z :=
  for_range (Z.to_nat propagation_steps)
    (fun propagation_it => boundary_propagate_pass ss (Z.of_nat propagation_it))
    edge_distance.

Definition boundary_edge_distance (ss : SculptSession) (mode : eBoundaryAutomaskMode)
    (propagation_steps : Z) : list Z :=
  boundary_propagate ss propagation_steps
    (boundary_seed ss mode (replicate (totvert ss) 0)).

(** The value [1.0f - edge_boundary_automask] a reached vertex is
    multiplied by. *)
Definition boundary_multiplier (edge_distance propagation_steps : Z) : float :=
  let p := (F32.one - F32.of_Z edge_distance / F32.of_Z propagation_steps)%f32 in
  let edge_boundary_automask := pow2f p in
  (F32.one - edge_boundary_automask)%f32.

(** The last loop of [SCULPT_boundary_automasking_init]. *)
Definition boundary_apply (ss : SculptSession) (edge_distance : list Z)
    (propagation_steps : Z) (automask_factor : list float) : list float :=
  for_range (totvert ss)
    (fun i a =>
       if arr_get 0 edge_distance i =? EDGE_DISTANCE_INF then a
       else
         <[i := (arr_get F32.zero a i
                 * boundary_multiplier (arr_get 0 edge_distance i) propagation_steps)%f32]> a)
    automask_factor.

Definition SCULPT_boundary_automasking_init
    (ob : Object) (mode : eBoundaryAutomaskMode) (propagation_steps : Z)
    (automask_factor : list float) : init_result :=
  let ss := sculpt ob in
  if negb (pmap ss)
  then init_failed (Some "Boundary Edges masking: pmap missing"%string) automask_factor
  else
    let edge_distance := boundary_edge_distance ss mode propagation_steps in
    init_ok (boundary_apply ss edge_distance propagation_steps automask_factor).

(** ** The cache *)

Definition SCULPT_automasking_cache_settings_update
    (ss : SculptSession) (sd : Sculpt) (brush : option Brush)
    : outcome AutomaskingSettings :=
  let flags := sculpt_automasking_mode_effective_bits sd brush in
  let initial_face_set := active_face_set ss in
  match brush with
  | Some b =>
    Done {| flags := flags;
            initial_face_set := initial_face_set;
            cavity_factor := automasking_cavity_factor b |}
  | None => NullDeref
  end.

(** [SCULPT_automasking_cache_init]: [Done None] is the null pointer
    returned for disabled automasking.  The initializers' return values are
    dropped, as in the source; only the array they leave matters. *)
Definition SCULPT_automasking_cache_init
    (sd : Sculpt) (brush : option Brush) (ob : Object)
    : outcome (option AutomaskingCache) :=
  let ss := sculpt ob in
  let totvert := totvert ss in
  if negb (SCULPT_is_automasking_enabled sd ss brush) then Done None
  else
    call settings <- SCULPT_automasking_cache_settings_update ss sd brush ;
    if negb (SCULPT_automasking_needs_factors_cache sd brush)
    then Done (Some {| settings := settings; factor := None |})
    else
      let factor := replicate totvert F32.one in
      let boundary_propagation_steps :=
        match brush with
        | Some b => automasking_boundary_edges_propagation_steps b
        | None => 1
        end in
      call factor <-
        (if SCULPT_is_automasking_mode_enabled sd brush BRUSH_AUTOMASKING_TOPOLOGY
         then call r <- SCULPT_topology_automasking_init sd ob factor ;
              Done (init_factor r)
         else Done factor) ;
      let factor :=
        if SCULPT_is_automasking_mode_enabled sd brush BRUSH_AUTOMASKING_FACE_SETS
        then init_factor (sculpt_face_sets_automasking_init sd ob factor)
        else factor in
      let factor :=
        if SCULPT_is_automasking_mode_enabled sd brush BRUSH_AUTOMASKING_CAVITY
        then init_factor
               (sculpt_cavity_automasking_init sd ob
                  {| settings := settings; factor := Some factor |}
                  factor boundary_propagation_steps)
        else factor in
      let factor :=
        if SCULPT_is_automasking_mode_enabled sd brush BRUSH_AUTOMASKING_BOUNDARY_EDGES
        then init_factor
               (SCULPT_boundary_automasking_init ob AUTOMASK_INIT_BOUNDARY_EDGES
                  boundary_propagation_steps factor)
        else factor in
      let factor :=
        if SCULPT_is_automasking_mode_enabled sd brush BRUSH_AUTOMASKING_BOUNDARY_FACE_SETS
        then init_factor
               (SCULPT_boundary_automasking_init ob AUTOMASK_INIT_BOUNDARY_FACE_SETS
                  boundary_propagation_steps factor)
        else factor in
      Done (Some {| settings := settings; factor := Some factor |}).

(** ** Test meshes *)

Definition origin : vec3 := zero_v3.
Definition up : vec3 := (F32.zero, F32.zero, F32.one).

(** A mesh of [n] vertices from its positions and adjacency lists; every
    normal is +Z, every vertex is in the one face set 1, and the adjacency
    map is built. *)
Definition mesh_of (n : nat) (co : nat -> vec3) (nbrs : nat -> list nat)
    (boundary : nat -> bool) : SculptSession :=
  {| totvert := n;
     vertex_co := co;
     vertex_no := fun _ => up;
     vertex_neighbors := nbrs;
     vertex_is_boundary := boundary;
     vertex_has_face_set := fun _ f => f =? 1;
     vertex_has_unique_face_set := fun _ => true;
     active_face_set := 1;
     pmap := true;
     pbvh_type := PBVH_FACES;
     stroke_cache := false;
     stroke_is_dynamic_topology := fun _ => false;
     floodfill_visits := fun _ => [] |}.

Definition brush_of (bits steps : Z) (cavity : float) : Brush :=
  {| automasking_flags := bits;
     automasking_boundary_edges_propagation_steps := steps;
     automasking_cavity_factor := cavity;
     falloff_shape := PAINT_FALLOFF_SHAPE_SPHERE;
     sculpt_tool := SCULPT_TOOL_OTHER |}.

Definition scene_of (bits : Z) (b : option Brush) : Sculpt :=
  {| sd_automasking_flags := bits; paint_brush := b |}.

(** One vertex without neighbours. *)
Definition isolated_vertex : SculptSession :=
  mesh_of 1 (fun _ => origin) (fun _ => []) (fun _ => false).

(** Two vertices joined by an edge of length zero. *)
Definition coincident_pair : SculptSession :=
  mesh_of 2 (fun _ => origin) (fun v => match v with O => [1%nat] | _ => [0%nat] end)
    (fun _ => false).

(** The chain 0-1-2-3-4 with both ends on the boundary. *)
Definition chain5 : SculptSession :=
  mesh_of 5 (fun _ => origin)
    (fun v => match v with
              | 0 => [1] | 1 => [0; 2] | 2 => [1; 3] | 3 => [2; 4] | 4 => [3]
              | _ => []
              end%nat)
    (fun v => match v with 0 | 4 => true | _ => false end%nat).

(** Two vertices joined by an edge along the normal: vertex 0 at the origin
    sees its neighbour above it, vertex 1 sees its neighbour below it. *)
Definition stacked_pair : SculptSession :=
  mesh_of 2 (fun v => match v with O => origin | _ => up end)
    (fun v => match v with O => [1%nat] | _ => [0%nat] end)
    (fun _ => false).


(** ** Reference definitions that follow the specification's words *)

(** The five strategy bits [SCULPT_is_automasking_enabled] looks at. *)
Definition strategy_bits : list Z :=
  [BRUSH_AUTOMASKING_TOPOLOGY; BRUSH_AUTOMASKING_FACE_SETS;
   BRUSH_AUTOMASKING_BOUNDARY_EDGES; BRUSH_AUTOMASKING_BOUNDARY_FACE_SETS;
   BRUSH_AUTOMASKING_CAVITY].

(** The allocation rule as the data model words it: Topology, or any enabled
    strategy together with a step count other than 1. *)
Definition array_rule_as_worded (sd : Sculpt) (brush : Brush) : Prop :=
  SCULPT_is_automasking_mode_enabled sd (Some brush) BRUSH_AUTOMASKING_TOPOLOGY = true
  \/ ((exists mode, In mode strategy_bits
         /\ SCULPT_is_automasking_mode_enabled sd (Some brush) mode = true)
      /\ automasking_boundary_edges_propagation_steps brush <> 1).

(** The setting of the single-vertex scenario as it is worded: vertex [v]
    has no neighbour, Cavity is the only strategy of brush and scene, and
    [cavity_factor] is 1.0; the number of propagation steps is left open. *)
Definition isolated_cavity_setting (sd : Sculpt) (brush : Brush) (ob : Object) (v : nat)
    : Prop :=
  vertex_neighbors (sculpt ob) v = []
  /\ stroke_is_dynamic_topology (sculpt ob) brush = false
  /\ sculpt_automasking_mode_effective_bits sd (Some brush) = BRUSH_AUTOMASKING_CAVITY
  /\ automasking_cavity_factor brush = F32.one.

(** The mean of [values] over the neighbours of vertex [i]; the plain sum,
    that is zero, when there are none. *)
Definition neighbor_mean (ss : SculptSession) (values : list float) (i : nat) : float :=
  let nbrs := vertex_neighbors ss i in
  let sum := fold_left (fun s ni => (s + arr_get F32.zero values ni)%f32) nbrs F32.zero in
  match nbrs with
  | [] => sum
  | _ => (sum / F32.of_Z (Z.of_nat (length nbrs)))%f32
  end.

(** A round of averaging that takes the neighbours' values from one array
    and the vertex's own value from another. *)
Definition blur_mix (ss : SculptSession) (neighbors_from own_from : list float)
    : list float :=
  imap (fun i own => ((neighbor_mean ss neighbors_from i + own) * F32.half)%f32) own_from.

(** The blur round as the specification words it: every vertex gets the mean
    of its neighbours' previous values plus its own previous value, halved. *)
Definition blur_round_as_worded (ss : SculptSession) (previous : list float)
    : list float :=
  blur_mix ss previous previous.

(** Every neighbour index lies inside the mesh. *)
Definition neighbors_in_range (ss : SculptSession) : bool :=
  forallb
    (fun v => forallb (fun u => (u <? totvert ss)%nat) (vertex_neighbors ss v))
    (seq 0 (totvert ss)).

(** The seed test of the boundary distance field. *)
Definition boundary_seed_vertex (ss : SculptSession) (mode : eBoundaryAutomaskMode)
    (v : nat) : bool :=
  match mode with
  | AUTOMASK_INIT_BOUNDARY_EDGES => vertex_is_boundary ss v
  | AUTOMASK_INIT_BOUNDARY_FACE_SETS => negb (vertex_has_unique_face_set ss v)
  end.

(** [hops ss mode k v]: a path of [k] neighbour links leads from [v] to a
    seed vertex. *)
Inductive hops (ss : SculptSession) (mode : eBoundaryAutomaskMode) : nat -> nat -> Prop :=
  | hops_seed v :
      boundary_seed_vertex ss mode v = true -> hops ss mode 0 v
  | hops_link k v u :
      In u (vertex_neighbors ss v) -> hops ss mode k u -> hops ss mode (S k) v.

(** [d] is the graph distance from [v] to the seed set: the length of a
    shortest such path. *)
Definition hop_distance (ss : SculptSession) (mode : eBoundaryAutomaskMode)
    (v d : nat) : Prop :=
  hops ss mode d v /\ forall k, (k < d)%nat -> ~ hops ss mode k v.

(** One level of a double-buffered breadth-first pass: every entry of the
    new array is computed from the old array alone. *)
Definition snapshot_pass (ss : SculptSession) (propagation_it : Z) (old : list Z)
    : list Z :=
  imap
    (fun i d =>
       if negb (d =? EDGE_DISTANCE_INF) then d
       else if existsb (fun ni => arr_get 0 old ni =? propagation_it)
                       (vertex_neighbors ss i)
       then propagation_it + 1
       else d)
    old.

(** The distance the seeding loop stores at [v]. *)
Definition seed_value (ss : SculptSession) (mode : eBoundaryAutomaskMode) (v : nat) : Z :=
  if boundary_seed_vertex ss mode v then 0 else EDGE_DISTANCE_INF.

(** The state of the distance array once the frontier stands at [k] hops:
    a vertex is at INF when no path of at most [k] links reaches a seed, and
    holds its graph distance otherwise. *)
Definition level_invariant (ss : SculptSession) (mode : eBoundaryAutomaskMode)
    (k : nat) (edge_distance : list Z) : Prop :=
  length edge_distance = totvert ss
  /\ forall v, (v < totvert ss)%nat ->
       (edge_distance !! v = Some EDGE_DISTANCE_INF
        /\ forall d, (d <= k)%nat -> ~ hops ss mode d v)
       \/ (exists d, (d <= k)%nat
                     /\ edge_distance !! v = Some (Z.of_nat d)
                     /\ hop_distance ss mode v d).

(** The three quantities of the cavity estimate, each by a loop of its own
    over the neighbours: the sum of their positions, the sum of their
    distances to the vertex, and their number, all in single precision. *)
Definition sum_v3 (l : list vec3) : vec3 := fold_left add_v3_v3 l zero_v3.

Definition sum_f32 (l : list float) : float := fold_left F32.add l F32.zero.

Definition count_f32 {A} (l : list A) : float :=
  fold_left (fun c _ => (c + F32.one)%f32) l F32.zero.

Definition mean_neighbor_position (ss : SculptSession) (v : nat) : vec3 :=
  let nbrs := vertex_neighbors ss v in
  mul_v3_fl (sum_v3 (map (vertex_co ss) nbrs)) (F32.one / count_f32 nbrs)%f32.

Definition mean_edge_length (ss : SculptSession) (v : nat) : float :=
  let nbrs := vertex_neighbors ss v in
  (sum_f32 (map (fun ni => len_v3v3 (vertex_co ss v) (vertex_co ss ni)) nbrs)
   / count_f32 nbrs)%f32.

(** The cavity estimate as the specification words it. *)
Definition cavity_as_worded (ss : SculptSession) (v : nat) : float :=
  match vertex_neighbors ss v with
  | [] => F32.zero
  | _ =>
    let diff := sub_v3_v3 (mean_neighbor_position ss v) (vertex_co ss v) in
    (dot_v3v3 diff (vertex_no ss v) / mean_edge_length ss v)%f32
  end.

(** A single-precision value above zero: a positive finite number whose
    exponent is in range, or plus infinity. *)
Definition positive_float (x : float) : Prop :=
  match x with
  | S754_finite false _ e => -149 <= e
  | S754_infinity false => True
  | _ => False
  end.

(** ** The values of single-precision numbers *)

(** The power [2^e] as a rational, for any integer [e]. *)
Definition pow2 (e : Z) : Q := (2 ^ e)%Q.

(** The rational a finite single-precision number stands for (zero for the
    others). *)
Definition F2Q (x : float) : Q :=
  match x with
  | S754_finite s m e => ((if s then -1 else 1) * inject_Z (Z.pos m) * pow2 e)%Q
  | _ => 0%Q
  end.

(** [located m l x]: the location [l] says where [x] lies from the integer
    [m] to [m + 1]: on [m], below the middle, on it, or above it. *)
Definition located (m : Z) (l : location) (x : Q) : Prop :=
  match l with
  | loc_Exact => (x == inject_Z m)%Q
  | loc_Inexact Lt => (inject_Z m < x /\ x < inject_Z m + (1 # 2))%Q
  | loc_Inexact Eq => (x == inject_Z m + (1 # 2))%Q
  | loc_Inexact Gt => (inject_Z m + (1 # 2) < x /\ x < inject_Z m + 1)%Q
  end.

(** Zero, or a positive finite number in canonical form: mantissa below
    [2^24], normalised unless the exponent is the least one. *)
Definition canonical_nonneg (x : float) : Prop :=
  match x with
  | S754_zero false => True
  | S754_finite false m e =>
    -149 <= e <= 104 /\ Z.pos m < 2 ^ 24 /\ (-149 < e -> 2 ^ 23 <= Z.pos m)
  | _ => False
  end.

(** A mantissa and exponent the rounding can take: nonnegative, not yet
    shifted past the format's exponent, and below the overflow threshold. *)
Definition round_ready (m e : Z) : Prop :=
  0 <= m
  /\ e <= fexp F32.prec F32.emax (Zdigits2 m + e)
  /\ Zdigits2 m + e <= 127.

(** The exponent and the mantissa the rounding arrives at. *)
Definition round_exponent (m e : Z) : Z := fexp F32.prec F32.emax (Zdigits2 m + e).

Definition round_mantissa (m e : Z) (l : location) : Z :=
  let mrs := fst (shr_fexp F32.prec F32.emax m e l) in
  round_nearest_even (shr_m mrs) (loc_of_shr_record mrs).


(** ** Further reference definitions *)

(** The test "PBVH of faces without adjacency map" the Topology, FaceSets
    and Cavity initializers start with. *)
Definition pmap_missing_for_faces (ss : SculptSession) : bool :=
  match pbvh_type ss with
  | PBVH_FACES => negb (pmap ss)
  | _ => false
  end.

(** The [use_radius] flag the Topology initializer hands to the flood
    fill. *)
Definition topology_use_radius (sd : Sculpt) (ss : SculptSession) : bool :=
  match paint_brush sd with
  | Some b => stroke_cache ss && sculpt_automasking_is_constrained_by_radius b
  | None => false
  end.

(** Vertex [v] is an end of some edge the flood fill visits. *)
Definition floodfill_reached (ss : SculptSession) (use_radius : bool) (v : nat) : bool :=
  existsb (fun '(from_v, to_v) => (from_v =? v)%nat || (to_v =? v)%nat)
    (floodfill_visits ss use_radius).

(** The cache the query falls back on for one strategy bit alone. *)
Definition on_demand_cache (bits initial_face_set : Z) : AutomaskingCache :=
  {| settings := {| flags := bits;
                    initial_face_set := initial_face_set;
                    cavity_factor := F32.one |};
     factor := None |}.

(** An entry of a factor array that is a number from 0.0 to 1.0. *)
Definition unit_entry (x : float) : Prop :=
  canonical_nonneg x /\ (F2Q x <= 1)%Q.

(** ** The factor array, vertex by vertex *)

(** The FaceSets and Cavity initializers go on past their first two tests:
    automasking is enabled for the paint's own brush, and the adjacency map
    is not missing. *)
Definition paint_pass_runs (sd : Sculpt) (ss : SculptSession) : bool :=
  SCULPT_is_automasking_enabled sd ss (paint_brush sd)
  && negb (pmap_missing_for_faces ss).

(** What each initializer does to the entry [x] of vertex [v]. *)
Definition topology_term (sd : Sculpt) (ss : SculptSession) (v : nat) (x : float) : float :=
  if pmap_missing_for_faces ss then x
  else if floodfill_reached ss (topology_use_radius sd ss) v then F32.one
  else F32.zero.

Definition face_sets_term (sd : Sculpt) (ss : SculptSession) (v : nat) (x : float) : float :=
  if paint_pass_runs sd ss && negb (vertex_has_face_set ss v (active_face_set ss))
  then (x * F32.zero)%f32
  else x.

Definition cavity_term (sd : Sculpt) (ss : SculptSession) (automasking : AutomaskingCache)
    (boundary_propagation_steps : Z) (v : nat) (x : float) : float :=
  if paint_pass_runs sd ss
  then
    if 1 <? boundary_propagation_steps
    then (x * arr_get F32.zero (cavity_blurred automasking ss boundary_propagation_steps) v)%f32
    else (x * sculpt_automasking_cavity_factor automasking ss v)%f32
  else x.

Definition boundary_term (ss : SculptSession) (mode : eBoundaryAutomaskMode)
    (propagation_steps : Z) (v : nat) (x : float) : float :=
  if pmap ss
  then
    let d := arr_get 0 (boundary_edge_distance ss mode propagation_steps) v in
    if d =? EDGE_DISTANCE_INF then x
    else (x * boundary_multiplier d propagation_steps)%f32
  else x.

(** The five terms applied in the order of [SCULPT_automasking_cache_init],
    each one only when its strategy is enabled, starting from 1.0. *)
Definition composed_factor (sd : Sculpt) (b : Brush) (ss : SculptSession) (v : nat)
    : float :=
  let enabled := SCULPT_is_automasking_mode_enabled sd (Some b) in
  let steps := automasking_boundary_edges_propagation_steps b in
  let automasking :=
    {| settings := {| flags := sculpt_automasking_mode_effective_bits sd (Some b);
                      initial_face_set := active_face_set ss;
                      cavity_factor := automasking_cavity_factor b |};
       factor := None |} in
  let x := F32.one in
  let x := if enabled BRUSH_AUTOMASKING_TOPOLOGY then topology_term sd ss v x else x in
  let x := if enabled BRUSH_AUTOMASKING_FACE_SETS then face_sets_term sd ss v x else x in
  let x := if enabled BRUSH_AUTOMASKING_CAVITY
           then cavity_term sd ss automasking steps v x else x in
  let x := if enabled BRUSH_AUTOMASKING_BOUNDARY_EDGES
           then boundary_term ss AUTOMASK_INIT_BOUNDARY_EDGES steps v x else x in
  let x := if enabled BRUSH_AUTOMASKING_BOUNDARY_FACE_SETS
           then boundary_term ss AUTOMASK_INIT_BOUNDARY_FACE_SETS steps v x else x in
  x.

(** ** Ranges *)

(** A single-precision datum as the hardware holds it: any zero, infinity
    or NaN, or a finite number in canonical form. *)
Definition valid_float (x : float) : Prop :=
  match x with
  | S754_finite _ m e =>
    -149 <= e <= 104 /\ Z.pos m < 2 ^ 24 /\ (-149 < e -> 2 ^ 23 <= Z.pos m)
  | _ => True
  end.

(** NaN, or a number from 0.0 to 1.0. *)
Definition unit_or_nan (x : float) : Prop :=
  x = S754_nan \/ F32.in_unit_interval x = true.

(** The chain 0-1-2 and the edge 3-4 beside it, with vertices 0 and 3 on
    the boundary; the flood fill starts on the chain and visits its two
    edges. *)
Definition two_islands : SculptSession :=
  {| totvert := 5;
     vertex_co := fun _ => origin;
     vertex_no := fun _ => up;
     vertex_neighbors :=
       (fun v => match v with
                 | 0 => [1] | 1 => [0; 2] | 2 => [1] | 3 => [4] | 4 => [3]
                 | _ => []
                 end%nat);
     vertex_is_boundary := (fun v => match v with 0 | 3 => true | _ => false end%nat);
     vertex_has_face_set := fun _ f => f =? 1;
     vertex_has_unique_face_set := fun _ => true;
     active_face_set := 1;
     pmap := true;
     pbvh_type := PBVH_FACES;
     stroke_cache := false;
     stroke_is_dynamic_topology := fun _ => false;
     floodfill_visits := fun _ => [(0, 1); (1, 2)]%nat |}.

(** NaN, the negative zero, or a number from 0.0 to 1.0 in canonical
    form: what a factor can be along the way. *)
Definition weak_unit (x : float) : Prop :=
  x = S754_nan \/ x = S754_zero true \/ unit_entry x.

(** NaN, or a canonical number that is at most [bound]. *)
Definition nan_or_below (bound : Q) (x : float) : Prop :=
  x = S754_nan \/ (canonical_nonneg x /\ (F2Q x <= bound)%Q).

(** The running sum of the blur loop over the neighbours. *)
Definition neighbor_sum (values : list float) (nbrs : list nat) (s : float) : float :=
  fold_left (fun s ni => (s + arr_get F32.zero values ni)%f32) nbrs s.

(** No vertex has more neighbours than a C [int] counts. *)
Definition valence_in_range (ss : SculptSession) : Prop :=
  forall v, (v < totvert ss)%nat -> Z.of_nat (length (vertex_neighbors ss v)) < 2 ^ 31.

(** The brush [b] with its number of propagation steps replaced. *)
Definition with_steps (b : Brush) (steps : Z) : Brush :=
  {| automasking_flags := automasking_flags b;
     automasking_boundary_edges_propagation_steps := steps;
     automasking_cavity_factor := automasking_cavity_factor b;
     falloff_shape := falloff_shape b;
     sculpt_tool := sculpt_tool b |}.


(** * Properties *)

(** ** Single precision: digits and shifts *)

Lemma fexp32 (x : Z) : fexp F32.prec F32.emax x = Z.max (x - 24) (-149).
Proof. reflexivity. Qed.

Lemma digits2_pos_size (m : positive) : digits2_pos m = Pos.size m.
Proof. induction m as [m IH|m IH|]; simpl; rewrite ?IH; reflexivity. Qed.

Lemma Zdigits2_pos_bounds (m : positive) :
  2 ^ (Z.pos (digits2_pos m) - 1) <= Z.pos m < 2 ^ Z.pos (digits2_pos m).
Proof.
  rewrite digits2_pos_size. split.
  - assert (H := Pos.size_le m).
    assert (H' : Z.pos (2 ^ Pos.size m) <= Z.pos m~0) by exact H.
    rewrite Pos2Z.inj_pow in H'.
    replace (Z.pos (Pos.size m)) with (Z.pos (Pos.size m) - 1 + 1) in H' by lia.
    rewrite Z.pow_add_r in H' by lia. change (2 ^ 1) with 2 in H'. lia.
  - assert (H := Pos.size_gt m).
    assert (H' : Z.pos m < Z.pos (2 ^ Pos.size m)) by exact H.
    rewrite Pos2Z.inj_pow in H'. exact H'.
Qed.

Lemma shr_1_m (mrs : shr_record) :
  0 <= shr_m mrs -> shr_m (shr_1 mrs) = shr_m mrs / 2.
Proof.
  destruct mrs as [m r s]. simpl. intros Hm.
  destruct m as [|[p|p|]|p]; try reflexivity; try lia.
  - change (Z.pos p = Z.pos p~1 / 2). rewrite Pos2Z.inj_xI.
    apply Z.div_unique with 1; lia.
  - change (Z.pos p = Z.pos p~0 / 2). rewrite Pos2Z.inj_xO.
    apply Z.div_unique with 0; lia.
Qed.

Lemma pow2_xO (p : positive) : 2 ^ Z.pos p~0 = 2 ^ Z.pos p * 2 ^ Z.pos p.
Proof. rewrite Pos2Z.inj_xO, <- Z.pow_add_r by lia. f_equal. lia. Qed.

Lemma pow2_xI (p : positive) : 2 ^ Z.pos p~1 = 2 * (2 ^ Z.pos p * 2 ^ Z.pos p).
Proof.
  rewrite Pos2Z.inj_xI, <- Z.pow_add_r by lia.
  replace (2 * Z.pos p + 1) with (Z.succ (Z.pos p + Z.pos p)) by lia.
  apply Z.pow_succ_r. lia.
Qed.

Lemma iter_shr_1_m (p : positive) (mrs : shr_record) :
  0 <= shr_m mrs ->
  shr_m (SpecFloat.iter_pos shr_1 p mrs) = shr_m mrs / 2 ^ Z.pos p.
Proof.
  revert mrs. induction p as [p IH|p IH|]; intros mrs Hm; cbn [SpecFloat.iter_pos].
  - assert (H1 : 0 <= shr_m (shr_1 mrs)).
    { rewrite shr_1_m by exact Hm. apply Z.div_pos; lia. }
    assert (H2 : 0 <= shr_m (SpecFloat.iter_pos shr_1 p (shr_1 mrs))).
    { rewrite IH by exact H1. apply Z.div_pos; [exact H1|]. apply Z.pow_pos_nonneg; lia. }
    rewrite IH by exact H2. rewrite IH by exact H1. rewrite shr_1_m by exact Hm.
    assert (Hp : 0 < 2 ^ Z.pos p) by (apply Z.pow_pos_nonneg; lia).
    rewrite !Z.div_div by lia. rewrite pow2_xI. reflexivity.
  - assert (H2 : 0 <= shr_m (SpecFloat.iter_pos shr_1 p mrs)).
    { rewrite IH by exact Hm. apply Z.div_pos; [exact Hm|]. apply Z.pow_pos_nonneg; lia. }
    rewrite IH by exact H2. rewrite IH by exact Hm.
    assert (Hp : 0 < 2 ^ Z.pos p) by (apply Z.pow_pos_nonneg; lia).
    rewrite Z.div_div by lia. rewrite pow2_xO. reflexivity.
  - rewrite shr_1_m by exact Hm. reflexivity.
Qed.

Lemma shr_record_of_loc_m (m : Z) (l : location) : shr_m (shr_record_of_loc m l) = m.
Proof. destruct l as [|[| |]]; reflexivity. Qed.

Lemma round_nearest_even_bounds (m : Z) (l : location) :
  m <= round_nearest_even m l <= m + 1.
Proof.
  destruct l as [|[| |]]; simpl; try lia.
  destruct (Z.even m); lia.
Qed.

(** Rounding a positive mantissa at an exponent in range: the shift leaves
    a positive mantissa at an exponent in range. *)
Lemma shr_fexp_positive (m e : Z) (l : location) :
  0 < m -> -149 <= e ->
  0 < shr_m (fst (shr_fexp F32.prec F32.emax m e l))
  /\ -149 <= snd (shr_fexp F32.prec F32.emax m e l).
Proof.
  intros Hm He. unfold shr_fexp, shr. rewrite fexp32.
  destruct m as [|m|m]; try lia.
  change (Zdigits2 (Z.pos m)) with (Z.pos (digits2_pos m)).
  assert (Hd := Zdigits2_pos_bounds m).
  set (d := Z.pos (digits2_pos m)) in *.
  destruct (Z.max (d + e - 24) (-149) - e) as [|n|n] eqn:Hn; simpl;
    rewrite ?shr_record_of_loc_m; try (split; lia).
  rewrite iter_shr_1_m by (rewrite shr_record_of_loc_m; lia).
  rewrite shr_record_of_loc_m. split; [|lia].
  apply Z.div_str_pos. split; [apply Z.pow_pos_nonneg; lia|].
  apply Z.le_trans with (2 ^ (d - 1)); [|lia].
  apply Z.pow_le_mono_r; lia.
Qed.

Lemma binary_round_aux_positive (m : positive) (e : Z) (l : location) :
  -149 <= e ->
  positive_float (binary_round_aux F32.prec F32.emax false (Z.pos m) e l).
Proof.
  intros He. unfold binary_round_aux.
  destruct (shr_fexp_positive (Z.pos m) e l) as [H1 H1e]; [lia|exact He|].
  destruct (shr_fexp F32.prec F32.emax (Z.pos m) e l) as [mrs' e'].
  simpl in H1, H1e.
  assert (Hr := round_nearest_even_bounds (shr_m mrs') (loc_of_shr_record mrs')).
  set (m1 := round_nearest_even _ _) in *.
  destruct (shr_fexp_positive m1 e' loc_Exact) as [H2 H2e]; [lia|exact H1e|].
  destruct (shr_fexp F32.prec F32.emax m1 e' loc_Exact) as [mrs'' e''].
  simpl in H2, H2e.
  destruct (shr_m mrs'') as [|m''|m'']; try lia.
  destruct (Z.leb e'' (F32.emax - F32.prec)); simpl; [exact H2e|exact I].
Qed.

Lemma binary_round_positive (m : positive) (e : Z) :
  -149 <= e ->
  positive_float (binary_round F32.prec F32.emax false m e).
Proof.
  intros He. unfold binary_round, shl_align. rewrite fexp32.
  destruct (Z.max _ _ - e) as [|n|n] eqn:Hn; apply binary_round_aux_positive; lia.
Qed.

Lemma add_one_positive (x : float) :
  positive_float x -> positive_float (x + F32.one)%f32.
Proof.
  destruct x as [s|[|]| |[|] m e]; simpl; try contradiction; try exact (fun H => H).
  intros He. unfold F32.add. simpl.
  apply binary_round_positive. lia.
Qed.

Lemma positive_float_nonzero (x : float) :
  positive_float x -> F32.eqb x F32.zero = false.
Proof.
  destruct x as [s|[|]| |[|] m e]; simpl; try contradiction; reflexivity.
Qed.

Lemma count_from_positive {A} (l : list A) (c : float) :
  positive_float c ->
  positive_float (fold_left (fun c _ => (c + F32.one)%f32) l c).
Proof.
  revert c. induction l as [|b l IH]; intros c Hc; [exact Hc|].
  simpl. apply IH. apply add_one_positive. exact Hc.
Qed.

Lemma count_f32_positive {A} (l : list A) :
  l <> [] -> positive_float (count_f32 l).
Proof.
  destruct l as [|a l]; [congruence|]. intros _.
  unfold count_f32. simpl.
  change (F32.zero + F32.one)%f32 with F32.one.
  apply count_from_positive. simpl. lia.
Qed.

(** ** Single precision: powers of two *)

Lemma pow2_pos (e : Z) : (0 < pow2 e)%Q.
Proof. apply Qpower_0_lt. reflexivity. Qed.

Lemma pow2_add (a b : Z) : (pow2 (a + b) == pow2 a * pow2 b)%Q.
Proof. apply Qpower_plus. discriminate. Qed.

Lemma pow2_0 : (pow2 0 == 1)%Q.
Proof. reflexivity. Qed.

Lemma pow2_le (a b : Z) : a <= b -> (pow2 a <= pow2 b)%Q.
Proof. intros H. apply Qpower_le_compat_l; [exact H|discriminate]. Qed.

Lemma pow2_lt (a b : Z) : a < b -> (pow2 a < pow2 b)%Q.
Proof. intros H. apply Qpower_lt_compat_l; [exact H|reflexivity]. Qed.

Lemma pow2_Z (n : Z) : 0 <= n -> (inject_Z (2 ^ n) == pow2 n)%Q.
Proof. intros H. apply (Zpower_Qpower 2 n H). Qed.

Lemma pow2_cancel (a : Z) (x : Q) : (x * pow2 (- a) * pow2 a == x)%Q.
Proof.
  rewrite <- Qmult_assoc, <- pow2_add.
  replace (- a + a) with 0 by lia. rewrite pow2_0. ring.
Qed.

Lemma pow2_shift (a b : Z) (x : Q) : (x * pow2 a * pow2 b == x * pow2 (a + b))%Q.
Proof. rewrite pow2_add. ring. Qed.

(** ** Single precision: locations *)

Lemma located_bounds (m : Z) (l : location) (x : Q) :
  located m l x -> (inject_Z m <= x /\ x < inject_Z m + 1)%Q.
Proof.
  destruct l as [|[| |]]; simpl; intros H; lra.
Qed.

Lemma inject_Z_xO (p : positive) : (inject_Z (Z.pos p~0) == 2 * inject_Z (Z.pos p))%Q.
Proof. rewrite Pos2Z.inj_xO, inject_Z_mult. reflexivity. Qed.

Lemma inject_Z_xI (p : positive) : (inject_Z (Z.pos p~1) == 2 * inject_Z (Z.pos p) + 1)%Q.
Proof. rewrite Pos2Z.inj_xI, inject_Z_plus, inject_Z_mult. reflexivity. Qed.

(** One step of the shift halves the value and keeps it located. *)
Lemma shr_1_located (mrs : shr_record) (x : Q) :
  0 <= shr_m mrs ->
  located (shr_m mrs) (loc_of_shr_record mrs) x ->
  located (shr_m (shr_1 mrs)) (loc_of_shr_record (shr_1 mrs)) (x * pow2 (-1)).
Proof.
  assert (Hh : (pow2 (-1) == 1 # 2)%Q) by reflexivity.
  destruct mrs as [m r s]. cbn [shr_m]. intros Hm.
  destruct m as [|[p|p|]|p]; try lia;
    destruct r, s; cbn [shr_1 shr_m loc_of_shr_record located orb]; rewrite Hh;
    try rewrite inject_Z_xO; try rewrite inject_Z_xI;
    change (inject_Z 0) with 0%Q; change (inject_Z 1) with 1%Q;
    intros H; lra.
Qed.

Lemma iter_shr_1_located (p : positive) (mrs : shr_record) (x : Q) :
  0 <= shr_m mrs ->
  located (shr_m mrs) (loc_of_shr_record mrs) x ->
  located (shr_m (SpecFloat.iter_pos shr_1 p mrs))
          (loc_of_shr_record (SpecFloat.iter_pos shr_1 p mrs))
          (x * pow2 (- Z.pos p)).
Proof.
  assert (Hnn : forall q mrs, 0 <= shr_m mrs -> 0 <= shr_m (SpecFloat.iter_pos shr_1 q mrs)).
  { intros q mrs' H. rewrite iter_shr_1_m by exact H.
    apply Z.div_pos; [exact H|]. apply Z.pow_pos_nonneg; lia. }
  assert (Hnn1 : forall mrs, 0 <= shr_m mrs -> 0 <= shr_m (shr_1 mrs)).
  { intros mrs' H. rewrite shr_1_m by exact H. apply Z.div_pos; lia. }
  revert mrs x. induction p as [p IH|p IH|]; intros mrs x Hm Hl; cbn [SpecFloat.iter_pos].
  - assert (E : (x * pow2 (- Z.pos p~1)
                 == x * pow2 (-1) * pow2 (- Z.pos p) * pow2 (- Z.pos p))%Q).
    { replace (- Z.pos p~1) with (-1 + - Z.pos p + - Z.pos p) by lia.
      rewrite !pow2_add. ring. }
    assert (H := IH _ _ (Hnn p _ (Hnn1 _ Hm))
                   (IH _ _ (Hnn1 _ Hm) (shr_1_located _ _ Hm Hl))).
    revert H. generalize (SpecFloat.iter_pos shr_1 p (SpecFloat.iter_pos shr_1 p (shr_1 mrs))).
    intros [m' r' s']. cbn [shr_m]. destruct r', s'; cbn [loc_of_shr_record located];
      rewrite E; exact (fun H => H).
  - assert (E : (x * pow2 (- Z.pos p~0) == x * pow2 (- Z.pos p) * pow2 (- Z.pos p))%Q).
    { replace (- Z.pos p~0) with (- Z.pos p + - Z.pos p) by lia.
      rewrite !pow2_add. ring. }
    assert (H := IH _ _ (Hnn p _ Hm) (IH _ _ Hm Hl)).
    revert H. generalize (SpecFloat.iter_pos shr_1 p (SpecFloat.iter_pos shr_1 p mrs)).
    intros [m' r' s']. cbn [shr_m]. destruct r', s'; cbn [loc_of_shr_record located];
      rewrite E; exact (fun H => H).
  - apply shr_1_located; assumption.
Qed.

Lemma located_respects (m : Z) (l : location) (x y : Q) :
  (x == y)%Q -> located m l x -> located m l y.
Proof.
  intros E. destruct l as [|[| |]]; cbn [located]; rewrite E; exact (fun H => H).
Qed.

Lemma loc_of_shr_record_of_loc (m : Z) (l : location) :
  loc_of_shr_record (shr_record_of_loc m l) = l.
Proof. destruct l as [|[| |]]; reflexivity. Qed.

(** Rounding to nearest, ties to even, is monotone. *)
Lemma round_nearest_even_mono (ma mb : Z) (la lb : location) (xa xb : Q) :
  located ma la xa -> located mb lb xb -> (xa <= xb)%Q ->
  round_nearest_even ma la <= round_nearest_even mb lb.
Proof.
  intros Ha Hb Hx.
  assert (Ba := located_bounds _ _ _ Ha). assert (Bb := located_bounds _ _ _ Hb).
  assert (Ra := round_nearest_even_bounds ma la).
  assert (Rb := round_nearest_even_bounds mb lb).
  destruct (Z.lt_trichotomy ma mb) as [L|[E|L]]; [lia| |].
  - subst mb.
    destruct la as [|[| |]], lb as [|[| |]]; cbn [located round_nearest_even] in *;
      first [ lia | destruct (Z.even ma); lia | exfalso; lra ].
  - exfalso. assert (H : (inject_Z (mb + 1) <= inject_Z ma)%Q).
    { rewrite <- Zle_Qle. lia. }
    rewrite inject_Z_plus in H. change (inject_Z 1) with 1%Q in H. lra.
Qed.

(** ** Single precision: the rounding *)

Lemma Zdigits2_bounds (m : Z) :
  0 <= m ->
  0 <= Zdigits2 m /\ m < 2 ^ Zdigits2 m /\ (0 < m -> 2 ^ (Zdigits2 m - 1) <= m).
Proof.
  intros Hm. destruct m as [|m|m]; [simpl; lia| |lia].
  change (Zdigits2 (Z.pos m)) with (Z.pos (digits2_pos m)).
  assert (H := Zdigits2_pos_bounds m). lia.
Qed.

Lemma pow2_split (a b : Z) : 0 <= a -> 0 <= b -> 2 ^ (a + b) = 2 ^ a * 2 ^ b.
Proof. intros. apply Z.pow_add_r; assumption. Qed.

(** The shift to the format's exponent. *)
Lemma shr_fexp_spec (m e : Z) (l : location) (x : Q) :
  round_ready m e ->
  located m l x ->
  let mrs := fst (shr_fexp F32.prec F32.emax m e l) in
  let e' := snd (shr_fexp F32.prec F32.emax m e l) in
  e' = round_exponent m e
  /\ located (shr_m mrs) (loc_of_shr_record mrs) (x * pow2 (e - e'))
  /\ 0 <= shr_m mrs < 2 ^ 24
  /\ (-149 < e' -> 2 ^ 23 <= shr_m mrs)
  /\ -149 <= e' <= 103.
Proof.
  intros (Hm & Hpre & Hg) Hl. unfold round_exponent, shr_fexp, shr.
  rewrite fexp32 in *.
  destruct (Zdigits2_bounds m Hm) as (Hd0 & Hdu & Hdl).
  set (d := Zdigits2 m) in *.
  destruct (Z.max (d + e - 24) (-149) - e) as [|n|n] eqn:Hn; cbn [fst snd]; [| |lia].
  - rewrite shr_record_of_loc_m, loc_of_shr_record_of_loc.
    split; [lia|]. split.
    { apply (located_respects m l x); [|exact Hl].
      replace (e - e) with 0 by lia. rewrite pow2_0. ring. }
    assert (Hd24 : d <= 24) by lia.
    assert (H24 : 2 ^ d <= 2 ^ 24) by (apply Z.pow_le_mono_r; lia).
    split; [lia|]. split; [|lia].
    intros He. assert (d = 24) by lia.
    assert (0 < m).
    { destruct (Z.eq_dec m 0) as [->|]; [|lia]. subst d. simpl in *. lia. }
    specialize (Hdl H0). replace (d - 1) with 23 in Hdl by lia. exact Hdl.
  - assert (Hp : 0 < 2 ^ Z.pos n) by (apply Z.pow_pos_nonneg; lia).
    rewrite iter_shr_1_m by (rewrite shr_record_of_loc_m; exact Hm).
    rewrite shr_record_of_loc_m.
    split; [lia|]. split.
    { apply (located_respects _ _ (x * pow2 (- Z.pos n))).
      - replace (e - (e + Z.pos n)) with (- Z.pos n) by lia. reflexivity.
      - assert (H := iter_shr_1_located n (shr_record_of_loc m l) x).
        rewrite shr_record_of_loc_m, loc_of_shr_record_of_loc in H.
        rewrite iter_shr_1_m, shr_record_of_loc_m in H
          by (rewrite shr_record_of_loc_m; exact Hm).
        apply H; assumption. }
    split; [split|].
    + apply Z.div_pos; lia.
    + apply Z.div_lt_upper_bound; [exact Hp|].
      assert (H : 2 ^ d <= 2 ^ (Z.pos n + 24)) by (apply Z.pow_le_mono_r; lia).
      rewrite pow2_split in H by lia. lia.
    + split; [|lia]. intros He.
      assert (Hnd : Z.pos n = d - 24) by lia.
      assert (H0 : 0 < m).
      { destruct (Z.eq_dec m 0) as [->|]; [|lia]. subst d. simpl in *. lia. }
      specialize (Hdl H0).
      apply Z.div_le_lower_bound; [exact Hp|].
      replace (d - 1) with (Z.pos n + 23) in Hdl by lia.
      rewrite pow2_split in Hdl by lia. exact Hdl.
Qed.

(** What the rounding returns on a ready mantissa: a canonical number whose
    value is the rounded mantissa at the format's exponent. *)
Lemma binary_round_aux_spec (m e : Z) (l : location) (x : Q) :
  round_ready m e ->
  located m l x ->
  canonical_nonneg (binary_round_aux F32.prec F32.emax false m e l)
  /\ (F2Q (binary_round_aux F32.prec F32.emax false m e l)
      == inject_Z (round_mantissa m e l) * pow2 (round_exponent m e))%Q.
Proof.
  intros Hready Hl.
  destruct (shr_fexp_spec m e l x Hready Hl) as (He' & _ & Hm' & Hnorm & Hrange).
  unfold binary_round_aux, round_mantissa. rewrite <- He'.
  destruct (shr_fexp F32.prec F32.emax m e l) as [mrs' e']. cbn [fst snd] in *.
  assert (Hr := round_nearest_even_bounds (shr_m mrs') (loc_of_shr_record mrs')).
  set (m1 := round_nearest_even (shr_m mrs') (loc_of_shr_record mrs')) in *.
  change (2 ^ 24) with 16777216 in *. change (2 ^ 23) with 8388608 in *.
  destruct (Z.eq_dec m1 16777216) as [E|NE].
  - rewrite E. unfold shr_fexp, shr. rewrite fexp32.
    change (Zdigits2 16777216) with 25.
    replace (Z.max (25 + e' - 24) (-149) - e') with 1 by lia.
    cbn [SpecFloat.iter_pos shr_record_of_loc shr_1 shr_m].
    change (F32.emax - F32.prec) with 104.
    destruct (Z.leb_spec (e' + 1) 104) as [_|]; [|lia].
    split.
    + cbn [canonical_nonneg]. change (2 ^ 24) with 16777216. change (2 ^ 23) with 8388608.
      lia.
    + cbn [F2Q]. rewrite pow2_add. change (pow2 1) with 2%Q.
      change (inject_Z 16777216) with (2 * inject_Z 8388608)%Q. ring.
  - clearbody m1.
    destruct (Zdigits2_bounds m1) as (Hd0 & Hdu & Hdl); [lia|].
    unfold shr_fexp, shr. rewrite fexp32.
    assert (Hd24 : Zdigits2 m1 <= 24).
    { destruct (Z.eq_dec m1 0) as [->|]; [simpl; lia|].
      assert (H : 2 ^ (Zdigits2 m1 - 1) < 2 ^ 24).
      { change (2 ^ 24) with 16777216. lia. }
      apply Z.pow_lt_mono_r_iff in H; lia. }
    destruct (Z.max (Zdigits2 m1 + e' - 24) (-149) - e') as [|n|n] eqn:Hn;
      [| lia |]; rewrite shr_record_of_loc_m;
      (destruct m1 as [|p|p]; [|change (F32.emax - F32.prec) with 104;
         destruct (Z.leb_spec e' 104) as [_|]; [|lia] | lia]);
      (split; [cbn [canonical_nonneg]; change (2 ^ 24) with 16777216;
               change (2 ^ 23) with 8388608; try exact I; lia
              | cbn [F2Q]; ring]).
Qed.

Lemma pow2_succ (e : Z) : (pow2 (e + 1) == 2 * pow2 e)%Q.
Proof. rewrite pow2_add. change (pow2 1) with 2%Q. ring. Qed.

Lemma inject_Z_le (a b : Z) : a <= b -> (inject_Z a <= inject_Z b)%Q.
Proof. intros H. rewrite <- Zle_Qle. exact H. Qed.

(** The rounding is monotone in the value it rounds. *)
Lemma binary_round_aux_mono (ma ea mb eb : Z) (la lb : location) (xa xb : Q) :
  round_ready ma ea -> round_ready mb eb ->
  located ma la xa -> located mb lb xb ->
  (xa * pow2 ea <= xb * pow2 eb)%Q ->
  (F2Q (binary_round_aux F32.prec F32.emax false ma ea la)
   <= F2Q (binary_round_aux F32.prec F32.emax false mb eb lb))%Q.
Proof.
  intros Ra Rb La Lb Hv.
  destruct (binary_round_aux_spec ma ea la xa Ra La) as [_ ->].
  destruct (binary_round_aux_spec mb eb lb xb Rb Lb) as [_ ->].
  destruct (shr_fexp_spec ma ea la xa Ra La) as (Ea & La' & Ma & Na & Ga).
  destruct (shr_fexp_spec mb eb lb xb Rb Lb) as (Eb & Lb' & Mb & Nb & Gb).
  unfold round_mantissa.
  destruct (shr_fexp F32.prec F32.emax ma ea la) as [mrsa ea'].
  destruct (shr_fexp F32.prec F32.emax mb eb lb) as [mrsb eb'].
  cbn [fst snd] in *. rewrite <- Ea, <- Eb. clear Ea Eb.
  assert (Ba := located_bounds _ _ _ La'). assert (Bb := located_bounds _ _ _ Lb').
  assert (Ha := round_nearest_even_bounds (shr_m mrsa) (loc_of_shr_record mrsa)).
  assert (Hb := round_nearest_even_bounds (shr_m mrsb) (loc_of_shr_record mrsb)).
  assert (Va : (xa * pow2 ea == xa * pow2 (ea - ea') * pow2 ea')%Q).
  { rewrite pow2_shift. replace (ea - ea' + ea') with ea by lia. reflexivity. }
  assert (Vb : (xb * pow2 eb == xb * pow2 (eb - eb') * pow2 eb')%Q).
  { rewrite pow2_shift. replace (eb - eb' + eb') with eb by lia. reflexivity. }
  rewrite Va, Vb in Hv.
  set (xa' := (xa * pow2 (ea - ea'))%Q) in *. set (xb' := (xb * pow2 (eb - eb'))%Q) in *.
  clearbody xa' xb'.
  assert (Pa := pow2_pos ea'). assert (Pb := pow2_pos eb').
  change (2 ^ 24) with 16777216 in *. change (2 ^ 23) with 8388608 in *.
  assert (Ia : (inject_Z (shr_m mrsa) + 1 <= 16777216)%Q).
  { change 16777216%Q with (inject_Z 16777216). change 1%Q with (inject_Z 1).
    rewrite <- inject_Z_plus. apply inject_Z_le. lia. }
  assert (Ib : (inject_Z (shr_m mrsb) + 1 <= 16777216)%Q).
  { change 16777216%Q with (inject_Z 16777216). change 1%Q with (inject_Z 1).
    rewrite <- inject_Z_plus. apply inject_Z_le. lia. }
  set (m1a := round_nearest_even (shr_m mrsa) (loc_of_shr_record mrsa)) in *.
  set (m1b := round_nearest_even (shr_m mrsb) (loc_of_shr_record mrsb)) in *.
  assert (Ja : (inject_Z m1a <= inject_Z (shr_m mrsa) + 1)%Q).
  { change 1%Q with (inject_Z 1). rewrite <- inject_Z_plus. apply inject_Z_le. lia. }
  assert (Jb : (inject_Z (shr_m mrsb) <= inject_Z m1b)%Q) by (apply inject_Z_le; lia).
  destruct (Z.lt_trichotomy ea' eb') as [L|[E|L]].
  - assert (Hn : (8388608 <= inject_Z (shr_m mrsb))%Q).
    { change 8388608%Q with (inject_Z 8388608). apply inject_Z_le. apply Nb. lia. }
    assert (Hp : (2 * pow2 ea' <= pow2 eb')%Q).
    { rewrite <- pow2_succ. apply pow2_le. lia. }
    apply Qle_trans with (16777216 * pow2 ea')%Q.
    { apply Qmult_le_compat_r; lra. }
    apply Qle_trans with (8388608 * pow2 eb')%Q; [lra|].
    apply Qmult_le_compat_r; lra.
  - subst eb'.
    assert (Hx : (xa' <= xb')%Q).
    { apply Qmult_le_r with (pow2 ea'); assumption. }
    apply Qmult_le_compat_r; [|lra].
    apply inject_Z_le. unfold m1a, m1b.
    apply (round_nearest_even_mono _ _ _ _ xa' xb'); assumption.
  - exfalso.
    assert (Hn : (8388608 <= inject_Z (shr_m mrsa))%Q).
    { change 8388608%Q with (inject_Z 8388608). apply inject_Z_le. apply Na. lia. }
    assert (Hp : (2 * pow2 eb' <= pow2 ea')%Q).
    { rewrite <- pow2_succ. apply pow2_le. lia. }
    assert (H1 : (8388608 * pow2 ea' <= xa' * pow2 ea')%Q).
    { apply Qmult_le_compat_r; lra. }
    assert (H2 : (xb' * pow2 eb' < 16777216 * pow2 eb')%Q).
    { apply Qmult_lt_compat_r; lra. }
    lra.
Qed.

(** On canonical numbers the comparison of single-precision values is the
    comparison of the rationals they stand for. *)
Lemma leb_of_values (a b : float) :
  canonical_nonneg a -> canonical_nonneg b ->
  (F2Q a <= F2Q b)%Q -> F32.leb a b = true.
Proof.
  destruct a as [[|]| | |[|] ma ea]; cbn [canonical_nonneg]; try contradiction;
    destruct b as [[|]| | |[|] mb eb]; cbn [canonical_nonneg]; try contradiction;
    intros Ca Cb Hv; try reflexivity.
  - exfalso. cbn [F2Q] in Hv.
    assert (H : (0 < inject_Z (Z.pos ma) * pow2 ea)%Q).
    { apply Qmult_lt_0_compat; [|apply pow2_pos].
      change 0%Q with (inject_Z 0). rewrite <- Zlt_Qlt. lia. }
    lra.
  - cbn [F2Q] in Hv. rewrite !Qmult_1_l in Hv.
    unfold F32.leb, SFleb, SFcompare.
    change (2 ^ 24) with 16777216 in *. change (2 ^ 23) with 8388608 in *.
    assert (Pa := pow2_pos ea). assert (Pb := pow2_pos eb).
    destruct (Z.compare_spec ea eb) as [E|L|L]; [|reflexivity|].
    + subst eb.
      assert (H : (inject_Z (Z.pos ma) <= inject_Z (Z.pos mb))%Q).
      { apply Qmult_le_r with (pow2 ea); assumption. }
      rewrite <- Zle_Qle in H.
      rewrite Pos.compare_cont_spec. cbn [Pos.switch_Eq].
      destruct (Pos.compare_spec ma mb); try reflexivity. lia.
    + exfalso.
      assert (Hn : (8388608 <= inject_Z (Z.pos ma))%Q).
      { change 8388608%Q with (inject_Z 8388608). apply inject_Z_le. lia. }
      assert (Hu : (inject_Z (Z.pos mb) <= 16777216)%Q).
      { change 16777216%Q with (inject_Z 16777216). apply inject_Z_le. lia. }
      assert (Hp : (2 * pow2 eb <= pow2 ea)%Q).
      { rewrite <- pow2_succ. apply pow2_le. lia. }
      assert (H1 : (8388608 * pow2 ea <= inject_Z (Z.pos ma) * pow2 ea)%Q).
      { apply Qmult_le_compat_r; lra. }
      assert (H2 : (inject_Z (Z.pos mb) * pow2 eb <= 16777216 * pow2 eb)%Q).
      { apply Qmult_le_compat_r; lra. }
      assert (Hm : Z.pos mb < 16777216) by lia.
      assert (H3 : (inject_Z (Z.pos mb) * pow2 eb < 16777216 * pow2 eb)%Q).
      { apply Qmult_lt_compat_r; [lra|].
        change 16777216%Q with (inject_Z 16777216). rewrite <- Zlt_Qlt. lia. }
      lra.
Qed.

(** ** Single precision: conversions and subtraction *)

Lemma pos_iter_xO (m d : positive) : Z.pos (Pos.iter xO m d) = Z.pos m * 2 ^ Z.pos d.
Proof.
  induction d as [|d IH] using Pos.peano_ind.
  - simpl. lia.
  - rewrite Pos.iter_succ, Pos2Z.inj_xO, IH, Pos2Z.inj_succ, Z.pow_succ_r by lia. lia.
Qed.

Lemma digits_iter_xO (m d : positive) :
  Z.pos (digits2_pos (Pos.iter xO m d)) = Z.pos (digits2_pos m) + Z.pos d.
Proof.
  induction d as [|d IH] using Pos.peano_ind.
  - simpl. lia.
  - rewrite Pos.iter_succ. cbn [digits2_pos]. rewrite Pos2Z.inj_succ, IH. lia.
Qed.

Lemma F2Q_nonneg (x : float) : canonical_nonneg x -> (0 <= F2Q x)%Q.
Proof.
  destruct x as [[|]| | |[|] m e]; cbn [canonical_nonneg F2Q]; try contradiction;
    intros _; try lra.
  rewrite Qmult_1_l. apply Qmult_le_0_compat.
  - change 0%Q with (inject_Z 0). apply inject_Z_le. lia.
  - apply Qlt_le_weak, pow2_pos.
Qed.

Lemma Zdigits2_le (m k : Z) : 0 <= m < 2 ^ k -> 0 <= k -> Zdigits2 m <= k.
Proof.
  intros [Hm Hk] Hk0. destruct (Zdigits2_bounds m Hm) as (Hd0 & _ & Hdl).
  destruct (Z.eq_dec m 0) as [->|Hne]; [simpl; lia|].
  assert (H : 2 ^ (Zdigits2 m - 1) < 2 ^ k) by lia.
  apply Z.pow_lt_mono_r_iff in H; lia.
Qed.

(** The left shift before the rounding keeps the value and makes the pair
    ready. *)
Lemma shl_align_ready (m : positive) (e : Z) :
  Zdigits2 (Z.pos m) + e <= 127 ->
  let mz := fst (shl_align m e (fexp F32.prec F32.emax (Z.pos (digits2_pos m) + e))) in
  let ez := snd (shl_align m e (fexp F32.prec F32.emax (Z.pos (digits2_pos m) + e))) in
  round_ready (Z.pos mz) ez
  /\ (inject_Z (Z.pos mz) * pow2 ez == inject_Z (Z.pos m) * pow2 e)%Q.
Proof.
  intros Hg. unfold shl_align, round_ready. rewrite fexp32.
  change (Zdigits2 (Z.pos m)) with (Z.pos (digits2_pos m)) in Hg.
  set (d := Z.pos (digits2_pos m)) in *.
  destruct (Z.max (d + e - 24) (-149) - e) as [|n|n] eqn:Hn; cbn [fst snd].
  - split; [|reflexivity]. rewrite fexp32.
    change (Zdigits2 (Z.pos m)) with d. lia.
  - split; [|reflexivity]. rewrite fexp32.
    change (Zdigits2 (Z.pos m)) with d. lia.
  - split.
    + rewrite fexp32.
      change (Zdigits2 (Z.pos (Pos.iter xO m n))) with (Z.pos (digits2_pos (Pos.iter xO m n))).
      rewrite digits_iter_xO. fold d. lia.
    + rewrite pos_iter_xO, inject_Z_mult, pow2_Z by lia.
      rewrite <- Qmult_assoc, <- pow2_add.
      replace (Z.pos n + Z.max (d + e - 24) (-149)) with e by lia. reflexivity.
Qed.

(** [binary_normalize] on a nonnegative integer mantissa: the result is
    canonical, and monotone in the value [m * 2^e]. *)
Lemma normalize_canonical (m e : Z) :
  0 <= m -> Zdigits2 m + e <= 127 ->
  canonical_nonneg (binary_normalize F32.prec F32.emax m e false).
Proof.
  intros Hm Hg. destruct m as [|m|m]; [exact I| |lia].
  cbn [binary_normalize]. unfold binary_round.
  destruct (shl_align_ready m e Hg) as [Hr _].
  destruct (shl_align m e _) as [mz ez]. cbn [fst snd] in Hr.
  apply (binary_round_aux_spec (Z.pos mz) ez loc_Exact (inject_Z (Z.pos mz)) Hr).
  reflexivity.
Qed.

Lemma normalize_mono (ma ea mb eb : Z) :
  0 <= ma -> Zdigits2 ma + ea <= 127 ->
  0 <= mb -> Zdigits2 mb + eb <= 127 ->
  (inject_Z ma * pow2 ea <= inject_Z mb * pow2 eb)%Q ->
  (F2Q (binary_normalize F32.prec F32.emax ma ea false)
   <= F2Q (binary_normalize F32.prec F32.emax mb eb false))%Q.
Proof.
  intros Hma Hga Hmb Hgb Hv.
  destruct ma as [|ma|ma]; [|clear Hma|lia].
  { apply F2Q_nonneg. apply normalize_canonical; assumption. }
  destruct mb as [|mb|mb]; [|clear Hmb|lia].
  { exfalso. assert (H : (0 < inject_Z (Z.pos ma) * pow2 ea)%Q).
    { apply Qmult_lt_0_compat; [|apply pow2_pos].
      change 0%Q with (inject_Z 0). rewrite <- Zlt_Qlt. lia. }
    change (inject_Z 0) with 0%Q in Hv. lra. }
  cbn [binary_normalize]. unfold binary_round.
  destruct (shl_align_ready ma ea Hga) as [Hra Hva].
  destruct (shl_align_ready mb eb Hgb) as [Hrb Hvb].
  destruct (shl_align ma ea _) as [mza eza]. destruct (shl_align mb eb _) as [mzb ezb].
  cbn [fst snd] in *.
  apply (binary_round_aux_mono _ _ _ _ _ _ (inject_Z (Z.pos mza)) (inject_Z (Z.pos mzb)));
    try assumption; try reflexivity.
  rewrite Hva, Hvb. exact Hv.
Qed.

Lemma F2Q_one : (F2Q F32.one == 1)%Q.
Proof. vm_compute. reflexivity. Qed.

Lemma one_canonical : canonical_nonneg F32.one.
Proof. cbn. change (2 ^ 24) with 16777216. change (2 ^ 23) with 8388608. lia. Qed.

Lemma of_Z_canonical (z : Z) : 0 <= z < 2 ^ 32 -> canonical_nonneg (F32.of_Z z).
Proof.
  intros Hz. apply normalize_canonical; [lia|].
  assert (H := Zdigits2_le z 32 Hz). lia.
Qed.

Lemma of_Z_mono (a b : Z) :
  0 <= a <= b -> b < 2 ^ 32 -> (F2Q (F32.of_Z a) <= F2Q (F32.of_Z b))%Q.
Proof.
  intros Hab Hb.
  assert (Ha := Zdigits2_le a 32). assert (Hb' := Zdigits2_le b 32).
  apply normalize_mono; try lia.
  rewrite pow2_0, !Qmult_1_r. apply inject_Z_le. lia.
Qed.

(** A canonical number that is at most 1 has an exponent of at most -23. *)
Lemma canonical_le_one_exponent (m : positive) (e : Z) :
  canonical_nonneg (S754_finite false m e) ->
  (F2Q (S754_finite false m e) <= 1)%Q ->
  e <= -23.
Proof.
  cbn [canonical_nonneg F2Q]. change (2 ^ 23) with 8388608. intros (He & Hm & Hn) Hv.
  destruct (Z_le_gt_dec e (-23)) as [|Hgt]; [assumption|exfalso].
  assert (H1 : (8388608 <= inject_Z (Z.pos m))%Q).
  { change 8388608%Q with (inject_Z 8388608). apply inject_Z_le. apply Hn. lia. }
  assert (H2 : (pow2 (-22) <= pow2 e)%Q) by (apply pow2_le; lia).
  assert (H3 : (pow2 (-22) == 1 # 4194304)%Q) by reflexivity.
  assert (P := pow2_pos e).
  assert (H4 : (8388608 * pow2 e <= inject_Z (Z.pos m) * pow2 e)%Q).
  { apply Qmult_le_compat_r; lra. }
  rewrite Qmult_1_l in Hv. lra.
Qed.

(** [1.0f - x] for a canonical [x] of at most 1 is the normalisation of an
    integer mantissa that carries the exact difference. *)
Lemma sub_one_normalize (x : float) :
  canonical_nonneg x -> (F2Q x <= 1)%Q ->
  exists M e,
    0 <= M
    /\ Zdigits2 M + e <= 127
    /\ (inject_Z M * pow2 e == 1 - F2Q x)%Q
    /\ (F32.one - x)%f32 = binary_normalize F32.prec F32.emax M e false.
Proof.
  intros Hc Hv. destruct x as [[|]| | |[|] m e]; cbn [canonical_nonneg] in Hc;
    try contradiction.
  - exists 8388608, (-23).
    repeat split; try (simpl; lia); try (vm_compute; reflexivity).
  - assert (He := canonical_le_one_exponent m e Hc Hv).
    cbn [canonical_nonneg] in Hc. destruct Hc as (Hr & Hm & Hn).
    assert (Hone : Z.pos (fst (shl_align 8388608 (-23) e)) = 2 ^ (- e)).
    { unfold shl_align. destruct (e - -23) as [|n|n] eqn:Hd; cbn [fst]; [|lia|].
      - assert (e = -23) as -> by lia. reflexivity.
      - rewrite pos_iter_xO. change 8388608 with (2 ^ 23).
        rewrite <- pow2_split by lia. f_equal. lia. }
    assert (Hself : fst (shl_align m e e) = m).
    { unfold shl_align. rewrite Z.sub_diag. reflexivity. }
    assert (Hp : 0 < 2 ^ (- e)) by (apply Z.pow_pos_nonneg; lia).
    assert (Hq : (inject_Z (2 ^ (- e)) * pow2 e == 1)%Q).
    { rewrite pow2_Z by lia. rewrite <- pow2_add.
      replace (- e + e) with 0 by lia. reflexivity. }
    assert (Hle : Z.pos m <= 2 ^ (- e)).
    { cbn [F2Q] in Hv. rewrite Qmult_1_l in Hv.
      assert (P := pow2_pos e).
      assert (H : (inject_Z (Z.pos m) * pow2 e <= inject_Z (2 ^ (- e)) * pow2 e)%Q) by lra.
      apply Qmult_le_r in H; [|exact P]. rewrite <- Zle_Qle in H. exact H. }
    exists (2 ^ (- e) - Z.pos m), e. split; [lia|]. split.
    { assert (H := Zdigits2_le (2 ^ (- e) - Z.pos m) (- e)). lia. }
    split.
    { unfold Z.sub at 1. rewrite inject_Z_plus, inject_Z_opp. cbn [F2Q].
      rewrite Qmult_1_l. rewrite <- Hq. ring. }
    unfold F32.sub, F32.one, SFsub. cbv zeta. cbn [cond_Zopp].
    replace (Z.min (-23) e) with e by lia.
    rewrite Hone, Hself. reflexivity.
Qed.

Lemma sub_one_canonical (x : float) :
  canonical_nonneg x -> (F2Q x <= 1)%Q -> canonical_nonneg (F32.one - x)%f32.
Proof.
  intros Hc Hv. destruct (sub_one_normalize x Hc Hv) as (M & e & HM & Hg & _ & ->).
  apply normalize_canonical; assumption.
Qed.

(** [x |-> 1.0f - x] is antitone on the canonical numbers from 0 to 1. *)
Lemma sub_one_antitone (x y : float) :
  canonical_nonneg x -> canonical_nonneg y ->
  (F2Q x <= F2Q y)%Q -> (F2Q y <= 1)%Q ->
  (F2Q (F32.one - y)%f32 <= F2Q (F32.one - x)%f32)%Q.
Proof.
  intros Hx Hy Hxy Hy1.
  assert (Hx1 : (F2Q x <= 1)%Q) by lra.
  destruct (sub_one_normalize x Hx Hx1) as (Mx & ex & HMx & Hgx & Hvx & ->).
  destruct (sub_one_normalize y Hy Hy1) as (My & ey & HMy & Hgy & Hvy & ->).
  apply normalize_mono; try assumption. rewrite Hvx, Hvy. lra.
Qed.

Lemma sub_one_le_one (x : float) :
  canonical_nonneg x -> (F2Q x <= 1)%Q -> (F2Q (F32.one - x)%f32 <= 1)%Q.
Proof.
  intros Hx Hx1.
  assert (H := sub_one_antitone F32.zero x I Hx (F2Q_nonneg x Hx) Hx1).
  change (F32.one - F32.zero)%f32 with F32.one in H. rewrite F2Q_one in H. exact H.
Qed.

(** ** Single precision: squares *)

Lemma mul_self_ready (m : positive) (e : Z) :
  canonical_nonneg (S754_finite false m e) ->
  e <= -23 ->
  round_ready (Z.pos (m * m)) (e + e).
Proof.
  cbn [canonical_nonneg]. change (2 ^ 24) with 16777216. change (2 ^ 23) with 8388608.
  intros (He & Hm & Hn) He1. unfold round_ready. rewrite fexp32, Pos2Z.inj_mul.
  assert (Hsq : 0 <= Z.pos m * Z.pos m < 2 ^ 48).
  { change (2 ^ 48) with (16777216 * 16777216). nia. }
  assert (Hd := Zdigits2_le _ 48 Hsq).
  destruct (Zdigits2_bounds (Z.pos m * Z.pos m)) as (Hd0 & Hu & _); [lia|].
  split; [lia|]. split; [|lia].
  destruct (Z.eq_dec e (-149)) as [->|Hne]; [lia|].
  assert (H23 : 8388608 <= Z.pos m) by (apply Hn; lia).
  assert (H46 : 2 ^ 46 < 2 ^ Zdigits2 (Z.pos m * Z.pos m)).
  { change (2 ^ 46) with (8388608 * 8388608). nia. }
  apply Z.pow_lt_mono_r_iff in H46; lia.
Qed.

Lemma mul_self_value (m : positive) (e : Z) :
  (inject_Z (Z.pos (m * m)) * pow2 (e + e)
   == F2Q (S754_finite false m e) * F2Q (S754_finite false m e))%Q.
Proof. cbn [F2Q]. rewrite Pos2Z.inj_mul, inject_Z_mult, pow2_add. ring. Qed.

Lemma mul_self_canonical (x : float) :
  canonical_nonneg x -> (F2Q x <= 1)%Q -> canonical_nonneg (pow2f x).
Proof.
  intros Hc Hv. destruct x as [[|]| | |[|] m e]; cbn [canonical_nonneg] in Hc;
    try contradiction; [exact I|].
  assert (He := canonical_le_one_exponent m e Hc Hv).
  unfold pow2f, F32.mul, SFmul. cbn [xorb].
  apply (binary_round_aux_spec _ _ loc_Exact (inject_Z (Z.pos (m * m)))).
  - apply mul_self_ready; assumption.
  - reflexivity.
Qed.

(** Squaring is monotone on the canonical numbers from 0 to 1. *)
Lemma mul_self_mono (x y : float) :
  canonical_nonneg x -> canonical_nonneg y ->
  (F2Q x <= F2Q y)%Q -> (F2Q y <= 1)%Q ->
  (F2Q (pow2f x) <= F2Q (pow2f y))%Q.
Proof.
  intros Hx Hy Hxy Hy1.
  assert (Hx1 : (F2Q x <= 1)%Q) by lra.
  assert (Hx0 := F2Q_nonneg x Hx).
  destruct x as [[|]| | |[|] mx ex]; cbn [canonical_nonneg] in Hx; try contradiction.
  { apply (F2Q_nonneg (pow2f y)). apply mul_self_canonical; assumption. }
  destruct y as [[|]| | |[|] my ey]; cbn [canonical_nonneg] in Hy; try contradiction.
  { exfalso. cbn [F2Q] in Hxy. rewrite Qmult_1_l in Hxy.
    assert (H : (0 < inject_Z (Z.pos mx) * pow2 ex)%Q).
    { apply Qmult_lt_0_compat; [|apply pow2_pos].
      change 0%Q with (inject_Z 0). rewrite <- Zlt_Qlt. lia. }
    lra. }
  assert (Hex := canonical_le_one_exponent mx ex Hx Hx1).
  assert (Hey := canonical_le_one_exponent my ey Hy Hy1).
  unfold pow2f, F32.mul, SFmul. cbn [xorb].
  apply (binary_round_aux_mono _ _ _ _ _ _
           (inject_Z (Z.pos (mx * mx))) (inject_Z (Z.pos (my * my))));
    try (apply mul_self_ready; assumption); try reflexivity.
  rewrite !mul_self_value. nra.
Qed.

Lemma mul_self_le_one (x : float) :
  canonical_nonneg x -> (F2Q x <= 1)%Q -> (F2Q (pow2f x) <= 1)%Q.
Proof.
  intros Hx Hx1.
  assert (H := mul_self_mono x F32.one Hx one_canonical).
  rewrite F2Q_one in H. specialize (H Hx1 ltac:(lra)).
  change (pow2f F32.one) with F32.one in H. rewrite F2Q_one in H. exact H.
Qed.

(** ** Single precision: division *)

(** The location computed from a remainder is that of the quotient. *)
Lemma new_location_located (n q r : Z) :
  0 < n -> 0 <= r < n ->
  located q (new_location n r) (inject_Z (n * q + r) / inject_Z n).
Proof.
  intros Hn Hr.
  assert (HN : (0 < inject_Z n)%Q).
  { change 0%Q with (inject_Z 0). rewrite <- Zlt_Qlt. exact Hn. }
  assert (HX : (inject_Z (n * q + r) / inject_Z n == inject_Z q + inject_Z r / inject_Z n)%Q).
  { rewrite inject_Z_plus, inject_Z_mult. field. lra. }
  apply (located_respects _ _ _ _ (Qeq_sym _ _ HX)).
  assert (Hlt : forall a b : Z, a < b -> (inject_Z a / inject_Z n < inject_Z b / inject_Z n)%Q).
  { intros a b Hab. apply Qmult_lt_compat_r; [apply Qinv_lt_0_compat; exact HN|].
    rewrite <- Zlt_Qlt. exact Hab. }
  assert (H0 : (inject_Z 0 / inject_Z n == 0)%Q) by (field; lra).
  assert (H1 : (inject_Z n / inject_Z n == 1)%Q) by (field; lra).
  assert (Hhalf : forall a : Z, 2 * a < n -> (inject_Z a / inject_Z n < 1 # 2)%Q).
  { intros a Ha. assert (H := Hlt (2 * a) n Ha).
    rewrite inject_Z_mult, H1 in H. change (inject_Z 2) with 2%Q in H.
    assert (E : (2 * inject_Z a / inject_Z n == 2 * (inject_Z a / inject_Z n))%Q)
      by (field; lra).
    rewrite E in H. lra. }
  assert (Hhalf' : forall a : Z, n < 2 * a -> (1 # 2 < inject_Z a / inject_Z n)%Q).
  { intros a Ha. assert (H := Hlt n (2 * a) Ha).
    rewrite inject_Z_mult, H1 in H. change (inject_Z 2) with 2%Q in H.
    assert (E : (2 * inject_Z a / inject_Z n == 2 * (inject_Z a / inject_Z n))%Q)
      by (field; lra).
    rewrite E in H. lra. }
  assert (Hmid : 2 * r = n -> (inject_Z r / inject_Z n == 1 # 2)%Q).
  { intros E. rewrite <- E, inject_Z_mult. change (inject_Z 2) with 2%Q. field.
    intros Hz. rewrite <- E, inject_Z_mult in HN. change (inject_Z 2) with 2%Q in HN. lra. }
  assert (Hpos : r <> 0 -> (0 < inject_Z r / inject_Z n)%Q).
  { intros Hne. rewrite <- H0. apply Hlt. lia. }
  assert (Hone : (inject_Z r / inject_Z n < 1)%Q).
  { rewrite <- H1. apply Hlt. lia. }
  unfold new_location, new_location_even, new_location_odd.
  destruct (Z.even n) eqn:Hev; destruct (Z.eqb_spec r 0) as [->|Hne];
    cbn [located]; try (rewrite H0; ring).
  - destruct (Z.compare_spec (2 * r) n) as [E|L|L]; cbn [located].
    + rewrite (Hmid E). reflexivity.
    + assert (A := Hhalf r L). assert (B := Hpos Hne). lra.
    + assert (A := Hhalf' r L). lra.
  - assert (Hodd : 2 * r <> n).
    { intros E. rewrite <- E, Z.even_mul in Hev. discriminate. }
    destruct (Z.compare_spec (2 * r + 1) n) as [E|L|L]; cbn [located].
    + assert (A := Hhalf r ltac:(lia)). assert (B := Hpos Hne). lra.
    + assert (A := Hhalf r ltac:(lia)). assert (B := Hpos Hne). lra.
    + assert (A := Hhalf' r ltac:(lia)). lra.
Qed.

(** The quotient, exponent and location the division hands to the
    rounding: ready, and located at the exact quotient of the operands. *)
Lemma div_core_spec (mx my : positive) (ex ey : Z) :
  Z.pos (digits2_pos mx) + ex - ey <= 127 ->
  let q := fst (fst (SFdiv_core_binary F32.prec F32.emax (Z.pos mx) ex (Z.pos my) ey)) in
  let e' := snd (fst (SFdiv_core_binary F32.prec F32.emax (Z.pos mx) ex (Z.pos my) ey)) in
  let l := snd (SFdiv_core_binary F32.prec F32.emax (Z.pos mx) ex (Z.pos my) ey) in
  round_ready q e'
  /\ exists X, located q l X
               /\ (X * pow2 e'
                   == inject_Z (Z.pos mx) * pow2 ex / (inject_Z (Z.pos my) * pow2 ey))%Q.
Proof.
  intros Hg. unfold SFdiv_core_binary. rewrite fexp32.
  change (Zdigits2 (Z.pos mx)) with (Z.pos (digits2_pos mx)).
  change (Zdigits2 (Z.pos my)) with (Z.pos (digits2_pos my)).
  assert (Bx := Zdigits2_pos_bounds mx). assert (By := Zdigits2_pos_bounds my).
  set (d1 := Z.pos (digits2_pos mx)) in *. set (d2 := Z.pos (digits2_pos my)) in *.
  set (g := d1 + ex - (d2 + ey)).
  set (e' := Z.min (Z.max (g - 24) (-149)) (ex - ey)).
  set (s := ex - ey - e').
  assert (Hs : 0 <= s) by (unfold s, e'; lia).
  assert (Hp : 0 < 2 ^ s) by (apply Z.pow_pos_nonneg; lia).
  assert (Hm' : match s with
                | Z.pos _ => Z.shiftl (Z.pos mx) s
                | 0 => Z.pos mx
                | Z.neg _ => 0
                end = Z.pos mx * 2 ^ s).
  { destruct s as [|p|p] eqn:Es; [simpl; lia| |lia].
    apply Z.shiftl_mul_pow2. lia. }
  rewrite Hm'. clear Hm'.
  assert (Hdiv := Z_div_mod (Z.pos mx * 2 ^ s) (Z.pos my) ltac:(lia)).
  destruct (Z.div_eucl (Z.pos mx * 2 ^ s) (Z.pos my)) as [q r].
  destruct Hdiv as [Hqr Hr]. cbn [fst snd].
  assert (Hq0 : 0 <= q) by nia.
  assert (Hqle : q <= Z.pos mx * 2 ^ s) by nia.
  assert (Hd1 : 0 < d1) by (unfold d1; lia).
  assert (Hd2 : 0 < d2) by (unfold d2; lia).
  split; [unfold round_ready; split; [exact Hq0|split]|].
  - rewrite fexp32. destruct (Z_le_gt_dec e' (-149)) as [|Hgt]; [lia|].
    assert (Hs24 : d2 + 23 <= d1 - 1 + s) by (unfold s, e', g in *; lia).
    assert (H1 : 2 ^ (d2 + 23) <= 2 ^ (d1 - 1 + s)) by (apply Z.pow_le_mono_r; lia).
    rewrite !pow2_split in H1 by lia.
    assert (H2 : 2 ^ 23 <= q).
    { change (2 ^ 23) with 8388608 in *. nia. }
    destruct (Zdigits2_bounds q Hq0) as (Hdq0 & Hdqu & _).
    assert (H3 : 2 ^ 23 < 2 ^ Zdigits2 q) by lia.
    apply Z.pow_lt_mono_r_iff in H3; lia.
  - assert (H1 : 0 <= q < 2 ^ (d1 + s)).
    { rewrite pow2_split by lia. nia. }
    assert (H2 := Zdigits2_le q (d1 + s) H1). unfold s in *. lia.
  - exists (inject_Z (Z.pos my * q + r) / inject_Z (Z.pos my))%Q. split.
    + apply new_location_located; lia.
    + rewrite <- Hqr, inject_Z_mult, pow2_Z by lia.
      assert (E : (pow2 ex == pow2 s * pow2 e' * pow2 ey)%Q).
      { rewrite <- !pow2_add. replace (s + e' + ey) with ex by (unfold s; lia).
        reflexivity. }
      rewrite E.
      assert (Py := pow2_pos ey).
      assert (HY : (0 < inject_Z (Z.pos my))%Q).
      { change 0%Q with (inject_Z 0). rewrite <- Zlt_Qlt. lia. }
      field. split; lra.
Qed.

Lemma F2Q_finite_pos (m : positive) (e : Z) : (0 < F2Q (S754_finite false m e))%Q.
Proof.
  cbn [F2Q]. rewrite Qmult_1_l. apply Qmult_lt_0_compat; [|apply pow2_pos].
  change 0%Q with (inject_Z 0). rewrite <- Zlt_Qlt. lia.
Qed.

Lemma div_canonical (x : float) (my : positive) (ey : Z) :
  canonical_nonneg x ->
  (forall mx ex, x = S754_finite false mx ex -> Z.pos (digits2_pos mx) + ex - ey <= 127) ->
  canonical_nonneg (x / S754_finite false my ey)%f32.
Proof.
  intros Hx Hg. destruct x as [[|]| | |[|] mx ex]; cbn [canonical_nonneg] in Hx;
    try contradiction; [exact I|].
  destruct (div_core_spec mx my ex ey (Hg mx ex eq_refl)) as (Hr & X & HX & _).
  unfold F32.div, SFdiv. cbn [xorb].
  destruct (SFdiv_core_binary _ _ _ _ _ _) as [[q e'] l]. cbn [fst snd] in *.
  apply (binary_round_aux_spec q e' l X Hr HX).
Qed.

(** Division by a fixed positive number is monotone in the numerator. *)
Lemma div_mono (xa xb : float) (my : positive) (ey : Z) :
  canonical_nonneg xa -> canonical_nonneg xb ->
  (forall mx ex, xa = S754_finite false mx ex -> Z.pos (digits2_pos mx) + ex - ey <= 127) ->
  (forall mx ex, xb = S754_finite false mx ex -> Z.pos (digits2_pos mx) + ex - ey <= 127) ->
  (F2Q xa <= F2Q xb)%Q ->
  (F2Q (xa / S754_finite false my ey)%f32 <= F2Q (xb / S754_finite false my ey)%f32)%Q.
Proof.
  intros Ha Hb Hga Hgb Hv.
  destruct xa as [[|]| | |[|] ma ea]; cbn [canonical_nonneg] in Ha; try contradiction.
  { apply (F2Q_nonneg (xb / S754_finite false my ey)%f32).
    apply div_canonical; assumption. }
  destruct xb as [[|]| | |[|] mb eb]; cbn [canonical_nonneg] in Hb; try contradiction.
  { exfalso. assert (H := F2Q_finite_pos ma ea).
    change (F2Q (S754_zero false)) with 0%Q in Hv. lra. }
  destruct (div_core_spec ma my ea ey (Hga ma ea eq_refl)) as (Hra & Xa & HXa & Va).
  destruct (div_core_spec mb my eb ey (Hgb mb eb eq_refl)) as (Hrb & Xb & HXb & Vb).
  unfold F32.div, SFdiv. cbn [xorb].
  destruct (SFdiv_core_binary _ _ (Z.pos ma) _ _ _) as [[qa ea'] la].
  destruct (SFdiv_core_binary _ _ (Z.pos mb) _ _ _) as [[qb eb'] lb].
  cbn [fst snd] in *.
  apply (binary_round_aux_mono _ _ _ _ _ _ Xa Xb); try assumption.
  rewrite Va, Vb. cbn [F2Q] in Hv. rewrite !Qmult_1_l in Hv.
  assert (HY : (0 < inject_Z (Z.pos my) * pow2 ey)%Q).
  { assert (H := F2Q_finite_pos my ey). cbn [F2Q] in H. rewrite Qmult_1_l in H. exact H. }
  apply Qmult_le_compat_r; [exact Hv|].
  apply Qlt_le_weak, Qinv_lt_0_compat, HY.
Qed.

(** A quotient of a numerator that does not exceed the denominator is at
    most 1. *)
Lemma div_le_one (x : float) (my : positive) (ey : Z) :
  canonical_nonneg x ->
  (forall mx ex, x = S754_finite false mx ex -> Z.pos (digits2_pos mx) + ex - ey <= 127) ->
  (F2Q x <= F2Q (S754_finite false my ey))%Q ->
  (F2Q (x / S754_finite false my ey)%f32 <= 1)%Q.
Proof.
  intros Hx Hg Hv.
  destruct x as [[|]| | |[|] mx ex]; cbn [canonical_nonneg] in Hx; try contradiction.
  { change (F2Q (S754_zero false / S754_finite false my ey)%f32) with 0%Q. lra. }
  destruct (div_core_spec mx my ex ey (Hg mx ex eq_refl)) as (Hr & X & HX & V).
  unfold F32.div, SFdiv. cbn [xorb].
  destruct (SFdiv_core_binary _ _ _ _ _ _) as [[q e'] l]. cbn [fst snd] in *.
  rewrite <- F2Q_one.
  change F32.one with (binary_round_aux F32.prec F32.emax false 8388608 (-23) loc_Exact).
  apply (binary_round_aux_mono _ _ _ _ _ _ X (inject_Z 8388608)); try assumption.
  - unfold round_ready. rewrite fexp32. simpl. lia.
  - reflexivity.
  - rewrite V.
    assert (E : (inject_Z 8388608 * pow2 (-23) == 1)%Q) by reflexivity.
    rewrite E. cbn [F2Q] in Hv. rewrite !Qmult_1_l in Hv.
    assert (HY : (0 < inject_Z (Z.pos my) * pow2 ey)%Q).
    { assert (H := F2Q_finite_pos my ey). cbn [F2Q] in H. rewrite Qmult_1_l in H. exact H. }
    apply Qle_shift_div_r; [exact HY|]. lra.
Qed.

(** ** Single precision: magnitudes *)

Lemma pow2_le_inv (a b : Z) : (pow2 a <= pow2 b)%Q -> a <= b.
Proof. intros H. apply (Qpower_le_compat_l_inv 2); [exact H|reflexivity]. Qed.

Lemma magnitude_of_value (m : positive) (e k : Z) :
  (F2Q (S754_finite false m e) <= pow2 k)%Q ->
  Z.pos (digits2_pos m) + e <= k + 1.
Proof.
  cbn [F2Q]. rewrite Qmult_1_l. intros Hv.
  assert (B := Zdigits2_pos_bounds m). set (d := Z.pos (digits2_pos m)) in *.
  assert (H1 : (pow2 (d - 1) <= inject_Z (Z.pos m))%Q).
  { rewrite <- pow2_Z by lia. apply inject_Z_le. lia. }
  assert (P := pow2_pos e).
  assert (H2 : (pow2 (d - 1) * pow2 e <= inject_Z (Z.pos m) * pow2 e)%Q).
  { apply Qmult_le_compat_r; lra. }
  rewrite <- pow2_add in H2.
  assert (H3 : (pow2 (d - 1 + e) <= pow2 k)%Q) by lra.
  apply pow2_le_inv in H3. lia.
Qed.

Lemma exponent_of_value_ge_one (m : positive) (e : Z) :
  canonical_nonneg (S754_finite false m e) ->
  (1 <= F2Q (S754_finite false m e))%Q ->
  -23 <= e.
Proof.
  cbn [canonical_nonneg F2Q]. change (2 ^ 24) with 16777216. intros (He & Hm & _) Hv.
  destruct (Z_le_gt_dec (-23) e) as [|Hlt]; [assumption|exfalso].
  assert (H1 : (inject_Z (Z.pos m) < 16777216)%Q).
  { change 16777216%Q with (inject_Z 16777216). rewrite <- Zlt_Qlt. exact Hm. }
  assert (H2 : (pow2 e <= pow2 (-24))%Q) by (apply pow2_le; lia).
  assert (H3 : (pow2 (-24) == 1 # 16777216)%Q) by reflexivity.
  assert (P := pow2_pos e).
  assert (H4 : (inject_Z (Z.pos m) * pow2 e < 16777216 * pow2 e)%Q).
  { apply Qmult_lt_compat_r; lra. }
  rewrite Qmult_1_l in Hv. lra.
Qed.
(** ** Flags *)

Lemma flag_set_lor (f a b : Z) :
  flag_set f (Z.lor a b) = flag_set f a || flag_set f b.
Proof.
  unfold flag_set. rewrite Z.land_lor_distr_r.
  destruct (Z.eqb_spec (Z.land f a) 0) as [Ha|Ha];
    destruct (Z.eqb_spec (Z.land f b) 0) as [Hb|Hb]; simpl;
    destruct (Z.eqb_spec (Z.lor (Z.land f a) (Z.land f b)) 0) as [H|H];
    try reflexivity; exfalso.
  - apply H. rewrite Ha, Hb. reflexivity.
  - apply Z.lor_eq_0_iff in H. tauto.
  - apply Z.lor_eq_0_iff in H. tauto.
  - apply Z.lor_eq_0_iff in H. tauto.
Qed.

Lemma flag_set_lor_l (f g m : Z) :
  flag_set (Z.lor f g) m = flag_set f m || flag_set g m.
Proof.
  unfold flag_set. rewrite Z.land_lor_distr_l.
  destruct (Z.eqb_spec (Z.land f m) 0) as [Ha|Ha];
    destruct (Z.eqb_spec (Z.land g m) 0) as [Hb|Hb]; simpl;
    destruct (Z.eqb_spec (Z.lor (Z.land f m) (Z.land g m)) 0) as [H|H];
    try reflexivity; exfalso.
  - apply H. rewrite Ha, Hb. reflexivity.
  - apply Z.lor_eq_0_iff in H. tauto.
  - apply Z.lor_eq_0_iff in H. tauto.
  - apply Z.lor_eq_0_iff in H. tauto.
Qed.

(** The mode test on a brush and a scene is the test on their combined
    bits. *)
Lemma mode_enabled_effective (sd : Sculpt) (brush : option Brush) (mode : Z) :
  SCULPT_is_automasking_mode_enabled sd brush mode
  = flag_set (sculpt_automasking_mode_effective_bits sd brush) mode.
Proof.
  destruct brush as [b|]; simpl; [|reflexivity].
  rewrite flag_set_lor_l. apply orb_comm.
Qed.

(** ** The query *)

(** C2: the dispatch of [SCULPT_automasking_factor_get].  A null cache gives
    1.0; a cache with an array gives the stored entry whatever the session;
    without an array the FaceSets, BoundaryEdges and BoundaryFaceSets tests
    run in this order and the first failing one gives 0.0; when all pass,
    Cavity gives the cavity factor itself and otherwise the answer is 1.0. *)
Theorem factor_get_dispatch (ss : SculptSession) (vert : nat) :
  SCULPT_automasking_factor_get None ss vert = F32.one
  /\ (forall c arr x ss',
        factor c = Some arr -> arr !! vert = Some x ->
        SCULPT_automasking_factor_get (Some c) ss' vert = x)
  /\ (forall c,
        factor c = None ->
        let on mode := flag_set (flags (settings c)) mode in
        let face_sets_fail :=
          on BRUSH_AUTOMASKING_FACE_SETS
          && negb (vertex_has_face_set ss vert (initial_face_set (settings c))) in
        let boundary_edges_fail :=
          on BRUSH_AUTOMASKING_BOUNDARY_EDGES && vertex_is_boundary ss vert in
        let boundary_face_sets_fail :=
          on BRUSH_AUTOMASKING_BOUNDARY_FACE_SETS
          && negb (vertex_has_unique_face_set ss vert) in
        let get := SCULPT_automasking_factor_get (Some c) ss vert in
        (face_sets_fail = true -> get = F32.zero)
        /\ (face_sets_fail = false -> boundary_edges_fail = true -> get = F32.zero)
        /\ (face_sets_fail = false -> boundary_edges_fail = false ->
            boundary_face_sets_fail = true -> get = F32.zero)
        /\ (face_sets_fail = false -> boundary_edges_fail = false ->
            boundary_face_sets_fail = false ->
            on BRUSH_AUTOMASKING_CAVITY = true ->
            get = sculpt_automasking_cavity_factor c ss vert)
        /\ (face_sets_fail = false -> boundary_edges_fail = false ->
            boundary_face_sets_fail = false ->
            on BRUSH_AUTOMASKING_CAVITY = false ->
            get = F32.one)).
Proof.
  split; [reflexivity|]. split.
  - intros c arr x ss' Hf Hx. unfold SCULPT_automasking_factor_get, arr_get.
    rewrite Hf, Hx. reflexivity.
  - intros c Hf on fs be bfs get. subst get. unfold SCULPT_automasking_factor_get.
    rewrite Hf. fold (on BRUSH_AUTOMASKING_FACE_SETS) (on BRUSH_AUTOMASKING_BOUNDARY_EDGES)
      (on BRUSH_AUTOMASKING_BOUNDARY_FACE_SETS) (on BRUSH_AUTOMASKING_CAVITY).
    fold fs be bfs.
    repeat split; intros; repeat match goal with H : _ = _ :> bool |- _ => rewrite H; clear H end;
      reflexivity.
Qed.

Lemma factor_get_dispatch_witness :
  SCULPT_automasking_factor_get
    (Some {| settings := {| flags := BRUSH_AUTOMASKING_BOUNDARY_EDGES;
                            initial_face_set := 1;
                            cavity_factor := F32.one |};
             factor := None |})
    chain5 0 = F32.zero
  /\ SCULPT_automasking_factor_get
       (Some {| settings := {| flags := BRUSH_AUTOMASKING_TOPOLOGY;
                               initial_face_set := 1;
                               cavity_factor := F32.one |};
                factor := Some [F32.half] |})
       isolated_vertex 0 = F32.half.
Proof.
  destruct (factor_get_dispatch chain5 0) as (_ & Harr & Hdemand). split.
  - destruct (Hdemand
                {| settings := {| flags := BRUSH_AUTOMASKING_BOUNDARY_EDGES;
                                  initial_face_set := 1;
                                  cavity_factor := F32.one |};
                   factor := None |} eq_refl) as (_ & H & _).
    apply H; reflexivity.
  - apply (Harr _ [F32.half]); reflexivity.
Defined.

(** The cavity factor of a vertex without neighbours, on the path without
    an array. *)
Lemma isolated_vertex_on_demand (ss : SculptSession) (v : nat) (c : AutomaskingCache) :
  vertex_neighbors ss v = [] ->
  factor c = None ->
  flags (settings c) = BRUSH_AUTOMASKING_CAVITY ->
  cavity_factor (settings c) = F32.one ->
  SCULPT_calc_cavity ss v = F32.zero
  /\ SCULPT_automasking_factor_get (Some c) ss v = F32.half.
Proof.
  intros Hn Hf Hfl Hc.
  assert (Hcav : SCULPT_calc_cavity ss v = F32.zero).
  { unfold SCULPT_calc_cavity, calc_cavity_with. rewrite Hn. reflexivity. }
  split; [exact Hcav|].
  unfold SCULPT_automasking_factor_get. rewrite Hf, Hfl. simpl.
  unfold sculpt_automasking_cavity_factor. rewrite Hcav, Hc, Hfl. reflexivity.
Qed.

(** C7 as amended: with Cavity the only strategy of brush and scene,
    [cavity_factor = 1.0] and one propagation step, the cache comes without
    an array and the query on a vertex without neighbours returns exactly 0.5:
    the raw cavity is 0, the remap gives 0 * 1 * 50 * sign * 0.5 + 0.5, and
    the clamp leaves 0.5. *)
Theorem isolated_vertex_cavity_half
    (sd : Sculpt) (brush : Brush) (ob : Object) (v : nat) :
  vertex_neighbors (sculpt ob) v = [] ->
  stroke_is_dynamic_topology (sculpt ob) brush = false ->
  sculpt_automasking_mode_effective_bits sd (Some brush) = BRUSH_AUTOMASKING_CAVITY ->
  automasking_cavity_factor brush = F32.one ->
  automasking_boundary_edges_propagation_steps brush = 1 ->
  SCULPT_calc_cavity (sculpt ob) v = F32.zero
  /\ exists c,
       SCULPT_automasking_cache_init sd (Some brush) ob = Done (Some c)
       /\ factor c = None
       /\ SCULPT_automasking_factor_get (Some c) (sculpt ob) v = F32.half.
Proof.
  intros Hn Hdyn Hbits Hcav Hsteps.
  set (c := {| settings := {| flags := BRUSH_AUTOMASKING_CAVITY;
                              initial_face_set := active_face_set (sculpt ob);
                              cavity_factor := F32.one |};
               factor := None |}).
  destruct (isolated_vertex_on_demand (sculpt ob) v c Hn eq_refl eq_refl eq_refl)
    as [Hraw Hget].
  split; [exact Hraw|]. exists c. split; [|split; [reflexivity|exact Hget]].
  unfold SCULPT_automasking_cache_init, SCULPT_is_automasking_enabled,
    SCULPT_automasking_needs_factors_cache, SCULPT_automasking_cache_settings_update.
  rewrite !mode_enabled_effective, Hbits, Hdyn, Hcav, Hsteps. reflexivity.
Qed.

Lemma isolated_vertex_cavity_half_witness :
  exists c,
    SCULPT_automasking_cache_init
      (scene_of 0 None) (Some (brush_of BRUSH_AUTOMASKING_CAVITY 1 F32.one))
      {| sculpt := isolated_vertex |} = Done (Some c)
    /\ factor c = None
    /\ SCULPT_automasking_factor_get (Some c) isolated_vertex 0 = F32.half.
Proof.
  apply (isolated_vertex_cavity_half
           (scene_of 0 None) (brush_of BRUSH_AUTOMASKING_CAVITY 1 F32.one)
           {| sculpt := isolated_vertex |} 0); reflexivity.
Defined.

(** C7 as stated fails: the setting it words leaves the number of
    propagation steps open, and with more than one step the cache holds an
    array.  With three steps and the brush being the paint's brush, the
    blur runs two rounds on the one vertex, (0 + 1.0) * 0.5 and then
    (0 + 0.5) * 0.5, and the query returns 0.25; with two steps and no paint
    brush the Cavity initializer returns at its first test and the query
    returns the 1.0 the array was filled with. *)
Lemma isolated_vertex_as_worded_counterexample :
  isolated_cavity_setting
    (scene_of 0 (Some (brush_of BRUSH_AUTOMASKING_CAVITY 3 F32.one)))
    (brush_of BRUSH_AUTOMASKING_CAVITY 3 F32.one) {| sculpt := isolated_vertex |} 0
  /\ (exists c,
        SCULPT_automasking_cache_init
          (scene_of 0 (Some (brush_of BRUSH_AUTOMASKING_CAVITY 3 F32.one)))
          (Some (brush_of BRUSH_AUTOMASKING_CAVITY 3 F32.one))
          {| sculpt := isolated_vertex |} = Done (Some c)
        /\ factor c = Some [F32.quarter]
        /\ SCULPT_automasking_factor_get (Some c) isolated_vertex 0 = F32.quarter)
  /\ isolated_cavity_setting
       (scene_of 0 None)
       (brush_of BRUSH_AUTOMASKING_CAVITY 2 F32.one) {| sculpt := isolated_vertex |} 0
  /\ (exists c,
        SCULPT_automasking_cache_init
          (scene_of 0 None) (Some (brush_of BRUSH_AUTOMASKING_CAVITY 2 F32.one))
          {| sculpt := isolated_vertex |} = Done (Some c)
        /\ factor c = Some [F32.one]
        /\ SCULPT_automasking_factor_get (Some c) isolated_vertex 0 = F32.one)
  /\ F32.eqb F32.quarter F32.half = false
  /\ F32.eqb F32.one F32.half = false.
Proof.
  split; [repeat split|]. split.
  { eexists. split; [vm_compute; reflexivity|]. split; reflexivity. }
  split; [repeat split|]. split.
  { eexists. split; [vm_compute; reflexivity|]. split; reflexivity. }
  split; reflexivity.
Qed.

(** ** Missing adjacency map *)

(** C9: without the adjacency map the Topology initializer (on a PBVH of
    faces) and the boundary initializer fire their assertion, return null
    and leave every entry of the caller's array as it was. *)
Theorem pmap_missing_leaves_factor
    (sd : Sculpt) (ob : Object) (mode : eBoundaryAutomaskMode)
    (propagation_steps : Z) (automask_factor : list float) :
  pmap (sculpt ob) = false ->
  (pbvh_type (sculpt ob) = PBVH_FACES ->
   exists r,
     SCULPT_topology_automasking_init sd ob automask_factor = Done r
     /\ init_assert r = Some "Topology masking: pmap missing"%string
     /\ init_returned r = false
     /\ forall v, init_factor r !! v = automask_factor !! v)
  /\ (let r := SCULPT_boundary_automasking_init ob mode propagation_steps automask_factor in
      init_assert r = Some "Boundary Edges masking: pmap missing"%string
      /\ init_returned r = false
      /\ forall v, init_factor r !! v = automask_factor !! v).
Proof.
  intros Hp. split.
  - intros Ht. eexists. unfold SCULPT_topology_automasking_init.
    rewrite Ht, Hp. simpl. repeat split.
  - unfold SCULPT_boundary_automasking_init. rewrite Hp. simpl. repeat split.
Qed.

Lemma pmap_missing_leaves_factor_witness :
  let ss := {| totvert := 2; vertex_co := fun _ => origin; vertex_no := fun _ => up;
               vertex_neighbors := fun _ => []; vertex_is_boundary := fun _ => true;
               vertex_has_face_set := fun _ _ => true;
               vertex_has_unique_face_set := fun _ => true;
               active_face_set := 1; pmap := false; pbvh_type := PBVH_FACES;
               stroke_cache := false; stroke_is_dynamic_topology := fun _ => false;
               floodfill_visits := fun _ => [] |} in
  init_factor
    (SCULPT_boundary_automasking_init {| sculpt := ss |} AUTOMASK_INIT_BOUNDARY_EDGES 1
       [F32.half; F32.one]) !! 0%nat = Some F32.half.
Proof.
  intros ss.
  destruct (pmap_missing_leaves_factor (scene_of 0 None) {| sculpt := ss |}
              AUTOMASK_INIT_BOUNDARY_EDGES 1 [F32.half; F32.one] eq_refl)
    as (_ & _ & _ & H).
  rewrite H. reflexivity.
Defined.

(** ** Cache creation *)

Lemma enabled_null_brush (sd : Sculpt) (ss : SculptSession) :
  SCULPT_is_automasking_enabled sd ss None
  = existsb (flag_set (sd_automasking_flags sd)) strategy_bits.
Proof.
  unfold SCULPT_is_automasking_enabled, SCULPT_is_automasking_mode_enabled. simpl.
  repeat match goal with |- context [flag_set ?f ?m] => destruct (flag_set f m); simpl end;
    reflexivity.
Qed.

(** C10: with a null brush the bit combination and the array test are
    defined (they read the scene only), yet [SCULPT_automasking_cache_init]
    dereferences the null brush as soon as one strategy bit of the scene is
    set; with none set it returns null before reaching the settings. *)
Theorem cache_init_null_brush (sd : Sculpt) (ob : Object) :
  sculpt_automasking_mode_effective_bits sd None = sd_automasking_flags sd
  /\ SCULPT_automasking_needs_factors_cache sd None
     = flag_set (sd_automasking_flags sd) BRUSH_AUTOMASKING_TOPOLOGY
  /\ ((exists mode, In mode strategy_bits /\ flag_set (sd_automasking_flags sd) mode = true) ->
      SCULPT_is_automasking_enabled sd (sculpt ob) None = true
      /\ SCULPT_automasking_cache_settings_update (sculpt ob) sd None = NullDeref
      /\ SCULPT_automasking_cache_init sd None ob = NullDeref)
  /\ ((forall mode, In mode strategy_bits -> flag_set (sd_automasking_flags sd) mode = false) ->
      SCULPT_automasking_cache_init sd None ob = Done None).
Proof.
  split; [reflexivity|]. split.
  { unfold SCULPT_automasking_needs_factors_cache. simpl.
    destruct (flag_set _ BRUSH_AUTOMASKING_TOPOLOGY); [reflexivity|].
    destruct (flag_set _ _); reflexivity. }
  split.
  - intros (mode & Hin & Hset).
    assert (He : SCULPT_is_automasking_enabled sd (sculpt ob) None = true).
    { rewrite enabled_null_brush. apply existsb_exists. eauto. }
    split; [exact He|]. split; [reflexivity|].
    unfold SCULPT_automasking_cache_init. rewrite He. reflexivity.
  - intros Hall.
    assert (He : SCULPT_is_automasking_enabled sd (sculpt ob) None = false).
    { rewrite enabled_null_brush. apply not_true_is_false. intros H.
      apply existsb_exists in H as (mode & Hin & Hset).
      rewrite (Hall mode Hin) in Hset. discriminate. }
    unfold SCULPT_automasking_cache_init. rewrite He. reflexivity.
Qed.

Lemma cache_init_null_brush_witness :
  SCULPT_automasking_cache_init (scene_of BRUSH_AUTOMASKING_FACE_SETS None) None
    {| sculpt := chain5 |} = NullDeref.
Proof.
  destruct (cache_init_null_brush (scene_of BRUSH_AUTOMASKING_FACE_SETS None)
              {| sculpt := chain5 |}) as (_ & _ & H & _).
  apply H. exists BRUSH_AUTOMASKING_FACE_SETS. split; [|reflexivity].
  right; left; reflexivity.
Defined.

Lemma needs_factors_cache_iff (sd : Sculpt) (brush : option Brush) :
  let bits := sculpt_automasking_mode_effective_bits sd brush in
  SCULPT_automasking_needs_factors_cache sd brush = true <->
  flag_set bits BRUSH_AUTOMASKING_TOPOLOGY = true
  \/ ((flag_set bits BRUSH_AUTOMASKING_BOUNDARY_FACE_SETS = true
       \/ flag_set bits BRUSH_AUTOMASKING_BOUNDARY_EDGES = true
       \/ flag_set bits BRUSH_AUTOMASKING_CAVITY = true)
      /\ exists b, brush = Some b
                   /\ automasking_boundary_edges_propagation_steps b <> 1).
Proof.
  intros bits. unfold SCULPT_automasking_needs_factors_cache. fold bits.
  rewrite !flag_set_lor.
  destruct (flag_set bits BRUSH_AUTOMASKING_TOPOLOGY); [split; auto|].
  destruct brush as [b|].
  2:{ destruct (flag_set bits BRUSH_AUTOMASKING_BOUNDARY_FACE_SETS),
               (flag_set bits BRUSH_AUTOMASKING_BOUNDARY_EDGES),
               (flag_set bits BRUSH_AUTOMASKING_CAVITY); simpl;
        (split; [discriminate | intros [?|[_ (b' & ? & _)]]; discriminate]). }
  destruct (Z.eqb_spec (automasking_boundary_edges_propagation_steps b) 1) as [E|E].
  - destruct (flag_set bits BRUSH_AUTOMASKING_BOUNDARY_FACE_SETS),
             (flag_set bits BRUSH_AUTOMASKING_BOUNDARY_EDGES),
             (flag_set bits BRUSH_AUTOMASKING_CAVITY); simpl;
      (split; [discriminate
              | intros [?|[_ (b' & Hb & Hs)]];
                [discriminate | injection Hb as <-; contradiction]]).
  - destruct (flag_set bits BRUSH_AUTOMASKING_BOUNDARY_FACE_SETS),
             (flag_set bits BRUSH_AUTOMASKING_BOUNDARY_EDGES),
             (flag_set bits BRUSH_AUTOMASKING_CAVITY); simpl;
      first [ split; [discriminate | intros [?|[[?|[?|?]] _]]; discriminate]
            | split; [intros _; right; split; [auto | exists b; auto] | reflexivity] ].
Qed.

(** C3 as amended: a cache that [SCULPT_automasking_cache_init] returns has a
    factor array exactly when Topology is enabled, or when the brush is
    present with a step count other than 1 and one of BoundaryEdges,
    BoundaryFaceSets, Cavity is enabled. *)
Theorem factor_array_allocated_iff
    (sd : Sculpt) (brush : option Brush) (ob : Object) (c : AutomaskingCache) :
  SCULPT_automasking_cache_init sd brush ob = Done (Some c) ->
  let on mode := SCULPT_is_automasking_mode_enabled sd brush mode in
  is_Some (factor c) <->
  on BRUSH_AUTOMASKING_TOPOLOGY = true
  \/ ((on BRUSH_AUTOMASKING_BOUNDARY_FACE_SETS = true
       \/ on BRUSH_AUTOMASKING_BOUNDARY_EDGES = true
       \/ on BRUSH_AUTOMASKING_CAVITY = true)
      /\ exists b, brush = Some b
                   /\ automasking_boundary_edges_propagation_steps b <> 1).
Proof.
  intros Hinit on. subst on. simpl.
  rewrite !mode_enabled_effective.
  rewrite <- (needs_factors_cache_iff sd brush).
  unfold SCULPT_automasking_cache_init in Hinit.
  destruct (SCULPT_is_automasking_enabled sd (sculpt ob) brush); simpl in Hinit;
    [|discriminate].
  destruct (SCULPT_automasking_cache_settings_update (sculpt ob) sd brush) as [st|];
    simpl in Hinit; [|discriminate].
  destruct (SCULPT_automasking_needs_factors_cache sd brush); simpl in Hinit.
  - match type of Hinit with
    | bind ?m _ = _ => destruct m as [f|]; simpl in Hinit; [|discriminate]
    end.
    injection Hinit as <-. simpl. split; eauto.
  - injection Hinit as <-. simpl. split; [intros [? ?]|]; discriminate.
Qed.

Lemma factor_array_allocated_iff_witness :
  exists c,
    SCULPT_automasking_cache_init
      (scene_of 0 None) (Some (brush_of BRUSH_AUTOMASKING_BOUNDARY_EDGES 2 F32.one))
      {| sculpt := chain5 |} = Done (Some c)
    /\ is_Some (factor c).
Proof.
  destruct (SCULPT_automasking_cache_init
              (scene_of 0 None) (Some (brush_of BRUSH_AUTOMASKING_BOUNDARY_EDGES 2 F32.one))
              {| sculpt := chain5 |}) as [[c|]|] eqn:E;
    [|vm_compute in E; discriminate..].
  exists c. split; [reflexivity|].
  apply (factor_array_allocated_iff _ _ _ c E).
  right. split; [right; left; reflexivity|]. eexists. split; [reflexivity|]. simpl. lia.
Defined.

(** C3 as stated fails: with FaceSets alone and two propagation steps the
    cache comes without an array, although a strategy is enabled and the
    step count is not 1. *)
Lemma array_rule_as_worded_counterexample :
  SCULPT_automasking_cache_init
    (scene_of 0 None) (Some (brush_of BRUSH_AUTOMASKING_FACE_SETS 2 F32.one))
    {| sculpt := chain5 |}
  = Done (Some {| settings := {| flags := BRUSH_AUTOMASKING_FACE_SETS;
                                 initial_face_set := 1;
                                 cavity_factor := F32.one |};
                  factor := None |})
  /\ array_rule_as_worded (scene_of 0 None) (brush_of BRUSH_AUTOMASKING_FACE_SETS 2 F32.one).
Proof.
  split; [reflexivity|].
  right. split; [|simpl; lia].
  exists BRUSH_AUTOMASKING_FACE_SETS. split; [right; left; reflexivity | reflexivity].
Qed.

(** ** Degenerate geometry *)

(** C1 at its failing input: two vertices joined by an edge of length zero,
    Cavity alone, [cavity_factor = 1.0].  The neighbour count is 1, so the
    guard on [e_num] lets the division [0 / 0] through; the query returns
    NaN, on the path without an array (one propagation step) as well as
    from the array (two steps), and NaN is not in the range from 0.0 to
    1.0. *)
Theorem factor_get_nan_on_zero_length_edge :
  SCULPT_calc_cavity coincident_pair 0 = S754_nan
  /\ (exists c,
        SCULPT_automasking_cache_init
          (scene_of 0 None) (Some (brush_of BRUSH_AUTOMASKING_CAVITY 1 F32.one))
          {| sculpt := coincident_pair |} = Done (Some c)
        /\ factor c = None
        /\ SCULPT_automasking_factor_get (Some c) coincident_pair 0 = S754_nan)
  /\ (exists c,
        SCULPT_automasking_cache_init
          (scene_of 0 (Some (brush_of BRUSH_AUTOMASKING_CAVITY 2 F32.one)))
          (Some (brush_of BRUSH_AUTOMASKING_CAVITY 2 F32.one))
          {| sculpt := coincident_pair |} = Done (Some c)
        /\ factor c = Some [S754_nan; S754_nan]
        /\ SCULPT_automasking_factor_get (Some c) coincident_pair 0 = S754_nan)
  /\ F32.in_unit_interval S754_nan = false.
Proof.
  split; [reflexivity|]. split; [|split; [|reflexivity]].
  - eexists. split; [reflexivity|]. split; reflexivity.
  - eexists. split; [vm_compute; reflexivity|]. split; reflexivity.
Qed.


(** ** Loops over arrays *)

Local Arguments Z.eqb : simpl never.

Lemma for_range_S {S} (n : nat) (body : nat -> S -> S) (s : S) :
  for_range (Datatypes.S n) body s = body n (for_range n body s).
Proof.
  unfold for_range. rewrite seq_S, fold_left_app. reflexivity.
Qed.

(** Loop invariants: what holds before the first iteration and is kept by
    every iteration holds after the last. *)
Lemma for_range_invariant {S} (P : nat -> S -> Prop) (n : nat)
    (body : nat -> S -> S) (s : S) :
  P 0%nat s ->
  (forall i s, (i < n)%nat -> P i s -> P (Datatypes.S i) (body i s)) ->
  P n (for_range n body s).
Proof.
  intros H0 Hstep. induction n as [|n IH]; [exact H0|].
  rewrite for_range_S. apply Hstep; [lia|]. apply IH.
  intros i s' Hi. apply Hstep. lia.
Qed.

Lemma arr_get_lookup {A} (d : A) (a : list A) (i : nat) (x : A) :
  a !! i = Some x -> arr_get d a i = x.
Proof. unfold arr_get. intros ->. reflexivity. Qed.

Lemma existsb_pointwise {A} (f g : A -> bool) (l : list A) :
  (forall x, f x = g x) -> existsb f l = existsb g l.
Proof.
  intros H. induction l as [|x l IH]; [reflexivity|].
  simpl. rewrite H, IH. reflexivity.
Qed.

(** ** Boundary distance field *)

Section BoundaryField.

Variable ss : SculptSession.
Variable mode : eBoundaryAutomaskMode.

Lemma boundary_seed_spec (edge_distance : list Z) :
  length edge_distance = totvert ss ->
  length (boundary_seed ss mode edge_distance) = totvert ss
  /\ forall v, (v < totvert ss)%nat ->
       boundary_seed ss mode edge_distance !! v = Some (seed_value ss mode v).
Proof.
  intros Hlen. unfold boundary_seed.
  apply (for_range_invariant
           (fun k cur => length cur = totvert ss
                         /\ forall v, (v < k)%nat -> cur !! v = Some (seed_value ss mode v))).
  - split; [exact Hlen|]. intros v Hv. lia.
  - intros i cur Hi [Hl Hcur].
    assert (Hnew : exists cur',
               (match mode with
                | AUTOMASK_INIT_BOUNDARY_EDGES =>
                  if vertex_is_boundary ss i
                  then <[i := 0]> (<[i := EDGE_DISTANCE_INF]> cur)
                  else <[i := EDGE_DISTANCE_INF]> cur
                | AUTOMASK_INIT_BOUNDARY_FACE_SETS =>
                  if negb (vertex_has_unique_face_set ss i)
                  then <[i := 0]> (<[i := EDGE_DISTANCE_INF]> cur)
                  else <[i := EDGE_DISTANCE_INF]> cur
                end) = cur'
               /\ cur' = <[i := seed_value ss mode i]> cur).
    { eexists. split; [reflexivity|]. unfold seed_value, boundary_seed_vertex.
      destruct mode;
        [destruct (vertex_is_boundary ss i)
        | destruct (vertex_has_unique_face_set ss i)]; simpl;
        rewrite ?list_insert_insert_eq; reflexivity. }
    destruct Hnew as (cur' & -> & ->).
    rewrite length_insert. split; [exact Hl|].
    intros v Hv. destruct (decide (v = i)) as [->|Hne].
    + apply list_lookup_insert_eq. lia.
    + rewrite list_lookup_insert_ne by congruence. apply Hcur. lia.
Qed.

(** The neighbour loop at a vertex still at INF stores at most one value,
    [propagation_it + 1], and does so when some neighbour is at
    [propagation_it]. *)
Lemma propagate_neighbors (it : Z) (i : nat) (nbrs : list nat) (cur : list Z) :
  arr_get 0 cur i <> it ->
  fold_left
    (fun edge_distance ni =>
       if arr_get 0 edge_distance ni =? it
       then <[i := it + 1]> edge_distance
       else edge_distance)
    nbrs cur
  = if existsb (fun ni => arr_get 0 cur ni =? it) nbrs
    then <[i := it + 1]> cur
    else cur.
Proof.
  revert cur. induction nbrs as [|ni nbrs IH]; intros cur Hi; [reflexivity|].
  simpl. destruct (Z.eqb_spec (arr_get 0 cur ni) it) as [E|E]; simpl.
  - rewrite IH.
    + rewrite list_insert_insert_eq. destruct (existsb _ nbrs); reflexivity.
    + unfold arr_get. rewrite list_lookup_insert.
      destruct (decide _) as [_|_]; simpl; [lia|exact Hi].
  - apply IH. exact Hi.
Qed.

(** Updating in place is reading a snapshot: a value stored during pass
    [propagation_it] is [propagation_it + 1], which no test of the same pass
    takes for [propagation_it]. *)
Lemma pass_is_snapshot (it : Z) (old : list Z) :
  0 <= it ->
  length old = totvert ss ->
  boundary_propagate_pass ss it old = snapshot_pass ss it old.
Proof.
  intros Hit Hlen. unfold boundary_propagate_pass.
  set (snap := snapshot_pass ss it old).
  assert (Hsnap : forall j, snap !! j
            = (fun d => if negb (d =? EDGE_DISTANCE_INF) then d
                        else if existsb (fun ni => arr_get 0 old ni =? it)
                                        (vertex_neighbors ss j)
                        then it + 1 else d) <$> old !! j).
  { intros j. unfold snap, snapshot_pass. apply list_lookup_imap. }
  assert (Hsame : forall j, (arr_get 0 snap j =? it) = (arr_get 0 old j =? it)).
  { intros j. unfold arr_get. rewrite Hsnap. destruct (old !! j) as [d|]; simpl; [|reflexivity].
    destruct (Z.eqb_spec d EDGE_DISTANCE_INF) as [Hd|Hd]; simpl; [|reflexivity].
    unfold EDGE_DISTANCE_INF in Hd.
    destruct (existsb _ _); destruct (Z.eqb_spec (it + 1) it); destruct (Z.eqb_spec d it);
      try reflexivity; lia. }
  enough (H : length (for_range (totvert ss) (boundary_propagate_vertex ss it) old)
              = totvert ss
              /\ forall j, for_range (totvert ss) (boundary_propagate_vertex ss it) old !! j
                           = if (j <? totvert ss)%nat then snap !! j else old !! j).
  { destruct H as [_ H]. apply list_eq. intros j. rewrite H.
    destruct (Nat.ltb_spec j (totvert ss)) as [|Hj]; [reflexivity|].
    rewrite Hsnap. replace (old !! j) with (@None Z); [reflexivity|].
    symmetry. apply lookup_ge_None. lia. }
  apply (for_range_invariant
           (fun k cur => length cur = totvert ss
                         /\ forall j, cur !! j
                                      = if (j <? k)%nat then snap !! j else old !! j)).
  - split; [exact Hlen|]. intros j. reflexivity.
  - intros i cur Hi [Hl Hcur].
    assert (Hcur_i : cur !! i = old !! i).
    { rewrite Hcur. rewrite Nat.ltb_irrefl. reflexivity. }
    assert (Hget : forall j, (arr_get 0 cur j =? it) = (arr_get 0 old j =? it)).
    { intros j. unfold arr_get at 1. rewrite Hcur.
      destruct (j <? i)%nat; [apply Hsame|reflexivity]. }
    destruct (old !! i) as [d|] eqn:Hold;
      [|apply lookup_ge_None in Hold; lia].
    assert (Hsnap_i := Hsnap i). rewrite Hold in Hsnap_i. simpl in Hsnap_i.
    assert (Hrest : forall cur' : list Z,
               length cur' = totvert ss ->
               (forall j, j <> i -> cur' !! j = cur !! j) ->
               cur' !! i = snap !! i ->
               length cur' = totvert ss
               /\ forall j, cur' !! j = if (j <? S i)%nat then snap !! j else old !! j).
    { intros cur' Hl' Hother Hi'. split; [exact Hl'|]. intros j.
      destruct (decide (j = i)) as [->|Hne].
      - rewrite Hi'. replace (i <? S i)%nat with true; [reflexivity|].
        symmetry. apply Nat.ltb_lt. lia.
      - rewrite (Hother j Hne), Hcur.
        destruct (Nat.ltb_spec j i), (Nat.ltb_spec j (S i)); try reflexivity; lia. }
    unfold boundary_propagate_vertex.
    rewrite (arr_get_lookup 0 cur i d Hcur_i).
    destruct (Z.eqb_spec d EDGE_DISTANCE_INF) as [Hd|Hd]; simpl in *.
    + rewrite propagate_neighbors.
      2:{ rewrite (arr_get_lookup 0 cur i _ Hcur_i). unfold EDGE_DISTANCE_INF in Hd. lia. }
      assert (Hex : existsb (fun ni => arr_get 0 cur ni =? it) (vertex_neighbors ss i)
                    = existsb (fun ni => arr_get 0 old ni =? it) (vertex_neighbors ss i)).
      { apply existsb_pointwise. exact Hget. }
      rewrite Hex.
      destruct (existsb _ _).
      * apply Hrest.
        -- rewrite length_insert. exact Hl.
        -- intros j Hne. apply list_lookup_insert_ne. congruence.
        -- rewrite Hsnap_i. apply list_lookup_insert_eq. lia.
      * apply Hrest; [exact Hl|reflexivity|]. rewrite Hsnap_i, Hcur_i. reflexivity.
    + apply Hrest; [exact Hl|reflexivity|]. rewrite Hsnap_i, Hcur_i. reflexivity.
Qed.

Hypothesis Hwf : neighbors_in_range ss = true.

Lemma neighbor_in_range (v u : nat) :
  (v < totvert ss)%nat -> In u (vertex_neighbors ss v) -> (u < totvert ss)%nat.
Proof.
  intros Hv Hu. unfold neighbors_in_range in Hwf.
  rewrite forallb_forall in Hwf.
  assert (H := Hwf v). rewrite forallb_forall in H.
  apply Nat.ltb_lt. apply H; [|exact Hu].
  apply in_seq. lia.
Qed.

Lemma hop_distance_unique (v d1 d2 : nat) :
  hop_distance ss mode v d1 -> hop_distance ss mode v d2 -> d1 = d2.
Proof.
  intros [H1 M1] [H2 M2].
  destruct (Nat.lt_trichotomy d1 d2) as [L|[E|L]]; [|exact E|].
  - exfalso. exact (M2 d1 L H1).
  - exfalso. exact (M1 d2 L H2).
Qed.

Lemma level_invariant_seed :
  level_invariant ss mode 0 (boundary_seed ss mode (replicate (totvert ss) 0)).
Proof.
  destruct (boundary_seed_spec (replicate (totvert ss) 0)) as [Hl Hs].
  { apply length_replicate. }
  split; [exact Hl|]. intros v Hv. rewrite (Hs v Hv). unfold seed_value.
  destruct (boundary_seed_vertex ss mode v) eqn:Hseed.
  - right. exists 0%nat. split; [lia|]. split; [reflexivity|]. split.
    + constructor. exact Hseed.
    + intros k Hk. lia.
  - left. split; [reflexivity|]. intros d Hd Hh.
    assert (d = 0)%nat as -> by lia.
    inversion Hh; subst. congruence.
Qed.

(** One level of the snapshot pass moves the frontier from [k] to [k + 1]
    hops. *)
Lemma level_invariant_step (k : nat) (edge_distance : list Z) :
  level_invariant ss mode k edge_distance ->
  level_invariant ss mode (S k) (snapshot_pass ss (Z.of_nat k) edge_distance).
Proof.
  intros [Hl Hinv]. split.
  { unfold snapshot_pass. rewrite length_imap. exact Hl. }
  intros v Hv. unfold snapshot_pass. rewrite list_lookup_imap.
  destruct (Hinv v Hv) as [[Hinf Hno]|(d & Hd & Hval & Hdist)].
  - rewrite Hinf. simpl.
    destruct (existsb _ _) eqn:Hex.
    + right. exists (S k). split; [lia|]. split.
      { f_equal. lia. }
      apply existsb_exists in Hex as (u & Hu & Hk).
      apply Z.eqb_eq in Hk.
      assert (Hur := neighbor_in_range v u Hv Hu).
      destruct (Hinv u Hur) as [[Huinf _]|(du & _ & Huval & [Hhops _])].
      * rewrite (arr_get_lookup _ _ _ _ Huinf) in Hk. unfold EDGE_DISTANCE_INF in Hk. lia.
      * rewrite (arr_get_lookup _ _ _ _ Huval) in Hk.
        assert (du = k) as -> by lia.
        split.
        -- econstructor; eassumption.
        -- intros j Hj. apply Hno. lia.
    + left. split; [reflexivity|]. intros d Hd Hh.
      destruct (decide (d = S k)) as [->|Hne]; [|apply (Hno d); [lia|exact Hh]].
      inversion Hh as [|k' v' u Hu Hhu]; subst.
      assert (Hur := neighbor_in_range v u Hv Hu).
      destruct (Hinv u Hur) as [[_ Hnou]|(du & Hdu & Huval & [Hhops _])].
      * exact (Hnou k (Nat.le_refl k) Hhu).
      * destruct (decide (du = k)) as [->|Hlt].
        -- assert (Hex' : existsb (fun ni => arr_get 0 edge_distance ni =? Z.of_nat k)
                            (vertex_neighbors ss v) = true).
           { apply existsb_exists. exists u. split; [exact Hu|].
             rewrite (arr_get_lookup _ _ _ _ Huval). apply Z.eqb_refl. }
           congruence.
        -- apply (Hno (S du)); [lia|]. econstructor; eassumption.
  - rewrite Hval. simpl.
    replace (Z.of_nat d =? EDGE_DISTANCE_INF) with false.
    2:{ symmetry. apply Z.eqb_neq. unfold EDGE_DISTANCE_INF. lia. }
    simpl. right. exists d. split; [lia|]. split; [reflexivity|exact Hdist].
Qed.

Lemma edge_distance_succ (k : nat) :
  boundary_edge_distance ss mode (Z.of_nat (S k))
  = boundary_propagate_pass ss (Z.of_nat k) (boundary_edge_distance ss mode (Z.of_nat k)).
Proof.
  unfold boundary_edge_distance, boundary_propagate.
  rewrite !Nat2Z.id, for_range_S. reflexivity.
Qed.

Lemma level_invariant_run (k : nat) :
  level_invariant ss mode k (boundary_edge_distance ss mode (Z.of_nat k)).
Proof.
  induction k as [|k IH].
  - apply level_invariant_seed.
  - rewrite edge_distance_succ, pass_is_snapshot.
    + apply level_invariant_step. exact IH.
    + lia.
    + apply IH.
Qed.

End BoundaryField.

(** C4: the boundary propagation is level-synchronous.  After the loop the
    entry of a vertex is its graph distance to the seed set when that is at
    most [propagation_steps], and INF otherwise.  Outer iteration [k] takes
    the array of [k] iterations to the array of [k + 1]; doing so in place
    gives what a pass over a snapshot gives; and the entries it changes are
    those of the vertices at distance exactly [k + 1], which get
    [k + 1]. *)
Theorem boundary_propagation_level_synchronous
    (ss : SculptSession) (mode : eBoundaryAutomaskMode) (propagation_steps : Z) :
  neighbors_in_range ss = true ->
  0 <= propagation_steps ->
  let edge_distance := boundary_edge_distance ss mode propagation_steps in
  (forall v, (v < totvert ss)%nat ->
     (forall d, edge_distance !! v = Some (Z.of_nat d)
                <-> hop_distance ss mode v d /\ Z.of_nat d <= propagation_steps)
     /\ (edge_distance !! v = Some EDGE_DISTANCE_INF
         <-> forall d, Z.of_nat d <= propagation_steps -> ~ hops ss mode d v))
  /\ (forall k, Z.of_nat k < propagation_steps ->
        let before := boundary_edge_distance ss mode (Z.of_nat k) in
        let after := boundary_edge_distance ss mode (Z.of_nat (S k)) in
        after = boundary_propagate_pass ss (Z.of_nat k) before
        /\ after = snapshot_pass ss (Z.of_nat k) before
        /\ forall v, (v < totvert ss)%nat ->
             (after !! v <> before !! v <-> hop_distance ss mode v (S k))
             /\ (after !! v <> before !! v -> after !! v = Some (Z.of_nat (S k)))).
Proof.
  intros Hwf Hsteps edge_distance. split.
  - intros v Hv.
    assert (Hinv := level_invariant_run ss mode Hwf (Z.to_nat propagation_steps)).
    rewrite Z2Nat.id in Hinv by exact Hsteps. fold edge_distance in Hinv.
    destruct Hinv as [_ Hinv].
    destruct (Hinv v Hv) as [[Hinf Hno]|(d' & Hd' & Hval & Hdist)].
    + split.
      * intros d. rewrite Hinf. split.
        -- intros [= E]. unfold EDGE_DISTANCE_INF in E. lia.
        -- intros [[Hh _] Hd]. exfalso. apply (Hno d); [lia|exact Hh].
      * split; [|intros _; exact Hinf].
        intros _ d Hd. apply Hno. lia.
    + split.
      * intros d. rewrite Hval. split.
        -- intros [= E]. apply Nat2Z.inj in E. subst d'. split; [exact Hdist|lia].
        -- intros [Hd _]. rewrite (hop_distance_unique ss mode v d d' Hd Hdist). reflexivity.
      * rewrite Hval. split.
        -- intros [= E]. unfold EDGE_DISTANCE_INF in E. lia.
        -- intros Hno. exfalso. destruct Hdist as [Hh _]. apply (Hno d'); [lia|exact Hh].
  - intros k Hk before after.
    assert (Hb := level_invariant_run ss mode Hwf k). fold before in Hb.
    assert (Ha := level_invariant_run ss mode Hwf (S k)). fold after in Ha.
    assert (Hpass : after = boundary_propagate_pass ss (Z.of_nat k) before).
    { apply edge_distance_succ. }
    split; [exact Hpass|]. split.
    { rewrite Hpass. apply pass_is_snapshot; [lia|apply Hb]. }
    intros v Hv.
    destruct Hb as [_ Hb]. destruct Ha as [_ Ha].
    destruct (Hb v Hv) as [[Hbinf Hbno]|(db & Hdb & Hbval & Hbdist)];
      destruct (Ha v Hv) as [[Hainf Hano]|(da & Hda & Haval & Hadist)].
    + rewrite Hbinf, Hainf. split; [split|]; try congruence.
      intros [Hh _]. exfalso. apply (Hano (S k)); [lia|exact Hh].
    + assert (da = S k) as ->.
      { destruct (decide (da = S k)) as [E|E]; [exact E|]. exfalso.
        destruct Hadist as [Hh _]. apply (Hbno da); [lia|exact Hh]. }
      rewrite Hbinf, Haval. split; [split|]; try congruence.
      intros _ [= E]; try (unfold EDGE_DISTANCE_INF in E; lia).
    + exfalso. destruct Hbdist as [Hh _]. apply (Hano db); [lia|exact Hh].
    + assert (da = db) as -> by (eapply hop_distance_unique; eassumption).
      rewrite Hbval, Haval. split; [split|]; try congruence.
      intros Hd. assert (db = S k) by (eapply hop_distance_unique; eassumption). lia.
Qed.

Lemma boundary_propagation_level_synchronous_witness :
  boundary_edge_distance chain5 AUTOMASK_INIT_BOUNDARY_EDGES 2 !! 2%nat = Some 2
  /\ boundary_edge_distance chain5 AUTOMASK_INIT_BOUNDARY_EDGES 2
     = snapshot_pass chain5 1 (boundary_edge_distance chain5 AUTOMASK_INIT_BOUNDARY_EDGES 1).
Proof.
  destruct (boundary_propagation_level_synchronous chain5 AUTOMASK_INIT_BOUNDARY_EDGES 2)
    as [Hdist Hlevel]; [reflexivity|lia|].
  split.
  - destruct (Hdist 2%nat) as [_ _]; [simpl; lia|]. reflexivity.
  - destruct (Hlevel 1%nat) as (_ & H & _); [lia|]. exact H.
Defined.

(** ** Blur *)

Lemma blur_sum_count (scratch : list float) (nbrs : list nat) (s : float) (t : Z) :
  fold_left
    (fun '(sum, tot) ni => ((sum + arr_get F32.zero scratch ni)%f32, tot + 1))
    nbrs (s, t)
  = (fold_left (fun s ni => (s + arr_get F32.zero scratch ni)%f32) nbrs s,
     t + Z.of_nat (length nbrs)).
Proof.
  revert s t. induction nbrs as [|ni nbrs IH]; intros s t.
  - simpl. f_equal. lia.
  - cbn [fold_left length]. rewrite IH. f_equal. lia.
Qed.

(** What the loop over the vertices computes, once the pointers are
    swapped: the neighbours' values come from [scratch], the previous round,
    and the vertex's own value from [factor], the buffer being overwritten,
    which holds the values of two rounds earlier (1.0 in the first
    round). *)
Lemma cavity_blur_round_mix (ss : SculptSession) (factor scratch : list float) :
  length factor = totvert ss ->
  cavity_blur_round ss factor scratch = blur_mix ss scratch factor.
Proof.
  intros Hlen. unfold cavity_blur_round.
  assert (Hmix : forall j, blur_mix ss scratch factor !! j
            = (fun own => ((neighbor_mean ss scratch j + own) * F32.half)%f32)
                <$> factor !! j).
  { intros j. unfold blur_mix. apply list_lookup_imap. }
  match goal with
  | |- for_range _ ?body _ = _ =>
    enough (H : length (for_range (totvert ss) body factor) = totvert ss
                /\ forall j, for_range (totvert ss) body factor !! j
                             = if (j <? totvert ss)%nat
                               then blur_mix ss scratch factor !! j
                               else factor !! j);
      [|apply (for_range_invariant
                 (fun k cur => length cur = totvert ss
                               /\ forall j, cur !! j
                                            = if (j <? k)%nat
                                              then blur_mix ss scratch factor !! j
                                              else factor !! j))]
  end.
  - destruct H as [_ H]. apply list_eq. intros j. rewrite H.
    destruct (Nat.ltb_spec j (totvert ss)) as [|Hj]; [reflexivity|].
    rewrite Hmix. replace (factor !! j) with (@None float); [reflexivity|].
    symmetry. apply lookup_ge_None. lia.
  - split; [exact Hlen|]. intros j. reflexivity.
  - intros i cur Hi [Hl Hcur].
    assert (Hi' : cur !! i = factor !! i).
    { rewrite Hcur, Nat.ltb_irrefl. reflexivity. }
    destruct (factor !! i) as [x|] eqn:Hx; [|apply lookup_ge_None in Hx; lia].
    rewrite blur_sum_count. rewrite (arr_get_lookup _ _ _ _ Hi').
    assert (Hnew : (if 0 + Z.of_nat (length (vertex_neighbors ss i)) =? 0
                    then fold_left (fun s ni => (s + arr_get F32.zero scratch ni)%f32)
                           (vertex_neighbors ss i) F32.zero
                    else (fold_left (fun s ni => (s + arr_get F32.zero scratch ni)%f32)
                            (vertex_neighbors ss i) F32.zero
                          / F32.of_Z (0 + Z.of_nat (length (vertex_neighbors ss i))))%f32)
                   = neighbor_mean ss scratch i).
    { unfold neighbor_mean. destruct (vertex_neighbors ss i) as [|ni nbrs]; reflexivity. }
    rewrite Hnew. rewrite length_insert. split; [exact Hl|]. intros j.
    destruct (decide (j = i)) as [->|Hne].
    + rewrite list_lookup_insert_eq by lia.
      replace (i <? S i)%nat with true by (symmetry; apply Nat.ltb_lt; lia).
      rewrite Hmix, Hx. reflexivity.
    + rewrite list_lookup_insert_ne by congruence. rewrite Hcur.
      destruct (Nat.ltb_spec j i), (Nat.ltb_spec j (S i)); try reflexivity; lia.
Qed.

Lemma length_blur_mix (ss : SculptSession) (a b : list float) :
  length (blur_mix ss a b) = length b.
Proof. unfold blur_mix. apply length_imap. Qed.

(** A round of the loop, entered with the previous round's values in one
    buffer and stale values in the other, mixes the neighbours' previous
    values with the vertex's stale value; the worded round mixes them with
    the vertex's previous value, [blur_mix ss previous previous]. *)
Lemma cavity_blur_round_stale (rounds : nat) (ss : SculptSession)
    (previous stale : list float) :
  length stale = totvert ss ->
  cavity_blur (S rounds) ss previous stale
  = cavity_blur rounds ss (blur_mix ss previous stale) previous.
Proof.
  intros Hlen. cbn [cavity_blur].
  rewrite cavity_blur_round_mix by exact Hlen. reflexivity.
Qed.

(** C8 at its failing inputs, Cavity with two propagation steps, that is
    one round of blur.  On one vertex without neighbours the value before
    the round is 0.5; as worded the round gives half of it, 0.25; the loop
    gives (0 + 1.0) * 0.5 = 0.5, and gives that whatever the value before
    the round was.  On two stacked vertices the values before the round are
    1.0 and 0.0; as worded the round gives 0.5 and 0.5; the loop gives 0.5
    and 1.0. *)
Theorem blur_round_reads_stale_buffer :
  let c := {| settings := {| flags := BRUSH_AUTOMASKING_CAVITY;
                             initial_face_set := 1;
                             cavity_factor := F32.one |};
              factor := None |} in
  (cavity_multiply c isolated_vertex [F32.one] = [F32.half]
   /\ blur_round_as_worded isolated_vertex [F32.half] = [F32.quarter]
   /\ cavity_blurred c isolated_vertex 2 = [F32.half]
   /\ forall x, cavity_blur 1 isolated_vertex [x] [F32.one] = ([F32.half], [x]))
  /\ (cavity_multiply c stacked_pair [F32.one; F32.one] = [F32.one; F32.zero]
      /\ blur_round_as_worded stacked_pair [F32.one; F32.zero] = [F32.half; F32.half]
      /\ cavity_blurred c stacked_pair 2 = [F32.half; F32.one]).
Proof.
  repeat split.
Qed.

(** ** The cavity estimate *)

Lemma cavity_fold_split (ss : SculptSession) (co : vec3) (nbrs : list nat)
    (avg : vec3) (elen e_num : float) :
  fold_left
    (fun '(avg, elen, e_num) ni =>
       let co2 := vertex_co ss ni in
       (add_v3_v3 avg co2, (elen + len_v3v3 co co2)%f32, (e_num + F32.one)%f32))
    nbrs (avg, elen, e_num)
  = (fold_left add_v3_v3 (map (vertex_co ss) nbrs) avg,
     fold_left F32.add (map (fun ni => len_v3v3 co (vertex_co ss ni)) nbrs) elen,
     fold_left (fun c _ => (c + F32.one)%f32) nbrs e_num).
Proof.
  revert avg elen e_num.
  induction nbrs as [|ni nbrs IH]; intros avg elen e_num; [reflexivity|].
  simpl. apply IH.
Qed.

Lemma cavity_accumulate_split (ss : SculptSession) (co : vec3) (nbrs : list nat) :
  cavity_accumulate ss co nbrs
  = (sum_v3 (map (vertex_co ss) nbrs),
     sum_f32 (map (fun ni => len_v3v3 co (vertex_co ss ni)) nbrs),
     count_f32 nbrs).
Proof. apply cavity_fold_split. Qed.

(** C6: [SCULPT_calc_cavity] returns the dot product of the normal with the
    offset from the vertex to the mean neighbour position, divided by the
    mean distance to the neighbours; on a vertex without neighbours it
    returns 0.0 whatever the division would do, since none is reached. *)
Theorem calc_cavity_formula (ss : SculptSession) (vertex : nat) :
  SCULPT_calc_cavity ss vertex = cavity_as_worded ss vertex
  /\ (vertex_neighbors ss vertex = [] ->
      forall fdiv, calc_cavity_with fdiv ss vertex = F32.zero).
Proof.
  split.
  - unfold SCULPT_calc_cavity, calc_cavity_with, cavity_as_worded,
      mean_neighbor_position, mean_edge_length.
    rewrite cavity_accumulate_split.
    destruct (vertex_neighbors ss vertex) as [|ni nbrs] eqn:Hn; [reflexivity|].
    rewrite positive_float_nonzero; [reflexivity|].
    apply count_f32_positive. discriminate.
  - intros Hn fdiv. unfold calc_cavity_with. rewrite Hn. reflexivity.
Qed.

Lemma calc_cavity_formula_witness :
  calc_cavity_with (fun _ _ => S754_nan) isolated_vertex 0 = F32.zero
  /\ SCULPT_calc_cavity stacked_pair 0 = cavity_as_worded stacked_pair 0.
Proof.
  split.
  - apply (calc_cavity_formula isolated_vertex 0). reflexivity.
  - apply (calc_cavity_formula stacked_pair 0).
Defined.

(** ** Boundary falloff *)

(** The numbers along the computation of [boundary_multiplier]: the
    quotient, [p], its square and the result are canonical and at most 1. *)
Lemma multiplier_chain (d : Z) (fN : float) :
  0 <= d < 2 ^ 32 ->
  canonical_nonneg fN ->
  (1 <= F2Q fN)%Q ->
  (F2Q (F32.of_Z d) <= F2Q fN)%Q ->
  (F2Q (F32.of_Z d) <= pow2 31)%Q ->
  let q := (F32.of_Z d / fN)%f32 in
  let p := (F32.one - q)%f32 in
  let s := pow2f p in
  exists my ey,
    fN = S754_finite false my ey
    /\ (forall mx ex, F32.of_Z d = S754_finite false mx ex ->
                      Z.pos (digits2_pos mx) + ex - ey <= 127)
    /\ canonical_nonneg q /\ (F2Q q <= 1)%Q
    /\ canonical_nonneg p /\ (F2Q p <= 1)%Q
    /\ canonical_nonneg s /\ (F2Q s <= 1)%Q
    /\ canonical_nonneg (F32.one - s)%f32.
Proof.
  intros Hd HcN HN1 HdN Hd31 q p s.
  assert (Hcd := of_Z_canonical d Hd).
  destruct fN as [[|]| | |[|] my ey] eqn:EN; cbn [canonical_nonneg] in HcN;
    try contradiction;
    try (exfalso; change (F2Q (S754_zero false)) with 0%Q in HN1; lra).
  assert (Hey := exponent_of_value_ge_one my ey HcN HN1).
  assert (Hmag : forall mx ex, F32.of_Z d = S754_finite false mx ex ->
                               Z.pos (digits2_pos mx) + ex - ey <= 127).
  { intros mx ex E. rewrite E in Hd31. apply magnitude_of_value in Hd31. lia. }
  assert (Hq := div_canonical _ my ey Hcd Hmag).
  assert (Hq1 := div_le_one _ my ey Hcd Hmag HdN).
  assert (Hp := sub_one_canonical _ Hq Hq1).
  assert (Hp1 := sub_one_le_one _ Hq Hq1).
  assert (Hs := mul_self_canonical _ Hp Hp1).
  assert (Hs1 := mul_self_le_one _ Hp Hp1).
  assert (Hr := sub_one_canonical _ Hs Hs1).
  exists my, ey. repeat split; assumption.
Qed.

Lemma of_Z_bounds (z N : Z) :
  0 <= z <= N -> 1 <= N -> N < 2 ^ 31 ->
  (F2Q (F32.of_Z z) <= F2Q (F32.of_Z N))%Q
  /\ (F2Q (F32.of_Z z) <= pow2 31)%Q
  /\ (1 <= F2Q (F32.of_Z N))%Q.
Proof.
  intros Hz HN1 HN.
  assert (H32 : 2 ^ 31 < 2 ^ 32) by reflexivity.
  split; [apply of_Z_mono; lia|]. split.
  - assert (H := of_Z_mono z (2 ^ 31) ltac:(lia) H32).
    assert (E : (F2Q (F32.of_Z (2 ^ 31)) == pow2 31)%Q) by (vm_compute; reflexivity).
    rewrite E in H. exact H.
  - assert (H := of_Z_mono 1 N ltac:(lia) ltac:(lia)).
    change (F32.of_Z 1) with F32.one in H. rewrite F2Q_one in H. exact H.
Qed.

(** The multiplier does not decrease when the distance grows from 0 to the
    number of steps. *)
Lemma boundary_multiplier_monotone (d1 d2 N : Z) :
  0 <= d1 -> d1 <= d2 -> d2 <= N -> 1 <= N -> N < 2 ^ 31 ->
  F32.leb (boundary_multiplier d1 N) (boundary_multiplier d2 N) = true.
Proof.
  intros H0 H12 H2N HN1 HN.
  assert (H32 : 2 ^ 31 < 2 ^ 32) by reflexivity.
  destruct (of_Z_bounds d1 N ltac:(lia) HN1 HN) as (A1 & B1 & C).
  destruct (of_Z_bounds d2 N ltac:(lia) HN1 HN) as (A2 & B2 & _).
  assert (HcN := of_Z_canonical N ltac:(lia)).
  destruct (multiplier_chain d1 (F32.of_Z N) ltac:(lia) HcN C A1 B1)
    as (my & ey & EN & Hm1 & Hq1 & Hq1' & Hp1 & Hp1' & Hs1 & Hs1' & Hr1).
  destruct (multiplier_chain d2 (F32.of_Z N) ltac:(lia) HcN C A2 B2)
    as (my' & ey' & EN' & Hm2 & Hq2 & Hq2' & Hp2 & Hp2' & Hs2 & Hs2' & Hr2).
  rewrite EN in EN'. injection EN' as <- <-.
  unfold boundary_multiplier. cbv zeta.
  apply leb_of_values; try assumption.
  apply sub_one_antitone; try assumption.
  apply mul_self_mono; try assumption.
  apply sub_one_antitone; try assumption.
  rewrite EN. apply div_mono; try assumption; try (apply of_Z_canonical; lia).
  apply of_Z_mono; lia.
Qed.

(** The last loop of the boundary initializer, entry by entry. *)
Lemma boundary_apply_lookup (ss : SculptSession) (edge_distance : list Z)
    (propagation_steps : Z) (automask_factor : list float) (v : nat) :
  length automask_factor = totvert ss ->
  (v < totvert ss)%nat ->
  boundary_apply ss edge_distance propagation_steps automask_factor !! v
  = Some (if arr_get 0 edge_distance v =? EDGE_DISTANCE_INF
          then arr_get F32.zero automask_factor v
          else (arr_get F32.zero automask_factor v
                * boundary_multiplier (arr_get 0 edge_distance v) propagation_steps)%f32).
Proof.
  intros Hlen Hv. unfold boundary_apply.
  set (target := fun j =>
         if arr_get 0 edge_distance j =? EDGE_DISTANCE_INF
         then arr_get F32.zero automask_factor j
         else (arr_get F32.zero automask_factor j
               * boundary_multiplier (arr_get 0 edge_distance j) propagation_steps)%f32).
  change (Some _) with (Some (target v)).
  enough (H : length (for_range (totvert ss)
                        (fun i a =>
                           if arr_get 0 edge_distance i =? EDGE_DISTANCE_INF then a
                           else <[i := (arr_get F32.zero a i
                                        * boundary_multiplier (arr_get 0 edge_distance i)
                                            propagation_steps)%f32]> a)
                        automask_factor) = totvert ss
              /\ forall j, for_range (totvert ss)
                        (fun i a =>
                           if arr_get 0 edge_distance i =? EDGE_DISTANCE_INF then a
                           else <[i := (arr_get F32.zero a i
                                        * boundary_multiplier (arr_get 0 edge_distance i)
                                            propagation_steps)%f32]> a)
                        automask_factor !! j
                     = if (j <? totvert ss)%nat then Some (target j)
                       else automask_factor !! j).
  { destruct H as [_ H]. rewrite H.
    replace (v <? totvert ss)%nat with true; [reflexivity|].
    symmetry. apply Nat.ltb_lt. exact Hv. }
  apply (for_range_invariant
           (fun k cur => length cur = totvert ss
                         /\ forall j, cur !! j
                                      = if (j <? k)%nat then Some (target j)
                                        else automask_factor !! j)).
  - split; [exact Hlen|]. intros j. reflexivity.
  - intros i cur Hi [Hl Hcur].
    assert (Hi' : cur !! i = automask_factor !! i).
    { rewrite Hcur, Nat.ltb_irrefl. reflexivity. }
    destruct (automask_factor !! i) as [x|] eqn:Hx;
      [|apply lookup_ge_None in Hx; lia].
    assert (Ht : Some (target i)
                 = Some (if arr_get 0 edge_distance i =? EDGE_DISTANCE_INF then x
                         else (x * boundary_multiplier (arr_get 0 edge_distance i)
                                     propagation_steps)%f32)).
    { unfold target. rewrite (arr_get_lookup _ _ _ _ Hx). reflexivity. }
    rewrite (arr_get_lookup _ _ _ _ Hi').
    destruct (arr_get 0 edge_distance i =? EDGE_DISTANCE_INF).
    + split; [exact Hl|]. intros j. rewrite Hcur.
      destruct (Nat.ltb_spec j i), (Nat.ltb_spec j (S i)); try reflexivity; try lia.
      assert (j = i) as -> by lia. rewrite Ht. exact Hx.
    + rewrite length_insert. split; [exact Hl|]. intros j.
      destruct (decide (j = i)) as [->|Hne].
      * rewrite list_lookup_insert_eq by lia.
        replace (i <? S i)%nat with true by (symmetry; apply Nat.ltb_lt; lia).
        rewrite Ht. reflexivity.
      * rewrite list_lookup_insert_ne by congruence. rewrite Hcur.
        destruct (Nat.ltb_spec j i), (Nat.ltb_spec j (S i)); try reflexivity; lia.
Qed.

(** C5: a vertex the propagation reached has its factor multiplied by
    [1 - (1 - d/N)^2], one it did not reach keeps its factor; the multiplier
    does not decrease as [d] goes from 0 to [N]; and for [N = 2] the
    multipliers at distances 0, 1, 2 are exactly 0, 0.75 and 1.0, which on
    the chain 0-1-2-3-4 gives the factors 0, 0.75, 1.0, 0.75, 0. *)
Theorem boundary_falloff
    (ob : Object) (mode : eBoundaryAutomaskMode) (propagation_steps : Z)
    (automask_factor : list float) :
  pmap (sculpt ob) = true ->
  length automask_factor = totvert (sculpt ob) ->
  1 <= propagation_steps < 2 ^ 31 ->
  let ss := sculpt ob in
  let edge_distance := boundary_edge_distance ss mode propagation_steps in
  let result := SCULPT_boundary_automasking_init ob mode propagation_steps automask_factor in
  (forall v, (v < totvert ss)%nat ->
     init_factor result !! v
     = Some (if arr_get 0 edge_distance v =? EDGE_DISTANCE_INF
             then arr_get F32.zero automask_factor v
             else (arr_get F32.zero automask_factor v
                   * boundary_multiplier (arr_get 0 edge_distance v) propagation_steps)%f32))
  /\ (forall d,
        boundary_multiplier d propagation_steps
        = (F32.one - pow2f (F32.one - F32.of_Z d / F32.of_Z propagation_steps))%f32)
  /\ (forall d1 d2,
        0 <= d1 -> d1 <= d2 -> d2 <= propagation_steps ->
        F32.leb (boundary_multiplier d1 propagation_steps)
                (boundary_multiplier d2 propagation_steps) = true)
  /\ (boundary_multiplier 0 2 = F32.zero
      /\ boundary_multiplier 1 2 = F32.three_quarters
      /\ boundary_multiplier 2 2 = F32.one
      /\ init_factor
           (SCULPT_boundary_automasking_init {| sculpt := chain5 |}
              AUTOMASK_INIT_BOUNDARY_EDGES 2 (replicate 5 F32.one))
         = [F32.zero; F32.three_quarters; F32.one; F32.three_quarters; F32.zero]).
Proof.
  intros Hp Hlen Hsteps ss edge_distance result. split; [|split; [|split]].
  - intros v Hv. unfold result, SCULPT_boundary_automasking_init. fold ss.
    unfold ss at 1. rewrite Hp. cbn [negb init_ok init_factor].
    apply boundary_apply_lookup; assumption.
  - reflexivity.
  - intros d1 d2 H0 H12 H2. apply boundary_multiplier_monotone; lia.
  - repeat split; vm_compute; reflexivity.
Qed.

Lemma boundary_falloff_witness :
  F32.leb (boundary_multiplier 3 7) (boundary_multiplier 5 7) = true
  /\ init_factor
       (SCULPT_boundary_automasking_init {| sculpt := chain5 |}
          AUTOMASK_INIT_BOUNDARY_EDGES 1 (replicate 5 F32.one)) !! 2%nat
     = Some F32.one.
Proof.
  destruct (boundary_falloff {| sculpt := chain5 |} AUTOMASK_INIT_BOUNDARY_EDGES 7
              (replicate 5 F32.one) eq_refl eq_refl ltac:(split; [lia|reflexivity]))
    as (_ & _ & Hmono & _).
  destruct (boundary_falloff {| sculpt := chain5 |} AUTOMASK_INIT_BOUNDARY_EDGES 1
              (replicate 5 F32.one) eq_refl eq_refl ltac:(split; [lia|reflexivity]))
    as (Hv & _).
  split.
  - apply Hmono; lia.
  - rewrite Hv by (simpl; lia). reflexivity.
Defined.

(** ** Enabling and creating the cache *)

Lemma enabled_as_existsb (sd : Sculpt) (ss : SculptSession) (br : option Brush) :
  SCULPT_is_automasking_enabled sd ss br
  = negb match br with Some b => stroke_is_dynamic_topology ss b | None => false end
    && existsb (flag_set (sculpt_automasking_mode_effective_bits sd br)) strategy_bits.
Proof.
  unfold SCULPT_is_automasking_enabled. rewrite !mode_enabled_effective.
  destruct (match br with Some b => stroke_is_dynamic_topology ss b | None => false end);
    [reflexivity|].
  cbn [negb andb existsb strategy_bits].
  repeat match goal with |- context [flag_set ?f ?m] => destruct (flag_set f m); simpl end;
    reflexivity.
Qed.

(** X1: automasking is enabled exactly when the stroke is not a dynamic
    topology stroke of the brush and one of the five strategy bits is set in
    the brush or in the scene; the invert bit alone enables nothing. *)
Theorem automasking_enabled_iff (sd : Sculpt) (ss : SculptSession) (br : option Brush) :
  (SCULPT_is_automasking_enabled sd ss br = true <->
   match br with Some b => stroke_is_dynamic_topology ss b | None => false end = false
   /\ exists mode, In mode strategy_bits
                   /\ flag_set (sculpt_automasking_mode_effective_bits sd br) mode = true)
  /\ (forall mode, SCULPT_is_automasking_mode_enabled sd br mode
                   = flag_set (sculpt_automasking_mode_effective_bits sd br) mode)
  /\ (sculpt_automasking_mode_effective_bits sd br = BRUSH_AUTOMASKING_CAVITY_INVERT ->
      SCULPT_is_automasking_enabled sd ss br = false).
Proof.
  split; [|split].
  - rewrite enabled_as_existsb, andb_true_iff, negb_true_iff, existsb_exists. reflexivity.
  - intros mode. apply mode_enabled_effective.
  - intros Hbits. rewrite enabled_as_existsb, Hbits.
    destruct (match br with Some b => stroke_is_dynamic_topology ss b | None => false end);
      reflexivity.
Qed.

Lemma automasking_enabled_iff_witness :
  SCULPT_is_automasking_enabled
    (scene_of BRUSH_AUTOMASKING_CAVITY_INVERT None)
    chain5 (Some (brush_of 0 1 F32.one)) = false.
Proof.
  apply (automasking_enabled_iff (scene_of BRUSH_AUTOMASKING_CAVITY_INVERT None)
           chain5 (Some (brush_of 0 1 F32.one))).
  reflexivity.
Defined.

Lemma topology_init_outcome (sd : Sculpt) (ob : Object) (a : list float) :
  SCULPT_topology_automasking_init sd ob a = NullDeref <->
  pmap_missing_for_faces (sculpt ob) = false
  /\ stroke_cache (sculpt ob) = true
  /\ paint_brush sd = None.
Proof.
  unfold SCULPT_topology_automasking_init, pmap_missing_for_faces.
  destruct (match pbvh_type (sculpt ob) with PBVH_FACES => negb (pmap (sculpt ob)) | _ => false end).
  { split; [discriminate|]. intros (H & _). discriminate. }
  destruct (stroke_cache (sculpt ob)); [|split; [discriminate|intros (_ & H & _); discriminate]].
  destruct (paint_brush sd); simpl; [split; [discriminate|intros (_ & _ & H); discriminate]|].
  split; auto.
Qed.



(** What a returned cache says about the call that made it. *)
Lemma cache_init_some (sd : Sculpt) (brush : option Brush) (ob : Object)
    (c : AutomaskingCache) :
  SCULPT_automasking_cache_init sd brush ob = Done (Some c) ->
  SCULPT_is_automasking_enabled sd (sculpt ob) brush = true
  /\ exists b,
       brush = Some b
       /\ settings c
          = {| flags := sculpt_automasking_mode_effective_bits sd (Some b);
               initial_face_set := active_face_set (sculpt ob);
               cavity_factor := automasking_cavity_factor b |}
       /\ (factor c = None <-> SCULPT_automasking_needs_factors_cache sd (Some b) = false).
Proof.
  intros Hinit. unfold SCULPT_automasking_cache_init in Hinit.
  destruct (SCULPT_is_automasking_enabled sd (sculpt ob) brush); cbn [negb] in Hinit;
    [|discriminate].
  split; [reflexivity|].
  destruct brush as [b|]; cbn [SCULPT_automasking_cache_settings_update bind] in Hinit;
    [|discriminate].
  exists b. split; [reflexivity|].
  destruct (SCULPT_automasking_needs_factors_cache sd (Some b)); cbn [negb] in Hinit.
  - match type of Hinit with
    | bind ?m _ = _ => destruct m as [f|]; cbn [bind] in Hinit; [|discriminate]
    end.
    injection Hinit as <-. cbn [settings factor]. split; [reflexivity|].
    split; discriminate.
  - injection Hinit as <-. cbn [settings factor]. split; [reflexivity|].
    split; reflexivity.
Qed.

(** X3: the settings of a cache that [SCULPT_automasking_cache_init]
    returns record the stroke: its flags answer every mode test as the
    brush and scene do, its face set is the active one, and its cavity
    factor is the brush's. *)
Theorem cache_init_settings
    (sd : Sculpt) (brush : option Brush) (ob : Object) (c : AutomaskingCache) :
  SCULPT_automasking_cache_init sd brush ob = Done (Some c) ->
  (forall mode, flag_set (flags (settings c)) mode
                = SCULPT_is_automasking_mode_enabled sd brush mode)
  /\ initial_face_set (settings c) = active_face_set (sculpt ob)
  /\ exists b, brush = Some b
               /\ cavity_factor (settings c) = automasking_cavity_factor b
               /\ stroke_is_dynamic_topology (sculpt ob) b = false.
Proof.
  intros Hinit.
  destruct (cache_init_some sd brush ob c Hinit) as (He & b & -> & Hs & _).
  rewrite Hs. cbn [flags initial_face_set cavity_factor].
  split; [|split; [reflexivity|]].
  - intros mode. symmetry. apply mode_enabled_effective.
  - exists b. split; [reflexivity|]. split; [reflexivity|].
    rewrite enabled_as_existsb in He. apply andb_true_iff in He.
    destruct He as [He _]. apply negb_true_iff in He. exact He.
Qed.

Lemma cache_init_settings_witness :
  exists c,
    SCULPT_automasking_cache_init
      (scene_of BRUSH_AUTOMASKING_FACE_SETS None)
      (Some (brush_of BRUSH_AUTOMASKING_BOUNDARY_EDGES 1 F32.half))
      {| sculpt := chain5 |} = Done (Some c)
    /\ flag_set (flags (settings c)) BRUSH_AUTOMASKING_FACE_SETS = true
    /\ initial_face_set (settings c) = 1.
Proof.
  destruct (SCULPT_automasking_cache_init
              (scene_of BRUSH_AUTOMASKING_FACE_SETS None)
              (Some (brush_of BRUSH_AUTOMASKING_BOUNDARY_EDGES 1 F32.half))
              {| sculpt := chain5 |}) as [[c|]|] eqn:E;
    [|vm_compute in E; discriminate..].
  exists c. split; [reflexivity|].
  destruct (cache_init_settings _ _ _ c E) as (Hf & Hs & _).
  split; [rewrite Hf; reflexivity|exact Hs].
Defined.

(** ** The whole-mesh initializers, entry by entry *)

(** A loop whose iteration [i] stores a function of entry [i] at entry [i]
    is a map over the array. *)
Lemma for_range_entrywise {A} (body : nat -> list A -> list A) (g : nat -> A -> A)
    (n : nat) (a : list A) :
  (forall i s x, s !! i = Some x -> body i s = <[i := g i x]> s) ->
  (n <= length a)%nat ->
  length (for_range n body a) = length a
  /\ forall j, for_range n body a !! j
               = if (j <? n)%nat then g j <$> (a !! j) else a !! j.
Proof.
  intros Hbody. induction n as [|n IH]; intros Hn.
  - split; [reflexivity|]. intros j. reflexivity.
  - destruct IH as [Hl Hlook]; [lia|]. rewrite for_range_S.
    set (s := for_range n body a) in *.
    destruct (a !! n) as [x|] eqn:Hx; [|apply lookup_ge_None in Hx; lia].
    assert (Hs : s !! n = Some x).
    { rewrite Hlook, Nat.ltb_irrefl. exact Hx. }
    rewrite (Hbody n s x Hs), length_insert. split; [exact Hl|].
    intros j. destruct (decide (j = n)) as [->|Hne].
    + rewrite list_lookup_insert_eq by lia.
      replace (n <? S n)%nat with true by (symmetry; apply Nat.ltb_lt; lia).
      rewrite Hx. reflexivity.
    + rewrite list_lookup_insert_ne by congruence. rewrite Hlook.
      destruct (Nat.ltb_spec j n), (Nat.ltb_spec j (S n)); try reflexivity; lia.
Qed.

Lemma for_range_entrywise_lookup {A} (d : A) (body : nat -> list A -> list A)
    (g : nat -> A -> A) (n : nat) (a : list A) (v : nat) :
  (forall i s x, s !! i = Some x -> body i s = <[i := g i x]> s) ->
  length a = n ->
  (v < n)%nat ->
  length (for_range n body a) = n
  /\ for_range n body a !! v = Some (g v (arr_get d a v)).
Proof.
  intros Hbody Hlen Hv.
  destruct (for_range_entrywise body g n a Hbody) as [Hl Hlook]; [lia|].
  split; [lia|]. rewrite Hlook.
  replace (v <? n)%nat with true by (symmetry; apply Nat.ltb_lt; lia).
  destruct (a !! v) as [x|] eqn:Hx; [|apply lookup_ge_None in Hx; lia].
  rewrite (arr_get_lookup _ _ _ _ Hx). reflexivity.
Qed.

Lemma insert_same {A} (s : list A) (i : nat) (x : A) : s !! i = Some x -> <[i := x]> s = s.
Proof. intros H. apply list_insert_id. exact H. Qed.

(** *** Topology *)

Lemma floodfill_fold_lookup (visits : list (nat * nat)) (a : list float) (v : nat) :
  length (fold_left (fun a '(from_v, to_v) => automask_floodfill_cb from_v to_v a) visits a)
  = length a
  /\ fold_left (fun a '(from_v, to_v) => automask_floodfill_cb from_v to_v a) visits a !! v
     = if existsb (fun '(from_v, to_v) => (from_v =? v)%nat || (to_v =? v)%nat) visits
          && (v <? length a)%nat
       then Some F32.one
       else a !! v.
Proof.
  revert a. induction visits as [|[f t] visits IH]; intros a.
  - split; reflexivity.
  - cbn [fold_left existsb].
    destruct (IH (automask_floodfill_cb f t a)) as [Hl Hlook].
    assert (Hla : length (automask_floodfill_cb f t a) = length a).
    { unfold automask_floodfill_cb. rewrite !length_insert. reflexivity. }
    rewrite Hl, Hlook, Hla. split; [reflexivity|].
    destruct (Nat.ltb_spec v (length a)) as [Hv|Hv].
    2:{ rewrite !andb_false_r. unfold automask_floodfill_cb.
        rewrite !(proj2 (lookup_ge_None _ _)); rewrite ?length_insert; try lia.
        reflexivity. }
    rewrite !andb_true_r.
    destruct (existsb _ visits); [rewrite orb_true_r; reflexivity|].
    rewrite orb_false_r. unfold automask_floodfill_cb.
    destruct (Nat.eqb_spec f v) as [->|Hf]; cbn [orb].
    { apply list_lookup_insert_eq. rewrite length_insert. exact Hv. }
    rewrite list_lookup_insert_ne by exact Hf.
    destruct (Nat.eqb_spec t v) as [->|Ht].
    { apply list_lookup_insert_eq. exact Hv. }
    apply list_lookup_insert_ne. exact Ht.
Qed.

Lemma topology_init_shape (sd : Sculpt) (ob : Object) (a : list float) (r : init_result) :
  SCULPT_topology_automasking_init sd ob a = Done r ->
  (pmap_missing_for_faces (sculpt ob) = true
   /\ init_returned r = false /\ init_factor r = a)
  \/ (pmap_missing_for_faces (sculpt ob) = false
      /\ init_returned r = true
      /\ init_factor r
         = fold_left (fun a '(from_v, to_v) => automask_floodfill_cb from_v to_v a)
             (floodfill_visits (sculpt ob) (topology_use_radius sd (sculpt ob)))
             (for_range (totvert (sculpt ob)) (fun i a => <[i := F32.zero]> a) a)).
Proof.
  intros Hr. unfold pmap_missing_for_faces, topology_use_radius.
  unfold SCULPT_topology_automasking_init in Hr.
  destruct (match pbvh_type (sculpt ob) with PBVH_FACES => negb (pmap (sculpt ob)) | _ => false end).
  { injection Hr as <-. left. auto. }
  right. split; [reflexivity|].
  destruct (stroke_cache (sculpt ob)); [destruct (paint_brush sd) as [b|]|];
    cbn [bind andb] in Hr; try discriminate; injection Hr as <-;
    cbn [init_factor init_ok init_returned]; (split; [reflexivity|]); try reflexivity.
  destruct (paint_brush sd); reflexivity.
Qed.

Lemma topology_init_length (sd : Sculpt) (ob : Object) (a : list float) (r : init_result) :
  SCULPT_topology_automasking_init sd ob a = Done r ->
  length a = totvert (sculpt ob) ->
  length (init_factor r) = totvert (sculpt ob).
Proof.
  intros Hr Hlen.
  destruct (topology_init_shape sd ob a r Hr) as [(_ & _ & ->)|(_ & _ & ->)]; [exact Hlen|].
  destruct (floodfill_fold_lookup
              (floodfill_visits (sculpt ob) (topology_use_radius sd (sculpt ob)))
              (for_range (totvert (sculpt ob)) (fun i a => <[i := F32.zero]> a) a) 0%nat)
    as [-> _].
  destruct (for_range_entrywise (fun i a => <[i := F32.zero]> a) (fun _ _ => F32.zero)
              (totvert (sculpt ob)) a) as [-> _]; [reflexivity|lia|exact Hlen].
Qed.

Lemma topology_init_lookup
    (sd : Sculpt) (ob : Object) (a : list float) (r : init_result) (v : nat) :
  SCULPT_topology_automasking_init sd ob a = Done r ->
  length a = totvert (sculpt ob) ->
  (v < totvert (sculpt ob))%nat ->
  init_factor r !! v = Some (topology_term sd (sculpt ob) v (arr_get F32.zero a v)).
Proof.
  intros Hr Hlen Hv. unfold topology_term.
  destruct (topology_init_shape sd ob a r Hr) as [(-> & _ & ->)|(-> & _ & ->)].
  { destruct (a !! v) as [x|] eqn:Hx; [|apply lookup_ge_None in Hx; lia].
    rewrite (arr_get_lookup _ _ _ _ Hx). reflexivity. }
  set (zeroed := for_range (totvert (sculpt ob)) (fun i a => <[i := F32.zero]> a) a).
  assert (Hz : length zeroed = totvert (sculpt ob) /\ zeroed !! v = Some F32.zero).
  { apply (for_range_entrywise_lookup F32.zero _ (fun _ _ => F32.zero)); try assumption.
    intros i s x _. reflexivity. }
  destruct Hz as [Hzl Hzv].
  destruct (floodfill_fold_lookup
              (floodfill_visits (sculpt ob) (topology_use_radius sd (sculpt ob))) zeroed v)
    as [_ ->].
  rewrite Hzl, Hzv. unfold floodfill_reached.
  replace (v <? totvert (sculpt ob))%nat with true by (symmetry; apply Nat.ltb_lt; lia).
  rewrite andb_true_r.
  destruct (existsb _ (floodfill_visits (sculpt ob) _)); reflexivity.
Qed.

(** *** Face sets *)

Lemma face_sets_init_length (sd : Sculpt) (ob : Object) (a : list float) :
  length a = totvert (sculpt ob) ->
  length (init_factor (sculpt_face_sets_automasking_init sd ob a)) = totvert (sculpt ob).
Proof.
  intros Hlen. unfold sculpt_face_sets_automasking_init.
  destruct (SCULPT_is_automasking_enabled sd (sculpt ob) (paint_brush sd));
    cbn [negb]; [|exact Hlen].
  destruct (match pbvh_type (sculpt ob) with PBVH_FACES => negb (pmap (sculpt ob)) | _ => false end);
    [exact Hlen|].
  cbn [init_factor init_ok]. rewrite <- Hlen at 2.
  apply (for_range_entrywise _
           (fun i x => if negb (vertex_has_face_set (sculpt ob) i (active_face_set (sculpt ob)))
                       then (x * F32.zero)%f32 else x)); [|lia].
  intros i s x Hs. rewrite (arr_get_lookup _ _ _ _ Hs).
  destruct (negb _); [reflexivity | symmetry; apply insert_same; exact Hs].
Qed.

Lemma face_sets_init_lookup (sd : Sculpt) (ob : Object) (a : list float) (v : nat) :
  length a = totvert (sculpt ob) ->
  (v < totvert (sculpt ob))%nat ->
  init_factor (sculpt_face_sets_automasking_init sd ob a) !! v
  = Some (face_sets_term sd (sculpt ob) v (arr_get F32.zero a v)).
Proof.
  intros Hlen Hv. unfold sculpt_face_sets_automasking_init, face_sets_term, paint_pass_runs,
    pmap_missing_for_faces.
  assert (Hid : a !! v = Some (arr_get F32.zero a v)).
  { destruct (a !! v) as [x|] eqn:Hx; [|apply lookup_ge_None in Hx; lia].
    rewrite (arr_get_lookup _ _ _ _ Hx). reflexivity. }
  destruct (SCULPT_is_automasking_enabled sd (sculpt ob) (paint_brush sd));
    cbn [negb andb init_factor init_failed init_returned]; [|auto].
  destruct (match pbvh_type (sculpt ob) with PBVH_FACES => negb (pmap (sculpt ob)) | _ => false end);
    cbn [negb andb init_factor init_failed init_ok init_returned]; [auto|].
  apply (for_range_entrywise_lookup F32.zero _
           (fun i x => if negb (vertex_has_face_set (sculpt ob) i (active_face_set (sculpt ob)))
                       then (x * F32.zero)%f32 else x) _ _ v); try assumption.
  intros i s x Hs. rewrite (arr_get_lookup _ _ _ _ Hs).
  destruct (negb _); [reflexivity | symmetry; apply insert_same; exact Hs].
Qed.

(** *** Cavity *)

Lemma cavity_multiply_entrywise (c : AutomaskingCache) (ss : SculptSession)
    (i : nat) (s : list float) (x : float) :
  s !! i = Some x ->
  <[i := (arr_get F32.zero s i * sculpt_automasking_cavity_factor c ss i)%f32]> s
  = <[i := (x * sculpt_automasking_cavity_factor c ss i)%f32]> s.
Proof. intros Hs. rewrite (arr_get_lookup _ _ _ _ Hs). reflexivity. Qed.

Lemma cavity_multiply_length (c : AutomaskingCache) (ss : SculptSession) (a : list float) :
  length a = totvert ss -> length (cavity_multiply c ss a) = totvert ss.
Proof.
  intros Hlen. unfold cavity_multiply. rewrite <- Hlen at 2.
  apply (for_range_entrywise _ (fun i x => (x * sculpt_automasking_cavity_factor c ss i)%f32));
    [|lia].
  intros i s x Hs. apply cavity_multiply_entrywise. exact Hs.
Qed.

Lemma cavity_multiply_lookup (c : AutomaskingCache) (ss : SculptSession)
    (a : list float) (v : nat) :
  length a = totvert ss ->
  (v < totvert ss)%nat ->
  cavity_multiply c ss a !! v
  = Some (arr_get F32.zero a v * sculpt_automasking_cavity_factor c ss v)%f32.
Proof.
  intros Hlen Hv. unfold cavity_multiply.
  apply (for_range_entrywise_lookup F32.zero _
           (fun i x => (x * sculpt_automasking_cavity_factor c ss i)%f32)); try assumption.
  intros i s x Hs. apply cavity_multiply_entrywise. exact Hs.
Qed.

Lemma cavity_init_length (sd : Sculpt) (ob : Object) (c : AutomaskingCache)
    (a : list float) (steps : Z) :
  length a = totvert (sculpt ob) ->
  length (init_factor (sculpt_cavity_automasking_init sd ob c a steps)) = totvert (sculpt ob).
Proof.
  intros Hlen. unfold sculpt_cavity_automasking_init.
  destruct (SCULPT_is_automasking_enabled sd (sculpt ob) (paint_brush sd));
    cbn [negb]; [|exact Hlen].
  destruct (match pbvh_type (sculpt ob) with PBVH_FACES => negb (pmap (sculpt ob)) | _ => false end);
    [exact Hlen|].
  destruct (1 <? steps); cbn [init_factor init_ok].
  - rewrite <- Hlen at 2.
    apply (for_range_entrywise _
             (fun i x => (x * arr_get F32.zero (cavity_blurred c (sculpt ob) steps) i)%f32));
      [|lia].
    intros i s x Hs. rewrite (arr_get_lookup _ _ _ _ Hs). reflexivity.
  - apply cavity_multiply_length. exact Hlen.
Qed.

Lemma cavity_init_lookup (sd : Sculpt) (ob : Object) (c : AutomaskingCache)
    (a : list float) (steps : Z) (v : nat) :
  length a = totvert (sculpt ob) ->
  (v < totvert (sculpt ob))%nat ->
  init_factor (sculpt_cavity_automasking_init sd ob c a steps) !! v
  = Some (cavity_term sd (sculpt ob) c steps v (arr_get F32.zero a v)).
Proof.
  intros Hlen Hv. unfold sculpt_cavity_automasking_init, cavity_term, paint_pass_runs,
    pmap_missing_for_faces.
  assert (Hid : a !! v = Some (arr_get F32.zero a v)).
  { destruct (a !! v) as [x|] eqn:Hx; [|apply lookup_ge_None in Hx; lia].
    rewrite (arr_get_lookup _ _ _ _ Hx). reflexivity. }
  destruct (SCULPT_is_automasking_enabled sd (sculpt ob) (paint_brush sd));
    cbn [negb andb init_factor init_failed init_returned]; [|auto].
  destruct (match pbvh_type (sculpt ob) with PBVH_FACES => negb (pmap (sculpt ob)) | _ => false end);
    cbn [negb andb init_factor init_failed init_ok init_returned]; [auto|].
  destruct (1 <? steps); cbn [init_factor init_ok init_returned].
  - apply (for_range_entrywise_lookup F32.zero _
             (fun i x => (x * arr_get F32.zero (cavity_blurred c (sculpt ob) steps) i)%f32)
             _ _ v); try assumption.
    intros i s x Hs. rewrite (arr_get_lookup _ _ _ _ Hs). reflexivity.
  - apply cavity_multiply_lookup; assumption.
Qed.

(** *** Boundaries *)

Lemma boundary_apply_length (ss : SculptSession) (edge_distance : list Z)
    (propagation_steps : Z) (a : list float) :
  length (boundary_apply ss edge_distance propagation_steps a) = length a.
Proof.
  unfold boundary_apply.
  apply (for_range_invariant (fun _ cur => length cur = length a)); [reflexivity|].
  intros i s _ Hs. destruct (_ =? _); [exact Hs|]. rewrite length_insert. exact Hs.
Qed.

Lemma boundary_init_length (ob : Object) (mode : eBoundaryAutomaskMode) (steps : Z)
    (a : list float) :
  length (init_factor (SCULPT_boundary_automasking_init ob mode steps a)) = length a.
Proof.
  unfold SCULPT_boundary_automasking_init.
  destruct (pmap (sculpt ob)); cbn [negb init_factor init_failed init_ok]; [|reflexivity].
  apply boundary_apply_length.
Qed.

Lemma boundary_init_lookup (ob : Object) (mode : eBoundaryAutomaskMode) (steps : Z)
    (a : list float) (v : nat) :
  length a = totvert (sculpt ob) ->
  (v < totvert (sculpt ob))%nat ->
  init_factor (SCULPT_boundary_automasking_init ob mode steps a) !! v
  = Some (boundary_term (sculpt ob) mode steps v (arr_get F32.zero a v)).
Proof.
  intros Hlen Hv. unfold SCULPT_boundary_automasking_init, boundary_term.
  assert (Hid : a !! v = Some (arr_get F32.zero a v)).
  { destruct (a !! v) as [x|] eqn:Hx; [|apply lookup_ge_None in Hx; lia].
    rewrite (arr_get_lookup _ _ _ _ Hx). reflexivity. }
  destruct (pmap (sculpt ob)); cbn [negb init_factor init_failed init_ok init_returned];
    [|auto].
  cbv zeta. apply boundary_apply_lookup; assumption.
Qed.

(** ** The factor array of the cache *)

(** X4: when the Topology initializer goes past its tests, it overwrites the
    whole array: whatever the array held before, every vertex the flood fill
    visited, as either end of an edge, ends at exactly 1.0 and every other
    vertex at exactly 0.0. *)
Theorem topology_init_marks_reached
    (sd : Sculpt) (ob : Object) (a a' : list float) (r : init_result) :
  SCULPT_topology_automasking_init sd ob a = Done r ->
  init_returned r = true ->
  length a = totvert (sculpt ob) ->
  length a' = totvert (sculpt ob) ->
  length (init_factor r) = totvert (sculpt ob)
  /\ (forall v, (v < totvert (sculpt ob))%nat ->
        init_factor r !! v
        = Some (if floodfill_reached (sculpt ob) (topology_use_radius sd (sculpt ob)) v
                then F32.one else F32.zero))
  /\ exists r', SCULPT_topology_automasking_init sd ob a' = Done r'
                /\ init_factor r' = init_factor r.
Proof.
  intros Hr Hret Hlen Hlen'.
  assert (Hpm : pmap_missing_for_faces (sculpt ob) = false).
  { destruct (topology_init_shape sd ob a r Hr) as [(_ & H & _)|(H & _)]; congruence. }
  assert (Hlook : forall b r0, SCULPT_topology_automasking_init sd ob b = Done r0 ->
            length b = totvert (sculpt ob) ->
            forall v, (v < totvert (sculpt ob))%nat ->
              init_factor r0 !! v
              = Some (if floodfill_reached (sculpt ob) (topology_use_radius sd (sculpt ob)) v
                      then F32.one else F32.zero)).
  { intros b r0 Hr0 Hb v Hv.
    rewrite (topology_init_lookup sd ob b r0 v Hr0 Hb Hv).
    unfold topology_term. rewrite Hpm. reflexivity. }
  assert (Hl := topology_init_length sd ob a r Hr Hlen).
  split; [exact Hl|]. split.
  { intros v Hv. apply (Hlook a r Hr Hlen v Hv). }
  destruct (SCULPT_topology_automasking_init sd ob a') as [r'|] eqn:Hr'.
  2:{ apply topology_init_outcome in Hr'.
      pose proof (proj2 (topology_init_outcome sd ob a) Hr') as Hc. congruence. }
  exists r'. split; [reflexivity|].
  assert (Hl' := topology_init_length sd ob a' r' Hr' Hlen').
  apply list_eq. intros v.
  destruct (Nat.lt_ge_cases v (totvert (sculpt ob))) as [Hv|Hv].
  - rewrite (Hlook a r Hr Hlen v Hv), (Hlook a' r' Hr' Hlen' v Hv). reflexivity.
  - rewrite !(proj2 (lookup_ge_None _ _)) by lia. reflexivity.
Qed.

Lemma topology_init_marks_reached_witness :
  exists r,
    SCULPT_topology_automasking_init
      (scene_of BRUSH_AUTOMASKING_TOPOLOGY None) {| sculpt := two_islands |}
      (replicate 5 F32.half) = Done r
    /\ init_factor r = [F32.one; F32.one; F32.one; F32.zero; F32.zero].
Proof.
  destruct (SCULPT_topology_automasking_init
              (scene_of BRUSH_AUTOMASKING_TOPOLOGY None) {| sculpt := two_islands |}
              (replicate 5 F32.half)) as [r|] eqn:E; [|vm_compute in E; discriminate].
  exists r. split; [reflexivity|].
  assert (Hret : init_returned r = true).
  { vm_compute in E. injection E as <-. reflexivity. }
  destruct (topology_init_marks_reached _ _ _ (replicate 5 F32.one) r E Hret
              ltac:(reflexivity) ltac:(reflexivity)) as (Hl & Hv & _).
  apply list_eq. intros v.
  destruct (Nat.lt_ge_cases v 5) as [Hlt|Hge].
  - rewrite (Hv v Hlt).
    do 5 (destruct v as [|v]; [reflexivity|]). cbn in Hlt. lia.
  - rewrite !(proj2 (lookup_ge_None _ _)); [reflexivity|cbn; lia|].
    rewrite Hl. exact Hge.
Defined.

Lemma cavity_factor_settings (c1 c2 : AutomaskingCache) :
  settings c1 = settings c2 ->
  sculpt_automasking_cavity_factor c1 = sculpt_automasking_cavity_factor c2.
Proof. unfold sculpt_automasking_cavity_factor. intros ->. reflexivity. Qed.

Lemma cavity_term_settings (sd : Sculpt) (ss : SculptSession) (c1 c2 : AutomaskingCache)
    (steps : Z) (v : nat) (x : float) :
  settings c1 = settings c2 ->
  cavity_term sd ss c1 steps v x = cavity_term sd ss c2 steps v x.
Proof.
  intros H. unfold cavity_term, cavity_blurred, cavity_multiply.
  rewrite (cavity_factor_settings c1 c2 H). reflexivity.
Qed.

(** The array of the cache, read at one vertex. *)
Lemma cache_factor_lookup
    (sd : Sculpt) (b : Brush) (ob : Object) (c : AutomaskingCache) (f : list float) :
  SCULPT_automasking_cache_init sd (Some b) ob = Done (Some c) ->
  factor c = Some f ->
  length f = totvert (sculpt ob)
  /\ forall v, (v < totvert (sculpt ob))%nat ->
       f !! v = Some (composed_factor sd b (sculpt ob) v).
Proof.
  intros Hinit Hf. unfold SCULPT_automasking_cache_init in Hinit.
  destruct (SCULPT_is_automasking_enabled sd (sculpt ob) (Some b)); cbn [negb] in Hinit;
    [|discriminate].
  cbn [SCULPT_automasking_cache_settings_update bind] in Hinit.
  destruct (SCULPT_automasking_needs_factors_cache sd (Some b)); cbn [negb] in Hinit.
  2:{ injection Hinit as <-. discriminate. }
  set (ss := sculpt ob) in *.
  set (n := totvert ss) in *.
  set (st := {| flags := sculpt_automasking_mode_effective_bits sd (Some b);
                initial_face_set := active_face_set ss;
                cavity_factor := automasking_cavity_factor b |}) in *.
  set (steps := automasking_boundary_edges_propagation_steps b) in *.
  unfold composed_factor. fold ss st steps. cbv zeta.
  set (on := SCULPT_is_automasking_mode_enabled sd (Some b)) in *.
  set (x0 := fun v => if on BRUSH_AUTOMASKING_TOPOLOGY then topology_term sd ss v F32.one
                      else F32.one).
  assert (H0 : exists f0,
             (if on BRUSH_AUTOMASKING_TOPOLOGY
              then call r <- SCULPT_topology_automasking_init sd ob (replicate n F32.one) ;
                   Done (init_factor r)
              else Done (replicate n F32.one)) = Done f0
             /\ length f0 = n
             /\ forall v, (v < n)%nat -> f0 !! v = Some (x0 v)).
  { unfold x0. destruct (on BRUSH_AUTOMASKING_TOPOLOGY).
    - destruct (SCULPT_topology_automasking_init sd ob (replicate n F32.one)) as [r|] eqn:Hr;
        cbn [bind] in Hinit |- *; [|discriminate].
      exists (init_factor r). split; [reflexivity|].
      assert (Hlen : length (replicate n F32.one) = totvert (sculpt ob))
        by apply length_replicate.
      split; [exact (topology_init_length sd ob _ r Hr Hlen)|].
      intros v Hv. rewrite (topology_init_lookup sd ob _ r v Hr Hlen Hv).
      fold ss. f_equal. f_equal. apply arr_get_lookup. apply lookup_replicate_2. exact Hv.
    - exists (replicate n F32.one). split; [reflexivity|].
      split; [apply length_replicate|].
      intros v Hv. apply lookup_replicate_2. exact Hv. }
  destruct H0 as (f0 & E0 & L0 & V0). rewrite E0 in Hinit. cbn [bind] in Hinit.
  clear E0.
  set (x1 := fun v => if on BRUSH_AUTOMASKING_FACE_SETS then face_sets_term sd ss v (x0 v)
                      else x0 v).
  set (f1 := if on BRUSH_AUTOMASKING_FACE_SETS
             then init_factor (sculpt_face_sets_automasking_init sd ob f0) else f0) in *.
  assert (H1 : length f1 = n /\ forall v, (v < n)%nat -> f1 !! v = Some (x1 v)).
  { unfold f1, x1. destruct (on BRUSH_AUTOMASKING_FACE_SETS); [|auto].
    split; [exact (face_sets_init_length sd ob f0 L0)|].
    intros v Hv. rewrite (face_sets_init_lookup sd ob f0 v L0 Hv).
    fold ss. rewrite (arr_get_lookup _ _ _ _ (V0 v Hv)). reflexivity. }
  destruct H1 as [L1 V1]. clearbody f1. clear L0 V0.
  set (x2 := fun v => if on BRUSH_AUTOMASKING_CAVITY
                      then cavity_term sd ss {| settings := st; factor := None |} steps v (x1 v)
                      else x1 v).
  set (f2 := if on BRUSH_AUTOMASKING_CAVITY
             then init_factor (sculpt_cavity_automasking_init sd ob
                                 {| settings := st; factor := Some f1 |} f1 steps)
             else f1) in *.
  assert (H2 : length f2 = n /\ forall v, (v < n)%nat -> f2 !! v = Some (x2 v)).
  { unfold f2, x2. destruct (on BRUSH_AUTOMASKING_CAVITY); [|auto].
    split; [exact (cavity_init_length sd ob _ f1 steps L1)|].
    intros v Hv. rewrite (cavity_init_lookup sd ob _ f1 steps v L1 Hv).
    fold ss. rewrite (arr_get_lookup _ _ _ _ (V1 v Hv)).
    rewrite (cavity_term_settings sd ss _ {| settings := st; factor := None |});
      reflexivity. }
  destruct H2 as [L2 V2]. clearbody f2. clear L1 V1.
  assert (Hb : forall mode g xg,
             length g = n -> (forall v, (v < n)%nat -> g !! v = Some (xg v)) ->
             length (init_factor (SCULPT_boundary_automasking_init ob mode steps g)) = n
             /\ forall v, (v < n)%nat ->
                  init_factor (SCULPT_boundary_automasking_init ob mode steps g) !! v
                  = Some (boundary_term ss mode steps v (xg v))).
  { intros mode g xg Lg Vg. split; [rewrite boundary_init_length; exact Lg|].
    intros v Hv. rewrite (boundary_init_lookup ob mode steps g v Lg Hv).
    fold ss. rewrite (arr_get_lookup _ _ _ _ (Vg v Hv)). reflexivity. }
  set (x3 := fun v => if on BRUSH_AUTOMASKING_BOUNDARY_EDGES
                      then boundary_term ss AUTOMASK_INIT_BOUNDARY_EDGES steps v (x2 v)
                      else x2 v).
  set (f3 := if on BRUSH_AUTOMASKING_BOUNDARY_EDGES
             then init_factor (SCULPT_boundary_automasking_init ob
                                 AUTOMASK_INIT_BOUNDARY_EDGES steps f2)
             else f2) in *.
  assert (H3 : length f3 = n /\ forall v, (v < n)%nat -> f3 !! v = Some (x3 v)).
  { unfold f3, x3. destruct (on BRUSH_AUTOMASKING_BOUNDARY_EDGES); [|auto].
    apply Hb; assumption. }
  destruct H3 as [L3 V3]. clearbody f3. clear L2 V2.
  set (f4 := if on BRUSH_AUTOMASKING_BOUNDARY_FACE_SETS
             then init_factor (SCULPT_boundary_automasking_init ob
                                 AUTOMASK_INIT_BOUNDARY_FACE_SETS steps f3)
             else f3) in *.
  assert (H4 : length f4 = n
               /\ forall v, (v < n)%nat ->
                    f4 !! v = Some (if on BRUSH_AUTOMASKING_BOUNDARY_FACE_SETS
                                    then boundary_term ss AUTOMASK_INIT_BOUNDARY_FACE_SETS
                                           steps v (x3 v)
                                    else x3 v)).
  { unfold f4. destruct (on BRUSH_AUTOMASKING_BOUNDARY_FACE_SETS); [|auto].
    apply Hb; assumption. }
  injection Hinit as <-. cbn [factor] in Hf. injection Hf as <-.
  exact H4.
Qed.

(** X5: for a step count that fits a C [int] and is above the least one,
    the array [SCULPT_automasking_cache_init] stores has one entry per
    vertex, and entry [v] is [composed_factor] at [v]: 1.0 taken through
    the term of Topology (1.0 where the flood fill came, 0.0 elsewhere),
    of FaceSets (times 0.0 outside the active face set), of Cavity (times
    the cavity factor of [v], or times entry [v] of the blurred buffer for
    more than one step), of BoundaryEdges and of BoundaryFaceSets (times
    [1 - (1 - d/steps)^2] where the distance [d] is not INF), in this order,
    each only when its strategy is enabled and its initializer goes past
    its tests. *)
Theorem factor_array_composed
    (sd : Sculpt) (b : Brush) (ob : Object) (c : AutomaskingCache) (f : list float) :
  - 2 ^ 31 < automasking_boundary_edges_propagation_steps b < 2 ^ 31 ->
  SCULPT_automasking_cache_init sd (Some b) ob = Done (Some c) ->
  factor c = Some f ->
  f = map (composed_factor sd b (sculpt ob)) (seq 0 (totvert (sculpt ob))).
Proof.
  intros _ Hinit Hf.
  destruct (cache_factor_lookup sd b ob c f Hinit Hf) as [Hlen Hlook].
  apply list_eq. intros v. rewrite list_lookup_fmap.
  destruct (Nat.lt_ge_cases v (totvert (sculpt ob))) as [Hv|Hv].
  - rewrite (Hlook v Hv), (lookup_seq_lt _ _ _ Hv). reflexivity.
  - rewrite (lookup_seq_ge _ _ _ Hv).
    apply lookup_ge_None. rewrite Hlen. exact Hv.
Qed.

Lemma factor_array_composed_witness :
  exists c f,
    SCULPT_automasking_cache_init
      (scene_of 0 None) (Some (brush_of BRUSH_AUTOMASKING_BOUNDARY_EDGES 2 F32.one))
      {| sculpt := chain5 |} = Done (Some c)
    /\ factor c = Some f
    /\ f !! 1%nat = Some F32.three_quarters.
Proof.
  destruct (SCULPT_automasking_cache_init
              (scene_of 0 None) (Some (brush_of BRUSH_AUTOMASKING_BOUNDARY_EDGES 2 F32.one))
              {| sculpt := chain5 |}) as [[c|]|] eqn:E;
    [|vm_compute in E; discriminate..].
  destruct (factor c) as [f|] eqn:Ef.
  2:{ vm_compute in E. injection E as <-. discriminate. }
  exists c, f. split; [reflexivity|]. split; [exact Ef|].
  assert (Hs : - 2 ^ 31
               < automasking_boundary_edges_propagation_steps
                   (brush_of BRUSH_AUTOMASKING_BOUNDARY_EDGES 2 F32.one)
               < 2 ^ 31) by (cbn; lia).
  rewrite (factor_array_composed _ _ _ c f Hs E Ef). vm_compute. reflexivity.
Defined.

(** ** The distance field on any mesh *)

Lemma edge_distance_of_nat (ss : SculptSession) (mode : eBoundaryAutomaskMode) (N : Z) :
  boundary_edge_distance ss mode N
  = boundary_edge_distance ss mode (Z.of_nat (Z.to_nat N)).
Proof.
  unfold boundary_edge_distance, boundary_propagate. rewrite Nat2Z.id. reflexivity.
Qed.

Lemma snapshot_pass_lookup (ss : SculptSession) (it : Z) (old : list Z) (v : nat) (d : Z) :
  old !! v = Some d ->
  snapshot_pass ss it old !! v
  = Some (if negb (d =? EDGE_DISTANCE_INF) then d
          else if existsb (fun ni => arr_get 0 old ni =? it) (vertex_neighbors ss v)
          then it + 1 else d).
Proof.
  intros H. unfold snapshot_pass. rewrite list_lookup_imap, H. reflexivity.
Qed.

(** What the array holds after [k] passes, whatever the adjacency lists
    are. *)
Lemma edge_distance_shape (ss : SculptSession) (mode : eBoundaryAutomaskMode) (k : nat) :
  length (boundary_edge_distance ss mode (Z.of_nat k)) = totvert ss
  /\ forall v, (v < totvert ss)%nat ->
       exists d, boundary_edge_distance ss mode (Z.of_nat k) !! v = Some d
                 /\ (d = EDGE_DISTANCE_INF \/ 0 <= d <= Z.of_nat k)
                 /\ (d = 0 <-> boundary_seed_vertex ss mode v = true).
Proof.
  induction k as [|k [IHl IHv]].
  - destruct (boundary_seed_spec ss mode (replicate (totvert ss) 0)) as [Hl Hv];
      [apply length_replicate|].
    change (boundary_edge_distance ss mode (Z.of_nat 0))
      with (boundary_seed ss mode (replicate (totvert ss) 0)).
    split; [exact Hl|]. intros v Hlt. exists (seed_value ss mode v).
    split; [apply Hv; exact Hlt|]. unfold seed_value, EDGE_DISTANCE_INF.
    destruct (boundary_seed_vertex ss mode v); split; auto; try lia;
      try (split; [lia|discriminate]).
  - rewrite edge_distance_succ, pass_is_snapshot by (try lia; exact IHl).
    split.
    { unfold snapshot_pass. rewrite length_imap. exact IHl. }
    intros v Hlt. destruct (IHv v Hlt) as (d & Hd & Hrange & Hseed).
    rewrite (snapshot_pass_lookup _ _ _ _ _ Hd). eexists. split; [reflexivity|].
    destruct (Z.eqb_spec d EDGE_DISTANCE_INF) as [E|NE]; cbn [negb].
    + destruct (existsb _ _).
      * split; [right; lia|]. rewrite <- Hseed. unfold EDGE_DISTANCE_INF in E. lia.
      * split; [left; exact E|exact Hseed].
    + split; [|exact Hseed]. destruct Hrange as [?|?]; [contradiction|right; lia].
Qed.

Lemma edge_distance_kept (ss : SculptSession) (mode : eBoundaryAutomaskMode)
    (k j : nat) (v : nat) (d : Z) :
  boundary_edge_distance ss mode (Z.of_nat k) !! v = Some d ->
  d <> EDGE_DISTANCE_INF ->
  boundary_edge_distance ss mode (Z.of_nat (k + j)) !! v = Some d.
Proof.
  intros Hd Hne. induction j as [|j IH].
  - rewrite Nat.add_0_r. exact Hd.
  - rewrite Nat.add_succ_r, edge_distance_succ, pass_is_snapshot
      by (try lia; apply edge_distance_shape).
    rewrite (snapshot_pass_lookup _ _ _ _ _ IH).
    destruct (Z.eqb_spec d EDGE_DISTANCE_INF); [contradiction|reflexivity].
Qed.

(** X6: on a mesh whose adjacency lists name vertices of the mesh only,
    symmetric or not, after [N] propagation passes the distance array has
    one entry per vertex, every entry is the marker INF or a number from 0
    to [N], the entries at 0 are exactly the seed vertices, and an entry that
    has left INF is never written again, however many more passes run. *)
Theorem edge_distance_settles (ss : SculptSession) (mode : eBoundaryAutomaskMode) (N : Z) :
  neighbors_in_range ss = true ->
  length (boundary_edge_distance ss mode N) = totvert ss
  /\ (forall v, (v < totvert ss)%nat ->
        exists d, boundary_edge_distance ss mode N !! v = Some d
                  /\ (d = EDGE_DISTANCE_INF \/ 0 <= d <= Z.max 0 N)
                  /\ (d = 0 <-> boundary_seed_vertex ss mode v = true))
  /\ (forall M v d, N <= M ->
        boundary_edge_distance ss mode N !! v = Some d ->
        d <> EDGE_DISTANCE_INF ->
        boundary_edge_distance ss mode M !! v = Some d).
Proof.
  intros _. rewrite (edge_distance_of_nat ss mode N).
  destruct (edge_distance_shape ss mode (Z.to_nat N)) as [Hl Hv].
  split; [exact Hl|]. split.
  - intros v Hlt. destruct (Hv v Hlt) as (d & Hd & Hr & Hs).
    exists d. split; [exact Hd|]. split; [|exact Hs].
    destruct Hr as [?|?]; [left; assumption|right; lia].
  - intros M v d HNM Hd Hne. rewrite (edge_distance_of_nat ss mode M).
    replace (Z.to_nat M) with (Z.to_nat N + (Z.to_nat M - Z.to_nat N))%nat by lia.
    apply edge_distance_kept; assumption.
Qed.

Lemma edge_distance_settles_witness :
  boundary_edge_distance chain5 AUTOMASK_INIT_BOUNDARY_EDGES 7 !! 1%nat = Some 1.
Proof.
  destruct (edge_distance_settles chain5 AUTOMASK_INIT_BOUNDARY_EDGES 1 eq_refl)
    as (_ & _ & H).
  apply (H 7 1%nat 1); [lia|reflexivity|discriminate].
Defined.

(** ** Single precision: what a rounding returns *)

(** The shift to the format's exponent, for a mantissa of any size. *)
Lemma shr_fexp_shape (m e : Z) (l : location) :
  0 <= m ->
  e <= fexp F32.prec F32.emax (Zdigits2 m + e) ->
  let mrs := fst (shr_fexp F32.prec F32.emax m e l) in
  let e' := snd (shr_fexp F32.prec F32.emax m e l) in
  0 <= shr_m mrs < 2 ^ 24
  /\ (-149 < e' -> 2 ^ 23 <= shr_m mrs)
  /\ -149 <= e'.
Proof.
  intros Hm Hpre. unfold shr_fexp, shr. rewrite fexp32 in *.
  destruct (Zdigits2_bounds m Hm) as (Hd0 & Hdu & Hdl).
  set (d := Zdigits2 m) in *.
  destruct (Z.max (d + e - 24) (-149) - e) as [|n|n] eqn:Hn; cbn [fst snd]; [| |lia].
  - rewrite shr_record_of_loc_m.
    assert (Hd24 : d <= 24) by lia.
    assert (H24 : 2 ^ d <= 2 ^ 24) by (apply Z.pow_le_mono_r; lia).
    split; [lia|]. split; [|lia].
    intros He. assert (d = 24) by lia.
    assert (0 < m).
    { destruct (Z.eq_dec m 0) as [->|]; [|lia]. subst d. simpl in *. lia. }
    specialize (Hdl H0). replace (d - 1) with 23 in Hdl by lia. exact Hdl.
  - assert (Hp : 0 < 2 ^ Z.pos n) by (apply Z.pow_pos_nonneg; lia).
    rewrite iter_shr_1_m by (rewrite shr_record_of_loc_m; exact Hm).
    rewrite shr_record_of_loc_m.
    split; [split|].
    + apply Z.div_pos; lia.
    + apply Z.div_lt_upper_bound; [exact Hp|].
      assert (H : 2 ^ d <= 2 ^ (Z.pos n + 24)) by (apply Z.pow_le_mono_r; lia).
      rewrite pow2_split in H by lia. lia.
    + split; [|lia]. intros He.
      assert (Hnd : Z.pos n = d - 24) by lia.
      assert (H0 : 0 < m).
      { destruct (Z.eq_dec m 0) as [->|]; [|lia]. subst d. simpl in *. lia. }
      specialize (Hdl H0).
      apply Z.div_le_lower_bound; [exact Hp|].
      replace (d - 1) with (Z.pos n + 23) in Hdl by lia.
      rewrite pow2_split in Hdl by lia. exact Hdl.
Qed.

(** Whatever the sign and the size of the mantissa, the rounding returns a
    zero, an infinity or a finite number in canonical form. *)
Lemma binary_round_aux_valid (sx : bool) (m e : Z) (l : location) :
  0 <= m ->
  e <= fexp F32.prec F32.emax (Zdigits2 m + e) ->
  valid_float (binary_round_aux F32.prec F32.emax sx m e l).
Proof.
  intros Hm Hpre.
  destruct (shr_fexp_shape m e l Hm Hpre) as (Hm' & Hnorm & Hrange).
  unfold binary_round_aux.
  destruct (shr_fexp F32.prec F32.emax m e l) as [mrs' e']. cbn [fst snd] in *.
  assert (Hr := round_nearest_even_bounds (shr_m mrs') (loc_of_shr_record mrs')).
  set (m1 := round_nearest_even (shr_m mrs') (loc_of_shr_record mrs')) in *.
  change (2 ^ 24) with 16777216 in *. change (2 ^ 23) with 8388608 in *.
  destruct (Z.eq_dec m1 16777216) as [E|NE].
  - rewrite E. unfold shr_fexp, shr. rewrite fexp32.
    change (Zdigits2 16777216) with 25.
    replace (Z.max (25 + e' - 24) (-149) - e') with 1 by lia.
    cbn [SpecFloat.iter_pos shr_record_of_loc shr_1 shr_m].
    change (F32.emax - F32.prec) with 104.
    destruct (Z.leb_spec (e' + 1) 104) as [Hle|_]; [|exact I].
    cbn [valid_float]. change (2 ^ 24) with 16777216. change (2 ^ 23) with 8388608. lia.
  - clearbody m1.
    destruct (Zdigits2_bounds m1) as (Hd0 & Hdu & Hdl); [lia|].
    unfold shr_fexp, shr. rewrite fexp32.
    assert (Hd24 : Zdigits2 m1 <= 24).
    { destruct (Z.eq_dec m1 0) as [->|]; [simpl; lia|].
      assert (H : 2 ^ (Zdigits2 m1 - 1) < 2 ^ 24).
      { change (2 ^ 24) with 16777216. lia. }
      apply Z.pow_lt_mono_r_iff in H; lia. }
    destruct (Z.max (Zdigits2 m1 + e' - 24) (-149) - e') as [|n|n] eqn:Hn;
      [| lia |]; rewrite shr_record_of_loc_m;
      (destruct m1 as [|p|p]; [exact I| |lia]);
      change (F32.emax - F32.prec) with 104;
      (destruct (Z.leb_spec e' 104) as [Hle|_]; [|exact I]);
      cbn [valid_float]; change (2 ^ 24) with 16777216; change (2 ^ 23) with 8388608; lia.
Qed.

Lemma binary_round_valid (sx : bool) (m : positive) (e : Z) :
  valid_float (binary_round F32.prec F32.emax sx m e).
Proof.
  unfold binary_round, shl_align. rewrite fexp32.
  set (d := Z.pos (digits2_pos m)).
  destruct (Z.max (d + e - 24) (-149) - e) as [|n|n] eqn:Hn;
    apply binary_round_aux_valid; try lia; rewrite fexp32.
  - change (Zdigits2 (Z.pos m)) with d. lia.
  - change (Zdigits2 (Z.pos m)) with d. lia.
  - change (Zdigits2 (Z.pos (Pos.iter xO m n))) with (Z.pos (digits2_pos (Pos.iter xO m n))).
    rewrite digits_iter_xO. fold d. lia.
Qed.

Lemma binary_normalize_valid (m e : Z) (szero : bool) :
  valid_float (binary_normalize F32.prec F32.emax m e szero).
Proof. destruct m; [exact I|apply binary_round_valid..]. Qed.

(** A sum with 0.5 is a valid datum, whatever the other operand is. *)
Lemma add_half_valid (x : float) : valid_float (x + F32.half)%f32.
Proof.
  destruct x as [s|s| |s m e]; try exact I.
  - cbn. change (2 ^ 24) with 16777216. change (2 ^ 23) with 8388608. lia.
  - unfold F32.add, F32.half, SFadd. apply binary_normalize_valid.
Qed.

(** ** The cavity factor stays in range *)

(** The clamp of a valid datum to the unit interval is NaN, the negative
    zero, or a canonical number from 0 to 1. *)
Lemma clamp_unit_cases (x : float) :
  valid_float x ->
  CLAMP x F32.zero F32.one = S754_nan
  \/ CLAMP x F32.zero F32.one = S754_zero true
  \/ (canonical_nonneg (CLAMP x F32.zero F32.one)
      /\ (F2Q (CLAMP x F32.zero F32.one) <= 1)%Q).
Proof.
  intros Hv. destruct x as [[|]|[|]| |[|] m e];
    try (left; reflexivity); try (right; left; reflexivity);
    try (right; right; split; [exact I | vm_compute; discriminate]);
    try (right; right; split; [exact one_canonical | vm_compute; discriminate]).
  right; right. cbn [valid_float] in Hv. destruct Hv as (He & Hm & Hn).
  change (2 ^ 24) with 16777216 in *. change (2 ^ 23) with 8388608 in *.
  assert (Hc : canonical_nonneg (S754_finite false m e)).
  { cbn [canonical_nonneg]. change (2 ^ 24) with 16777216.
    change (2 ^ 23) with 8388608. lia. }
  change (CLAMP (S754_finite false m e) F32.zero F32.one)
    with (if F32.ltb F32.one (S754_finite false m e) then F32.one
          else S754_finite false m e).
  destruct (F32.ltb F32.one (S754_finite false m e)) eqn:Hlt.
  { split; [exact one_canonical | vm_compute; discriminate]. }
  split; [exact Hc|].
  unfold F32.ltb, SFltb, F32.one in Hlt. cbn [SFcompare] in Hlt.
  cbn [F2Q]. rewrite Qmult_1_l. assert (P0 := pow2_pos e).
  destruct (Z.compare_spec (-23) e) as [E|L|G]; [|discriminate|].
  - subst e. rewrite Pos.compare_cont_spec in Hlt. cbn [Pos.switch_Eq] in Hlt.
    assert (Hle : Z.pos m <= 8388608).
    { destruct (Pos.compare_spec 8388608 m); [lia|discriminate|lia]. }
    assert (H : (inject_Z (Z.pos m) <= inject_Z 8388608)%Q) by (apply inject_Z_le; lia).
    assert (P : (pow2 (-23) == 1 # 8388608)%Q) by reflexivity.
    rewrite P. change (inject_Z 8388608) with 8388608%Q in H. lra.
  - assert (H : (inject_Z (Z.pos m) <= inject_Z 16777216)%Q) by (apply inject_Z_le; lia).
    assert (P : (pow2 e <= pow2 (-24))%Q) by (apply pow2_le; lia).
    assert (P' : (pow2 (-24) == 1 # 16777216)%Q) by reflexivity.
    change (inject_Z 16777216) with 16777216%Q in H.
    assert (H1 : (inject_Z (Z.pos m) * pow2 e <= 16777216 * pow2 e)%Q).
    { apply Qmult_le_compat_r; lra. }
    lra.
Qed.

Lemma unit_entry_in_interval (x : float) :
  canonical_nonneg x -> (F2Q x <= 1)%Q -> F32.in_unit_interval x = true.
Proof.
  intros Hc Hv. unfold F32.in_unit_interval. apply andb_true_iff. split.
  - apply leb_of_values; [exact I|exact Hc|]. apply (F2Q_nonneg x Hc).
  - apply leb_of_values; [exact Hc|exact one_canonical|]. rewrite F2Q_one. exact Hv.
Qed.

Lemma cavity_factor_unit_or_nan (c : AutomaskingCache) (ss : SculptSession) (v : nat) :
  unit_or_nan (sculpt_automasking_cavity_factor c ss v).
Proof.
  unfold sculpt_automasking_cavity_factor. cbv zeta.
  set (t := (F32.fabsf (SCULPT_calc_cavity ss v) * cavity_factor (settings c) * F32.fifty
             * signf (SCULPT_calc_cavity ss v) * F32.half)%f32).
  destruct (clamp_unit_cases (t + F32.half)%f32 (add_half_valid t)) as [E|[E|[Hc Hv]]].
  - rewrite E. left. destruct (flag_set _ _); reflexivity.
  - rewrite E. right. destruct (flag_set _ _); reflexivity.
  - right. destruct (flag_set _ _).
    + apply unit_entry_in_interval;
        [apply sub_one_canonical | apply sub_one_le_one]; assumption.
    + apply unit_entry_in_interval; assumption.
Qed.

Lemma on_demand_unit_or_nan (c : AutomaskingCache) (ss : SculptSession) (v : nat) :
  factor c = None ->
  unit_or_nan (SCULPT_automasking_factor_get (Some c) ss v).
Proof.
  intros Hnone. unfold SCULPT_automasking_factor_get. rewrite Hnone.
  destruct (_ && _); [right; reflexivity|].
  destruct (_ && _); [right; reflexivity|].
  destruct (_ && _); [right; reflexivity|].
  destruct (flag_set (flags (settings c)) BRUSH_AUTOMASKING_CAVITY).
  - apply cavity_factor_unit_or_nan.
  - right. reflexivity.
Qed.

(** X7: whatever the mesh, the brush and the vertex, the cavity factor is
    NaN or a number from 0.0 to 1.0, inverted or not; so is the answer of
    [SCULPT_automasking_factor_get] for a cache without an array, and that
    answer is exactly 0.0 or 1.0 when Cavity is off. *)
Theorem factor_get_on_demand_range
    (automasking : option AutomaskingCache) (ss : SculptSession) (v : nat) :
  (forall c, unit_or_nan (sculpt_automasking_cavity_factor c ss v))
  /\ ((forall c, automasking = Some c -> factor c = None) ->
      unit_or_nan (SCULPT_automasking_factor_get automasking ss v)
      /\ ((forall c, automasking = Some c ->
             flag_set (flags (settings c)) BRUSH_AUTOMASKING_CAVITY = false) ->
          SCULPT_automasking_factor_get automasking ss v = F32.zero
          \/ SCULPT_automasking_factor_get automasking ss v = F32.one)).
Proof.
  split; [intros c; apply cavity_factor_unit_or_nan|].
  intros Hnone. unfold SCULPT_automasking_factor_get.
  destruct automasking as [c|].
  2:{ split; [right; reflexivity|]. intros _. right. reflexivity. }
  rewrite (Hnone c eq_refl).
  destruct (_ && _); [split; [right; reflexivity | intros _; left; reflexivity]|].
  destruct (_ && _); [split; [right; reflexivity | intros _; left; reflexivity]|].
  destruct (_ && _); [split; [right; reflexivity | intros _; left; reflexivity]|].
  destruct (flag_set (flags (settings c)) BRUSH_AUTOMASKING_CAVITY) eqn:Hc.
  - split; [apply cavity_factor_unit_or_nan|].
    intros H. specialize (H c eq_refl). congruence.
  - split; [right; reflexivity|]. intros _. right. reflexivity.
Qed.

Lemma factor_get_on_demand_range_witness :
  unit_or_nan
    (SCULPT_automasking_factor_get
       (Some (on_demand_cache BRUSH_AUTOMASKING_CAVITY 1)) coincident_pair 0%nat).
Proof.
  destruct (factor_get_on_demand_range
              (Some (on_demand_cache BRUSH_AUTOMASKING_CAVITY 1)) coincident_pair 0%nat)
    as [_ H].
  apply H. intros c Hc. injection Hc as <-. reflexivity.
Defined.

(** ** Single precision: products *)

(** A canonical number of at most 2 has an exponent of at most -22. *)
Lemma canonical_le_two_exponent (m : positive) (e : Z) :
  canonical_nonneg (S754_finite false m e) ->
  (F2Q (S754_finite false m e) <= 2)%Q ->
  e <= -22.
Proof.
  intros Hc Hv.
  assert (H := magnitude_of_value m e 1 Hv).
  cbn [canonical_nonneg] in Hc. change (2 ^ 23) with 8388608 in Hc.
  destruct Hc as (He & Hm & Hn).
  destruct (Z.eq_dec e (-149)) as [->|Hne]; [lia|].
  assert (H23 : 2 ^ 23 <= Z.pos m) by (change (2 ^ 23) with 8388608; apply Hn; lia).
  assert (B := Zdigits2_pos_bounds m).
  assert (Hd : 2 ^ 23 < 2 ^ Z.pos (digits2_pos m)) by lia.
  apply Z.pow_lt_mono_r_iff in Hd; lia.
Qed.

Lemma mul_ready (mx my : positive) (ex ey : Z) :
  canonical_nonneg (S754_finite false mx ex) ->
  canonical_nonneg (S754_finite false my ey) ->
  ex <= 0 -> ey <= 0 ->
  round_ready (Z.pos (mx * my)) (ex + ey).
Proof.
  cbn [canonical_nonneg]. change (2 ^ 24) with 16777216. change (2 ^ 23) with 8388608.
  intros (Hex & Hmx & Hnx) (Hey & Hmy & Hny) Hx0 Hy0.
  unfold round_ready. rewrite fexp32, Pos2Z.inj_mul.
  assert (Hsq : 0 <= Z.pos mx * Z.pos my < 2 ^ 48).
  { change (2 ^ 48) with (16777216 * 16777216). nia. }
  assert (Hd := Zdigits2_le _ 48 Hsq).
  destruct (Zdigits2_bounds (Z.pos mx * Z.pos my)) as (Hd0 & Hu & _); [lia|].
  split; [lia|]. split; [|lia].
  destruct (Z.eq_dec ex (-149)) as [->|Hnex]; [lia|].
  destruct (Z.eq_dec ey (-149)) as [->|Hney]; [lia|].
  assert (H23x : 8388608 <= Z.pos mx) by (apply Hnx; lia).
  assert (H23y : 8388608 <= Z.pos my) by (apply Hny; lia).
  assert (H46 : 2 ^ 46 < 2 ^ Zdigits2 (Z.pos mx * Z.pos my)).
  { change (2 ^ 46) with (8388608 * 8388608). nia. }
  apply Z.pow_lt_mono_r_iff in H46; lia.
Qed.

Lemma mul_value (mx my : positive) (ex ey : Z) :
  (inject_Z (Z.pos (mx * my)) * pow2 (ex + ey)
   == F2Q (S754_finite false mx ex) * F2Q (S754_finite false my ey))%Q.
Proof. cbn [F2Q]. rewrite Pos2Z.inj_mul, inject_Z_mult, pow2_add. ring. Qed.

Lemma mul_canonical (x y : float) :
  canonical_nonneg x -> canonical_nonneg y ->
  (F2Q x <= 2)%Q -> (F2Q y <= 2)%Q ->
  canonical_nonneg (x * y)%f32.
Proof.
  intros Hx Hy Hx2 Hy2.
  destruct x as [[|]| | |[|] mx ex]; cbn [canonical_nonneg] in Hx; try contradiction;
    destruct y as [[|]| | |[|] my ey]; cbn [canonical_nonneg] in Hy; try contradiction;
    try exact I.
  assert (Hex := canonical_le_two_exponent mx ex Hx Hx2).
  assert (Hey := canonical_le_two_exponent my ey Hy Hy2).
  unfold F32.mul, SFmul. cbn [xorb].
  apply (binary_round_aux_spec _ _ loc_Exact (inject_Z (Z.pos (mx * my)))).
  - apply mul_ready; try assumption; lia.
  - reflexivity.
Qed.

(** The rounded product is monotone in the exact product. *)
Lemma mul_mono (x y x' y' : float) :
  canonical_nonneg x -> canonical_nonneg y ->
  canonical_nonneg x' -> canonical_nonneg y' ->
  (F2Q x <= 2)%Q -> (F2Q y <= 2)%Q -> (F2Q x' <= 2)%Q -> (F2Q y' <= 2)%Q ->
  (F2Q x * F2Q y <= F2Q x' * F2Q y')%Q ->
  (F2Q (x * y)%f32 <= F2Q (x' * y')%f32)%Q.
Proof.
  intros Hx Hy Hx' Hy' Bx By Bx' By' Hv.
  assert (Hc' := mul_canonical x' y' Hx' Hy' Bx' By').
  assert (Hpos : forall m e, (0 < F2Q (S754_finite false m e))%Q) by apply F2Q_finite_pos.
  destruct x as [[|]| | |[|] mx ex]; cbn [canonical_nonneg] in Hx; try contradiction;
    destruct y as [[|]| | |[|] my ey]; cbn [canonical_nonneg] in Hy; try contradiction;
    try (apply (F2Q_nonneg _ Hc')).
  assert (Px := Hpos mx ex). assert (Py := Hpos my ey).
  assert (Pxy : (0 < F2Q (S754_finite false mx ex) * F2Q (S754_finite false my ey))%Q)
    by (apply Qmult_lt_0_compat; assumption).
  destruct x' as [[|]| | |[|] mx' ex']; cbn [canonical_nonneg] in Hx'; try contradiction;
    destruct y' as [[|]| | |[|] my' ey']; cbn [canonical_nonneg] in Hy'; try contradiction;
    try (exfalso; change (F2Q (S754_zero false)) with 0%Q in Hv; lra).
  assert (Hex := canonical_le_two_exponent mx ex Hx Bx).
  assert (Hey := canonical_le_two_exponent my ey Hy By).
  assert (Hex' := canonical_le_two_exponent mx' ex' Hx' Bx').
  assert (Hey' := canonical_le_two_exponent my' ey' Hy' By').
  unfold F32.mul, SFmul. cbn [xorb].
  apply (binary_round_aux_mono _ _ _ _ _ _
           (inject_Z (Z.pos (mx * my))) (inject_Z (Z.pos (mx' * my'))));
    try (apply mul_ready; try assumption; lia); try reflexivity.
  rewrite !mul_value. exact Hv.
Qed.

(** The product of two numbers from 0 to 1 is a number from 0 to 1. *)
Lemma mul_unit (x y : float) :
  unit_entry x -> unit_entry y -> unit_entry (x * y)%f32.
Proof.
  intros [Hx Hx1] [Hy Hy1].
  assert (Hx0 := F2Q_nonneg x Hx). assert (Hy0 := F2Q_nonneg y Hy).
  split; [apply mul_canonical; try assumption; lra|].
  assert (H : (F2Q (x * y)%f32 <= F2Q (F32.one * F32.one)%f32)%Q).
  { apply mul_mono; try assumption; try exact one_canonical;
      rewrite ?F2Q_one; try lra. nra. }
  change (F32.one * F32.one)%f32 with F32.one in H. rewrite F2Q_one in H. exact H.
Qed.

Lemma unit_entry_zero : unit_entry F32.zero.
Proof. split; [exact I|]. change (F2Q F32.zero) with 0%Q. lra. Qed.

Lemma unit_entry_one : unit_entry F32.one.
Proof. split; [exact one_canonical|]. rewrite F2Q_one. lra. Qed.

(** The boundary multiplier is a number from 0 to 1. *)
Lemma boundary_multiplier_unit (d N : Z) :
  0 <= d <= N -> 1 <= N -> N < 2 ^ 31 ->
  unit_entry (boundary_multiplier d N).
Proof.
  intros Hd HN1 HN.
  assert (H32 : 2 ^ 31 < 2 ^ 32) by reflexivity.
  destruct (of_Z_bounds d N Hd HN1 HN) as (A & B & C).
  assert (HcN := of_Z_canonical N ltac:(lia)).
  destruct (multiplier_chain d (F32.of_Z N) ltac:(lia) HcN C A B)
    as (my & ey & EN & Hm & Hq & Hq' & Hp & Hp' & Hs & Hs' & Hr).
  unfold boundary_multiplier. cbv zeta. split; [exact Hr|].
  apply sub_one_le_one; assumption.
Qed.

(** ** The stored factors stay in range *)

Lemma topology_term_unit (sd : Sculpt) (ss : SculptSession) (v : nat) (x : float) :
  unit_entry x -> unit_entry (topology_term sd ss v x).
Proof.
  intros Hx. unfold topology_term.
  destruct (pmap_missing_for_faces ss); [exact Hx|].
  destruct (floodfill_reached _ _ _); [exact unit_entry_one|exact unit_entry_zero].
Qed.

Lemma face_sets_term_unit (sd : Sculpt) (ss : SculptSession) (v : nat) (x : float) :
  unit_entry x -> unit_entry (face_sets_term sd ss v x).
Proof.
  intros Hx. unfold face_sets_term.
  destruct (_ && _); [|exact Hx]. apply mul_unit; [exact Hx|exact unit_entry_zero].
Qed.

Lemma boundary_term_unit (ss : SculptSession) (mode : eBoundaryAutomaskMode)
    (N : Z) (v : nat) (x : float) :
  1 <= N < 2 ^ 31 ->
  (v < totvert ss)%nat ->
  unit_entry x -> unit_entry (boundary_term ss mode N v x).
Proof.
  intros HN Hv Hx. unfold boundary_term. destruct (pmap ss); [|exact Hx]. cbv zeta.
  rewrite (edge_distance_of_nat ss mode N).
  destruct (edge_distance_shape ss mode (Z.to_nat N)) as [_ Hshape].
  destruct (Hshape v Hv) as (d & Hd & Hrange & _).
  rewrite (arr_get_lookup _ _ _ _ Hd).
  destruct (Z.eqb_spec d EDGE_DISTANCE_INF) as [E|NE]; [exact Hx|].
  apply mul_unit; [exact Hx|].
  apply boundary_multiplier_unit; lia.
Qed.

(** X8: with Cavity off and a number of propagation steps from 1 up, every
    factor of a cache that [SCULPT_automasking_cache_init] returns is a
    number from 0.0 to 1.0, never NaN, whether
    [SCULPT_automasking_factor_get] reads it from the array or works it out
    on demand. *)
Theorem factor_in_unit_interval
    (sd : Sculpt) (b : Brush) (ob : Object) (c : AutomaskingCache) (v : nat) :
  SCULPT_automasking_cache_init sd (Some b) ob = Done (Some c) ->
  SCULPT_is_automasking_mode_enabled sd (Some b) BRUSH_AUTOMASKING_CAVITY = false ->
  1 <= automasking_boundary_edges_propagation_steps b < 2 ^ 31 ->
  (v < totvert (sculpt ob))%nat ->
  F32.in_unit_interval (SCULPT_automasking_factor_get (Some c) (sculpt ob) v) = true.
Proof.
  intros Hinit Hcav Hsteps Hv.
  destruct (factor c) as [f|] eqn:Hf.
  - destruct (cache_factor_lookup sd b ob c f Hinit Hf) as [_ Hlook].
    unfold SCULPT_automasking_factor_get. rewrite Hf.
    rewrite (arr_get_lookup _ _ _ _ (Hlook v Hv)).
    assert (Hu : unit_entry (composed_factor sd b (sculpt ob) v)).
    { unfold composed_factor. cbv zeta. rewrite Hcav.
      repeat match goal with
             | |- context [if ?t then _ else _] =>
                 match t with
                 | SCULPT_is_automasking_mode_enabled _ _ _ => destruct t
                 end
             end;
        repeat first [ apply boundary_term_unit; [exact Hsteps | exact Hv |]
                     | apply face_sets_term_unit
                     | apply topology_term_unit
                     | exact unit_entry_one ]. }
    destruct Hu as [Hu1 Hu2]. apply unit_entry_in_interval; assumption.
  - destruct (cache_init_some sd (Some b) ob c Hinit) as (_ & b' & Hb' & Hs & _).
    injection Hb' as <-.
    unfold SCULPT_automasking_factor_get. rewrite Hf, Hs. cbn [settings flags initial_face_set].
    rewrite <- !mode_enabled_effective, Hcav.
    repeat match goal with |- context [if ?t then _ else _] => destruct t end;
      reflexivity.
Qed.

Lemma factor_in_unit_interval_witness :
  exists c,
    SCULPT_automasking_cache_init
      (scene_of 0 None) (Some (brush_of BRUSH_AUTOMASKING_BOUNDARY_EDGES 3 F32.one))
      {| sculpt := chain5 |} = Done (Some c)
    /\ F32.in_unit_interval (SCULPT_automasking_factor_get (Some c) chain5 1%nat) = true.
Proof.
  destruct (SCULPT_automasking_cache_init
              (scene_of 0 None) (Some (brush_of BRUSH_AUTOMASKING_BOUNDARY_EDGES 3 F32.one))
              {| sculpt := chain5 |}) as [[c|]|] eqn:E;
    [|vm_compute in E; discriminate..].
  exists c. split; [reflexivity|].
  apply (factor_in_unit_interval _ _ {| sculpt := chain5 |} c 1%nat E);
    [reflexivity | cbn; lia | cbn; lia].
Defined.

(** ** Single precision: sums *)

Lemma shl_align_fst (m : positive) (e e' : Z) :
  e' <= e -> Z.pos (fst (shl_align m e e')) = Z.pos m * 2 ^ (e - e').
Proof.
  intros He. unfold shl_align.
  destruct (e' - e) as [|n|n] eqn:Hn; cbn [fst]; [|lia|].
  - replace (e - e') with 0 by lia. lia.
  - rewrite pos_iter_xO. f_equal. f_equal. lia.
Qed.

(** The sum of two positive canonical numbers is the normalisation of an
    integer mantissa that carries the exact sum. *)
Lemma add_normalize (mx my : positive) (ex ey : Z) (k : Z) :
  (F2Q (S754_finite false mx ex) + F2Q (S754_finite false my ey) <= pow2 k)%Q ->
  k <= 125 ->
  exists M e,
    0 <= M
    /\ Zdigits2 M + e <= 127
    /\ (inject_Z M * pow2 e
        == F2Q (S754_finite false mx ex) + F2Q (S754_finite false my ey))%Q
    /\ (S754_finite false mx ex + S754_finite false my ey)%f32
       = binary_normalize F32.prec F32.emax M e false.
Proof.
  intros Hv Hk.
  set (ez := Z.min ex ey).
  assert (Hx := shl_align_fst mx ex ez ltac:(lia)).
  assert (Hy := shl_align_fst my ey ez ltac:(lia)).
  exists (Z.pos (fst (shl_align mx ex ez)) + Z.pos (fst (shl_align my ey ez))), ez.
  assert (Hval : (inject_Z (Z.pos (fst (shl_align mx ex ez))
                            + Z.pos (fst (shl_align my ey ez))) * pow2 ez
                  == F2Q (S754_finite false mx ex) + F2Q (S754_finite false my ey))%Q).
  { rewrite Hx, Hy, inject_Z_plus, !inject_Z_mult, !pow2_Z by lia. cbn [F2Q].
    rewrite !Qmult_1_l.
    assert (Ex : (pow2 ex == pow2 (ex - ez) * pow2 ez)%Q).
    { rewrite <- pow2_add. replace (ex - ez + ez) with ex by lia. reflexivity. }
    assert (Ey : (pow2 ey == pow2 (ey - ez) * pow2 ez)%Q).
    { rewrite <- pow2_add. replace (ey - ez + ez) with ey by lia. reflexivity. }
    rewrite Ex, Ey. ring. }
  split; [lia|]. split; [|split; [exact Hval|reflexivity]].
  destruct (Z.pos (fst (shl_align mx ex ez)) + Z.pos (fst (shl_align my ey ez)))
    as [|M|M] eqn:HM; try lia.
  assert (H := magnitude_of_value M ez k).
  cbn [F2Q] in H. rewrite Qmult_1_l in H.
  change (Zdigits2 (Z.pos M)) with (Z.pos (digits2_pos M)).
  assert (H' : Z.pos (digits2_pos M) + ez <= k + 1).
  { apply H. rewrite Hval. exact Hv. }
  lia.
Qed.

Lemma add_canonical (x y : float) (k : Z) :
  canonical_nonneg x -> canonical_nonneg y ->
  (F2Q x + F2Q y <= pow2 k)%Q -> k <= 125 ->
  canonical_nonneg (x + y)%f32.
Proof.
  intros Hx Hy Hv Hk.
  destruct x as [[|]| | |[|] mx ex]; cbn [canonical_nonneg] in Hx; try contradiction;
    destruct y as [[|]| | |[|] my ey]; cbn [canonical_nonneg] in Hy; try contradiction;
    try exact I; try exact Hx; try exact Hy.
  destruct (add_normalize mx my ex ey k Hv Hk) as (M & e & HM & Hg & _ & ->).
  apply normalize_canonical; assumption.
Qed.

(** Rounding a canonical number gives it back. *)
Lemma canonical_round_trip (mz : positive) (ez : Z) :
  canonical_nonneg (S754_finite false mz ez) ->
  binary_normalize F32.prec F32.emax (Z.pos mz) ez false = S754_finite false mz ez.
Proof.
  intros Hz. cbn [canonical_nonneg] in Hz.
  change (2 ^ 23) with 8388608 in Hz. change (2 ^ 24) with 16777216 in Hz.
  destruct Hz as (He & Hm & Hn).
  assert (B := Zdigits2_pos_bounds mz).
  assert (Hd : Z.pos (digits2_pos mz) <= 24).
  { assert (H : 2 ^ (Z.pos (digits2_pos mz) - 1) < 2 ^ 24)
      by (change (2 ^ 24) with 16777216; lia).
    apply Z.pow_lt_mono_r_iff in H; lia. }
  assert (Hfe : Z.max (Z.pos (digits2_pos mz) + ez - 24) (-149) - ez = 0).
  { destruct (Z.eq_dec ez (-149)) as [->|Hne]; [lia|].
    assert (H23 : 2 ^ 23 <= Z.pos mz) by (change (2 ^ 23) with 8388608; apply Hn; lia).
    assert (H : 2 ^ 23 < 2 ^ Z.pos (digits2_pos mz)) by lia.
    apply Z.pow_lt_mono_r_iff in H; lia. }
  cbn [binary_normalize]. unfold binary_round, shl_align. rewrite fexp32, Hfe.
  unfold binary_round_aux, shr_fexp, shr. rewrite !fexp32.
  change (Zdigits2 (Z.pos mz)) with (Z.pos (digits2_pos mz)).
  rewrite Hfe.
  cbn [shr_record_of_loc shr_m loc_of_shr_record round_nearest_even].
  rewrite !fexp32.
  change (Zdigits2 (Z.pos mz)) with (Z.pos (digits2_pos mz)).
  rewrite Hfe. cbn [shr_record_of_loc shr_m].
  change (F32.emax - F32.prec) with 104.
  destruct (Z.leb_spec ez 104); [reflexivity|lia].
Qed.

(** A canonical number that does not exceed an integer does not exceed the
    integer's conversion. *)
Lemma below_integer (z : float) (K : Z) :
  canonical_nonneg z ->
  0 <= K < 2 ^ 32 ->
  (F2Q z <= inject_Z K)%Q ->
  (F2Q z <= F2Q (F32.of_Z K))%Q.
Proof.
  intros Hz HK Hzv.
  assert (HK32 : (inject_Z K <= pow2 32)%Q).
  { rewrite <- pow2_Z by lia. apply inject_Z_le. lia. }
  assert (HKd := Zdigits2_le K 32 HK ltac:(lia)).
  destruct z as [[|]| | |[|] mz ez]; cbn [canonical_nonneg] in Hz; try contradiction.
  { apply F2Q_nonneg. apply of_Z_canonical. lia. }
  rewrite <- (canonical_round_trip mz ez Hz). unfold F32.of_Z.
  assert (Hmag := magnitude_of_value mz ez 32 ltac:(lra)).
  apply normalize_mono; try lia.
  - change (Zdigits2 (Z.pos mz)) with (Z.pos (digits2_pos mz)). lia.
  - rewrite pow2_0, Qmult_1_r. cbn [F2Q] in Hzv. rewrite Qmult_1_l in Hzv. exact Hzv.
Qed.

(** A sum that does not exceed an integer rounds to at most the integer's
    conversion. *)
Lemma add_below_integer (x y : float) (K : Z) :
  canonical_nonneg x -> canonical_nonneg y ->
  0 <= K < 2 ^ 32 ->
  (F2Q x + F2Q y <= inject_Z K)%Q ->
  (F2Q (x + y)%f32 <= F2Q (F32.of_Z K))%Q.
Proof.
  intros Hx Hy HK Hv.
  assert (Hx0 := F2Q_nonneg x Hx). assert (Hy0 := F2Q_nonneg y Hy).
  assert (HK32 : (inject_Z K <= pow2 32)%Q).
  { rewrite <- pow2_Z by lia. apply inject_Z_le. lia. }
  assert (HKd := Zdigits2_le K 32 HK ltac:(lia)).
  assert (Hof := fun z Hz => below_integer z K Hz HK).
  destruct x as [[|]| | |[|] mx ex]; cbn [canonical_nonneg] in Hx; try contradiction;
    destruct y as [[|]| | |[|] my ey]; cbn [canonical_nonneg] in Hy; try contradiction.
  - apply F2Q_nonneg. apply of_Z_canonical. lia.
  - change (S754_zero false + S754_finite false my ey)%f32 with (S754_finite false my ey).
    change (F2Q (S754_zero false)) with 0%Q in Hv. apply Hof; [exact Hy|lra].
  - change (S754_finite false mx ex + S754_zero false)%f32 with (S754_finite false mx ex).
    change (F2Q (S754_zero false)) with 0%Q in Hv. apply Hof; [exact Hx|lra].
  - destruct (add_normalize mx my ex ey 32 ltac:(lra) ltac:(lia)) as (M & e & HM & Hg & HV & ->).
    unfold F32.of_Z. apply normalize_mono; try lia.
    rewrite HV, pow2_0, Qmult_1_r. exact Hv.
Qed.

(** Integers up to [2^24] convert without error. *)
Lemma of_Z_le_exact (K : Z) :
  0 <= K <= 2 ^ 24 -> (F2Q (F32.of_Z K) <= inject_Z K)%Q.
Proof.
  intros HK. change (2 ^ 24) with 16777216 in HK.
  destruct (Z.eq_dec K 0) as [->|H0]; [vm_compute; discriminate|].
  destruct (Z.eq_dec K 16777216) as [->|H24]; [vm_compute; discriminate|].
  destruct (Zdigits2_bounds K ltac:(lia)) as (Hd0 & Hdu & Hdl).
  specialize (Hdl ltac:(lia)).
  set (d := Zdigits2 K) in *.
  assert (Hd1 : 1 <= d).
  { destruct (Z_le_gt_dec 1 d); [assumption|]. assert (d = 0) as E by lia.
    rewrite E in Hdu. simpl in Hdu. lia. }
  assert (Hd24 : d <= 24).
  { assert (H : 2 ^ (d - 1) < 2 ^ 24) by (change (2 ^ 24) with 16777216; lia).
    apply Z.pow_lt_mono_r_iff in H; lia. }
  assert (Hp : 0 < 2 ^ (24 - d)) by (apply Z.pow_pos_nonneg; lia).
  assert (Hlo : 2 ^ 23 <= K * 2 ^ (24 - d)).
  { replace 23 with (d - 1 + (24 - d)) by lia. rewrite pow2_split by lia. nia. }
  assert (Hhi : K * 2 ^ (24 - d) < 2 ^ 24).
  { replace 24 with (d + (24 - d)) at 2 by lia. rewrite pow2_split by lia. nia. }
  destruct (K * 2 ^ (24 - d)) as [|p|p] eqn:HM; try lia.
  assert (Hc : canonical_nonneg (S754_finite false p (d - 24))).
  { cbn [canonical_nonneg]. lia. }
  assert (Hv : (inject_Z (Z.pos p) * pow2 (d - 24) == inject_Z K)%Q).
  { rewrite <- HM, inject_Z_mult, pow2_Z by lia.
    rewrite <- Qmult_assoc, <- pow2_add. replace (24 - d + (d - 24)) with 0 by lia.
    rewrite pow2_0. ring. }
  assert (H := normalize_mono K 0 (Z.pos p) (d - 24)).
  rewrite (canonical_round_trip p (d - 24) Hc) in H.
  fold (F32.of_Z K) in H.
  assert (Hle : (F2Q (F32.of_Z K) <= F2Q (S754_finite false p (d - 24)))%Q).
  { apply H; try lia.
    - assert (Hdp := Zdigits2_le (Z.pos p) 24 ltac:(lia) ltac:(lia)). lia.
    - rewrite Hv, pow2_0. lra. }
  cbn [F2Q] in Hle. rewrite Qmult_1_l, Hv in Hle. exact Hle.
Qed.

(** ** NaN, negative zero, or a number from 0 to 1 *)

Lemma weak_unit_or_nan (x : float) : weak_unit x -> unit_or_nan x.
Proof.
  intros [->|[->|[Hc Hv]]]; [left; reflexivity|right; reflexivity|].
  right. apply unit_entry_in_interval; assumption.
Qed.

Lemma mul_weak (x y : float) : weak_unit x -> weak_unit y -> weak_unit (x * y)%f32.
Proof.
  intros [->|[->|Hx]] Hy.
  - left. reflexivity.
  - destruct Hy as [->|[->|[Hy _]]].
    + left. reflexivity.
    + right; right. exact unit_entry_zero.
    + destruct y as [[|]| | |[|] my ey]; cbn [canonical_nonneg] in Hy; try contradiction;
        right; left; reflexivity.
  - destruct Hy as [->|[->|Hy]].
    + left. destruct x as [[|]|[|]| |[|] mx ex]; reflexivity.
    + destruct Hx as [Hx _].
      destruct x as [[|]| | |[|] mx ex]; cbn [canonical_nonneg] in Hx; try contradiction;
        right; left; reflexivity.
    + right; right. apply mul_unit; assumption.
Qed.

Lemma weak_unit_zero : weak_unit F32.zero.
Proof. right; right. exact unit_entry_zero. Qed.

Lemma weak_unit_one : weak_unit F32.one.
Proof. right; right. exact unit_entry_one. Qed.

Lemma arr_get_weak (a : list float) (i : nat) :
  Forall weak_unit a -> weak_unit (arr_get F32.zero a i).
Proof.
  intros Ha. unfold arr_get. destruct (a !! i) as [x|] eqn:Hx; [|exact weak_unit_zero].
  exact (proj1 (Forall_lookup _ _) Ha i x Hx).
Qed.

(** ** The blur keeps the range *)

Lemma neighbor_sum_bound (values : list float) (nbrs : list nat) :
  Forall weak_unit values ->
  forall (s : float) (j : Z),
    0 <= j ->
    nan_or_below (inject_Z (Z.min j (2 ^ 24))) s ->
    nan_or_below (inject_Z (Z.min (j + Z.of_nat (length nbrs)) (2 ^ 24)))
      (neighbor_sum values nbrs s).
Proof.
  intros Hvals. change (2 ^ 24) with 16777216.
  induction nbrs as [|ni nbrs IH]; intros s j Hj Hs.
  - cbn [length neighbor_sum fold_left]. replace (j + Z.of_nat 0) with j by lia. exact Hs.
  - unfold neighbor_sum. cbn [fold_left length]. fold (neighbor_sum values nbrs).
    replace (j + Z.of_nat (S (length nbrs))) with (j + 1 + Z.of_nat (length nbrs)) by lia.
    apply IH; [lia|].
    assert (Hx := arr_get_weak values ni Hvals).
    set (x := arr_get F32.zero values ni) in *. clearbody x.
    destruct Hs as [->|[Hs Hsv]]; [left; reflexivity|].
    assert (Hmin : (inject_Z (Z.min j 16777216) <= inject_Z (Z.min (j + 1) 16777216))%Q)
      by (apply inject_Z_le; lia).
    destruct Hx as [->|[->|[Hx Hxv]]].
    + left. destruct s as [[|]|[|]| |[|] ms es]; reflexivity.
    + right.
      assert (E : (s + S754_zero true)%f32 = s).
      { destruct s as [[|]| | |[|] ms es]; cbn [canonical_nonneg] in Hs;
          try contradiction; reflexivity. }
      rewrite E. split; [exact Hs|lra].
    + right.
      assert (Hs0 := F2Q_nonneg s Hs). assert (Hx0 := F2Q_nonneg x Hx).
      assert (HJ : (inject_Z (Z.min j 16777216) <= 16777216)%Q).
      { change 16777216%Q with (inject_Z 16777216). apply inject_Z_le. lia. }
      split.
      { apply (add_canonical s x 25); try assumption; [|lia].
        assert (P : (pow2 25 == 33554432)%Q) by reflexivity. rewrite P. lra. }
      assert (Hsum : (F2Q s + F2Q x <= inject_Z (Z.min j 16777216 + 1))%Q).
      { rewrite inject_Z_plus. change (inject_Z 1) with 1%Q. lra. }
      assert (H := add_below_integer s x (Z.min j 16777216 + 1) Hs Hx
                     ltac:(change (2 ^ 32) with 4294967296; lia) Hsum).
      apply (Qle_trans _ _ _ H).
      destruct (Z_lt_ge_dec j 16777216) as [Hlt|Hge].
      * replace (Z.min j 16777216 + 1) with (Z.min (j + 1) 16777216) by lia.
        apply of_Z_le_exact. change (2 ^ 24) with 16777216. lia.
      * replace (Z.min j 16777216 + 1) with 16777217 by lia.
        replace (Z.min (j + 1) 16777216) with 16777216 by lia.
        vm_compute. discriminate.
Qed.

Lemma neighbor_mean_bound (ss : SculptSession) (values : list float) (i : nat) :
  Forall weak_unit values ->
  Z.of_nat (length (vertex_neighbors ss i)) < 2 ^ 31 ->
  nan_or_below 1 (neighbor_mean ss values i).
Proof.
  intros Hvals Hval. unfold neighbor_mean. cbv zeta.
  fold (neighbor_sum values (vertex_neighbors ss i) F32.zero).
  assert (Hsum := neighbor_sum_bound values (vertex_neighbors ss i) Hvals F32.zero 0
                    ltac:(lia) ltac:(right; split; [exact I | vm_compute; discriminate])).
  set (sum := neighbor_sum values (vertex_neighbors ss i) F32.zero) in *. clearbody sum.
  destruct (vertex_neighbors ss i) as [|n0 nbrs] eqn:Hn.
  { destruct Hsum as [->|[Hc Hv]]; [left; reflexivity|right].
    split; [exact Hc|].
    change (inject_Z (Z.min (0 + Z.of_nat (length (@nil nat))) (2 ^ 24))) with 0%Q in Hv.
    lra. }
  set (k := Z.of_nat (length (n0 :: nbrs))) in *.
  assert (Hk1 : 1 <= k) by (unfold k; cbn [length]; lia).
  change (2 ^ 24) with 16777216 in Hsum. change (2 ^ 31) with 2147483648 in Hval.
  replace (0 + k) with k in Hsum by lia.
  destruct Hsum as [->|[Hc Hv]]; [left; reflexivity|right].
  assert (HcK := of_Z_canonical k ltac:(change (2 ^ 32) with 4294967296; lia)).
  destruct (of_Z_bounds k k ltac:(lia) Hk1 ltac:(change (2 ^ 31) with 2147483648; lia))
    as (_ & _ & HK1).
  assert (HsK : (F2Q sum <= F2Q (F32.of_Z k))%Q).
  { apply below_integer; [exact Hc|change (2 ^ 32) with 4294967296; lia|].
    apply (Qle_trans _ _ _ Hv). apply inject_Z_le. lia. }
  destruct (F32.of_Z k) as [[|]| | |[|] my ey] eqn:EK; cbn [canonical_nonneg] in HcK;
    try contradiction;
    try (exfalso; change (F2Q (S754_zero false)) with 0%Q in HK1; lra).
  assert (Hey := exponent_of_value_ge_one my ey HcK HK1).
  assert (Hmag : forall mx ex, sum = S754_finite false mx ex ->
                               Z.pos (digits2_pos mx) + ex - ey <= 127).
  { intros mx ex E. rewrite E in Hv.
    assert (H24 : (F2Q (S754_finite false mx ex) <= pow2 24)%Q).
    { apply (Qle_trans _ _ _ Hv). rewrite <- pow2_Z by lia. apply inject_Z_le.
      change (2 ^ 24) with 16777216. lia. }
    apply magnitude_of_value in H24. lia. }
  split; [apply div_canonical | apply div_le_one]; assumption.
Qed.

(** One entry of a blur round. *)
Lemma blur_entry_weak (mean own : float) :
  nan_or_below 1 mean -> weak_unit own ->
  weak_unit ((mean + own) * F32.half)%f32.
Proof.
  intros Hm Ho.
  assert (Hhalf : unit_entry F32.half).
  { split; [|vm_compute; discriminate].
    cbn. change (2 ^ 24) with 16777216. change (2 ^ 23) with 8388608. lia. }
  destruct Hm as [->|[Hm Hmv]]; [left; reflexivity|].
  destruct Ho as [->|[->|[Ho Hov]]].
  - left. destruct mean as [[|]|[|]| |[|] mm em]; reflexivity.
  - right; right.
    assert (E : (mean + S754_zero true)%f32 = mean).
    { destruct mean as [[|]| | |[|] mm em]; cbn [canonical_nonneg] in Hm;
        try contradiction; reflexivity. }
    rewrite E. apply mul_unit; [split; assumption|exact Hhalf].
  - right; right.
    assert (Hm0 := F2Q_nonneg mean Hm). assert (Ho0 := F2Q_nonneg own Ho).
    assert (Hc : canonical_nonneg (mean + own)%f32).
    { apply (add_canonical mean own 1); try assumption; [|lia].
      change (pow2 1) with 2%Q. lra. }
    assert (Hv : (F2Q (mean + own)%f32 <= 2)%Q).
    { assert (H := add_below_integer mean own 2 Hm Ho
                     ltac:(change (2 ^ 32) with 4294967296; lia)).
      change (inject_Z 2) with 2%Q in H.
      assert (E : (F2Q (F32.of_Z 2) == 2)%Q) by (vm_compute; reflexivity).
      rewrite E in H. apply H. lra. }
    destruct Hhalf as [Hh Hhv].
    assert (Eh : (F2Q F32.half == 1 # 2)%Q) by (vm_compute; reflexivity).
    split; [apply mul_canonical; try assumption; lra|].
    assert (H := mul_mono (mean + own)%f32 F32.half (F32.of_Z 2) F32.half Hc Hh
                   (of_Z_canonical 2 ltac:(change (2 ^ 32) with 4294967296; lia)) Hh).
    assert (E2 : (F2Q (F32.of_Z 2) == 2)%Q) by (vm_compute; reflexivity).
    assert (E1 : (F2Q (F32.of_Z 2 * F32.half)%f32 == 1)%Q) by (vm_compute; reflexivity).
    rewrite E1 in H. apply H; rewrite ?E2, ?Eh; lra.
Qed.

Lemma blur_mix_weak (ss : SculptSession) (neighbors_from own_from : list float) :
  valence_in_range ss ->
  length own_from = totvert ss ->
  Forall weak_unit neighbors_from ->
  Forall weak_unit own_from ->
  Forall weak_unit (blur_mix ss neighbors_from own_from).
Proof.
  intros Hval Hlen Hn Ho. apply Forall_lookup. intros i x Hx.
  unfold blur_mix in Hx. rewrite list_lookup_imap in Hx.
  destruct (own_from !! i) as [own|] eqn:Hown; [|discriminate].
  cbn in Hx. injection Hx as <-.
  assert (Hi : (i < totvert ss)%nat).
  { rewrite <- Hlen. apply lookup_lt_is_Some. eauto. }
  apply blur_entry_weak.
  - apply neighbor_mean_bound; [exact Hn|]. apply Hval. exact Hi.
  - exact (proj1 (Forall_lookup _ _) Ho i own Hown).
Qed.

Lemma cavity_blur_weak (ss : SculptSession) (rounds : nat) :
  valence_in_range ss ->
  forall factor scratch,
    length factor = totvert ss -> length scratch = totvert ss ->
    Forall weak_unit factor -> Forall weak_unit scratch ->
    Forall weak_unit (fst (cavity_blur rounds ss factor scratch)).
Proof.
  intros Hval. induction rounds as [|rounds IH]; intros factor scratch Lf Ls Hf Hs.
  - exact Hf.
  - rewrite cavity_blur_round_stale by exact Ls.
    apply IH; try assumption.
    + rewrite length_blur_mix. exact Ls.
    + apply blur_mix_weak; assumption.
Qed.

(** ** Single precision: multiplying by 1.0 and by 0.0 *)

Lemma canonical_exponent_fixed (mx : positive) (ex : Z) :
  canonical_nonneg (S754_finite false mx ex) ->
  Z.max (Z.pos (digits2_pos mx) + ex - 24) (-149) - ex = 0.
Proof.
  intros Hz. cbn [canonical_nonneg] in Hz.
  change (2 ^ 23) with 8388608 in Hz. change (2 ^ 24) with 16777216 in Hz.
  destruct Hz as (He & Hm & Hn).
  assert (B := Zdigits2_pos_bounds mx).
  assert (Hd : Z.pos (digits2_pos mx) <= 24).
  { assert (H : 2 ^ (Z.pos (digits2_pos mx) - 1) < 2 ^ 24)
      by (change (2 ^ 24) with 16777216; lia).
    apply Z.pow_lt_mono_r_iff in H; lia. }
  destruct (Z.eq_dec ex (-149)) as [->|Hne]; [lia|].
  assert (H23 : 2 ^ 23 <= Z.pos mx) by (change (2 ^ 23) with 8388608; apply Hn; lia).
  assert (H : 2 ^ 23 < 2 ^ Z.pos (digits2_pos mx)) by lia.
  apply Z.pow_lt_mono_r_iff in H; lia.
Qed.

(** The product of a canonical number and 1.0 is the number itself, bit
    for bit. *)
Lemma mul_one_r (x : float) : canonical_nonneg x -> (x * F32.one)%f32 = x.
Proof.
  intros Hz.
  destruct x as [[|]| | |[|] mx ex]; cbn [canonical_nonneg] in Hz; try contradiction;
    [reflexivity|].
  assert (Hfe := canonical_exponent_fixed mx ex Hz).
  cbn [canonical_nonneg] in Hz. destruct Hz as (He & _).
  unfold F32.mul, F32.one, SFmul. cbn [xorb]. rewrite Pos.mul_comm.
  change (8388608 * mx)%positive with (Pos.iter xO mx 23).
  unfold binary_round_aux, shr_fexp, shr. rewrite !fexp32.
  change (Zdigits2 (Z.pos (Pos.iter xO mx 23)))
    with (Z.pos (digits2_pos (Pos.iter xO mx 23))).
  rewrite digits_iter_xO.
  replace (Z.max (Z.pos (digits2_pos mx) + 23 + (ex + -23) - 24) (-149) - (ex + -23))
    with 23 by lia.
  cbn [Pos.iter SpecFloat.iter_pos shr_1 shr_record_of_loc orb shr_m loc_of_shr_record
       round_nearest_even].
  rewrite !fexp32.
  change (Zdigits2 (Z.pos mx)) with (Z.pos (digits2_pos mx)).
  replace (ex + -23 + 23) with ex by lia.
  rewrite Hfe. cbn [shr_m].
  change (F32.emax - F32.prec) with 104.
  destruct (Z.leb_spec ex 104); [reflexivity|lia].
Qed.

Lemma mul_comm (x y : float) : canonical_nonneg x -> canonical_nonneg y ->
  (x * y)%f32 = (y * x)%f32.
Proof.
  intros Hx Hy.
  destruct x as [[|]| | |[|] mx ex]; cbn [canonical_nonneg] in Hx; try contradiction;
    destruct y as [[|]| | |[|] my ey]; cbn [canonical_nonneg] in Hy; try contradiction;
    try reflexivity.
  unfold F32.mul, SFmul. rewrite Pos.mul_comm, Z.add_comm. reflexivity.
Qed.

Lemma mul_one_l (x : float) : canonical_nonneg x -> (F32.one * x)%f32 = x.
Proof.
  intros Hx. rewrite mul_comm; [apply mul_one_r; exact Hx|exact one_canonical|exact Hx].
Qed.

Lemma unit_times_zero (x : float) : canonical_nonneg x -> (x * F32.zero)%f32 = F32.zero.
Proof.
  intros Hx.
  destruct x as [[|]| | |[|] m e]; cbn [canonical_nonneg] in Hx; try contradiction;
    reflexivity.
Qed.

Lemma zero_times_unit (y : float) : canonical_nonneg y -> (F32.zero * y)%f32 = F32.zero.
Proof.
  intros Hy.
  destruct y as [[|]| | |[|] m e]; cbn [canonical_nonneg] in Hy; try contradiction;
    reflexivity.
Qed.

(** ** Every factor is NaN or a number from 0 to 1 *)

Lemma cavity_factor_weak (c : AutomaskingCache) (ss : SculptSession) (v : nat) :
  weak_unit (sculpt_automasking_cavity_factor c ss v).
Proof.
  unfold sculpt_automasking_cavity_factor. cbv zeta.
  set (t := (F32.fabsf (SCULPT_calc_cavity ss v) * cavity_factor (settings c) * F32.fifty
             * signf (SCULPT_calc_cavity ss v) * F32.half)%f32).
  destruct (clamp_unit_cases (t + F32.half)%f32 (add_half_valid t)) as [E|[E|[Hc Hv]]].
  - rewrite E. left. destruct (flag_set _ _); reflexivity.
  - rewrite E. destruct (flag_set _ _).
    + right; right. exact unit_entry_one.
    + right; left. reflexivity.
  - right; right. destruct (flag_set _ _).
    + split; [apply sub_one_canonical | apply sub_one_le_one]; assumption.
    + split; assumption.
Qed.

Lemma cavity_multiply_weak (c : AutomaskingCache) (ss : SculptSession) (a : list float) :
  length a = totvert ss ->
  Forall weak_unit a ->
  Forall weak_unit (cavity_multiply c ss a).
Proof.
  intros Hlen Ha. apply Forall_lookup. intros i x Hx.
  assert (Hi : (i < totvert ss)%nat).
  { rewrite <- (cavity_multiply_length c ss a Hlen). apply lookup_lt_is_Some. eauto. }
  rewrite (cavity_multiply_lookup c ss a i Hlen Hi) in Hx. injection Hx as <-.
  apply mul_weak; [apply arr_get_weak; exact Ha|apply cavity_factor_weak].
Qed.

Lemma replicate_one_weak (n : nat) : Forall weak_unit (replicate n F32.one).
Proof. apply Forall_replicate. exact weak_unit_one. Qed.

Lemma cavity_blurred_weak (c : AutomaskingCache) (ss : SculptSession) (steps : Z) :
  valence_in_range ss ->
  Forall weak_unit (cavity_blurred c ss steps).
Proof.
  intros Hval. unfold cavity_blurred. cbv zeta.
  apply cavity_blur_weak; try assumption.
  - apply cavity_multiply_length. apply length_replicate.
  - apply length_replicate.
  - apply cavity_multiply_weak; [apply length_replicate|apply replicate_one_weak].
  - apply replicate_one_weak.
Qed.

Lemma topology_term_weak (sd : Sculpt) (ss : SculptSession) (v : nat) (x : float) :
  weak_unit x -> weak_unit (topology_term sd ss v x).
Proof.
  intros Hx. unfold topology_term.
  destruct (pmap_missing_for_faces ss); [exact Hx|].
  destruct (floodfill_reached _ _ _); [exact weak_unit_one|exact weak_unit_zero].
Qed.

Lemma face_sets_term_weak (sd : Sculpt) (ss : SculptSession) (v : nat) (x : float) :
  weak_unit x -> weak_unit (face_sets_term sd ss v x).
Proof.
  intros Hx. unfold face_sets_term.
  destruct (_ && _); [|exact Hx]. apply mul_weak; [exact Hx|exact weak_unit_zero].
Qed.

Lemma cavity_term_weak (sd : Sculpt) (ss : SculptSession) (c : AutomaskingCache)
    (steps : Z) (v : nat) (x : float) :
  valence_in_range ss ->
  weak_unit x -> weak_unit (cavity_term sd ss c steps v x).
Proof.
  intros Hval Hx. unfold cavity_term.
  destruct (paint_pass_runs sd ss); [|exact Hx].
  destruct (1 <? steps); apply mul_weak; try exact Hx.
  - apply arr_get_weak. apply cavity_blurred_weak. exact Hval.
  - apply cavity_factor_weak.
Qed.

(** With no step to take, the multiplier of a seed is NaN or 0.0, whatever
    the step count converts to. *)
Lemma boundary_multiplier_no_step (y : float) :
  weak_unit (F32.one - pow2f (F32.one - F32.zero / y))%f32.
Proof.
  destruct y as [[|]|[|]| |[|] m e];
    first [ left; reflexivity | right; right; exact unit_entry_zero ].
Qed.

Lemma boundary_multiplier_weak (d N : Z) :
  0 <= d <= Z.max 0 N -> N < 2 ^ 31 ->
  weak_unit (boundary_multiplier d N).
Proof.
  intros Hd HN. destruct (Z_le_gt_dec 1 N) as [H1|H1].
  - right; right. apply boundary_multiplier_unit; lia.
  - assert (d = 0) as -> by lia. unfold boundary_multiplier. cbv zeta.
    change (F32.of_Z 0) with F32.zero. apply boundary_multiplier_no_step.
Qed.

Lemma boundary_term_weak (ss : SculptSession) (mode : eBoundaryAutomaskMode)
    (N : Z) (v : nat) (x : float) :
  N < 2 ^ 31 ->
  (v < totvert ss)%nat ->
  weak_unit x -> weak_unit (boundary_term ss mode N v x).
Proof.
  intros HN Hv Hx. unfold boundary_term. destruct (pmap ss); [|exact Hx]. cbv zeta.
  rewrite (edge_distance_of_nat ss mode N).
  destruct (edge_distance_shape ss mode (Z.to_nat N)) as [_ Hshape].
  destruct (Hshape v Hv) as (d & Hd & Hrange & _).
  rewrite (arr_get_lookup _ _ _ _ Hd).
  destruct (Z.eqb_spec d EDGE_DISTANCE_INF) as [E|NE]; [exact Hx|].
  apply mul_weak; [exact Hx|].
  apply boundary_multiplier_weak; lia.
Qed.

Lemma composed_factor_weak (sd : Sculpt) (b : Brush) (ss : SculptSession) (v : nat) :
  automasking_boundary_edges_propagation_steps b < 2 ^ 31 ->
  valence_in_range ss ->
  (v < totvert ss)%nat ->
  weak_unit (composed_factor sd b ss v).
Proof.
  intros Hsteps Hval Hv. unfold composed_factor. cbv zeta.
  repeat match goal with
         | |- context [if ?t then _ else _] =>
             match t with
             | SCULPT_is_automasking_mode_enabled _ _ _ => destruct t
             end
         end;
    repeat first [ apply boundary_term_weak; [exact Hsteps | exact Hv |]
                 | apply cavity_term_weak; [exact Hval |]
                 | apply face_sets_term_weak
                 | apply topology_term_weak
                 | exact weak_unit_one ].
Qed.

(** X9: whatever the strategies, the mesh and the brush, every factor
    [SCULPT_automasking_factor_get] returns for a cache made by
    [SCULPT_automasking_cache_init] is NaN or a number from 0.0 to 1.0,
    blurred cavity included, as long as the step count fits a C [int] and
    is above the least one, and the number of neighbours of a vertex fits a
    C [int]. *)
Theorem factor_unit_or_nan
    (sd : Sculpt) (b : Brush) (ob : Object) (c : AutomaskingCache) (v : nat) :
  SCULPT_automasking_cache_init sd (Some b) ob = Done (Some c) ->
  - 2 ^ 31 < automasking_boundary_edges_propagation_steps b < 2 ^ 31 ->
  valence_in_range (sculpt ob) ->
  (v < totvert (sculpt ob))%nat ->
  unit_or_nan (SCULPT_automasking_factor_get (Some c) (sculpt ob) v).
Proof.
  intros Hinit [_ Hsteps] Hval Hv.
  destruct (factor c) as [f|] eqn:Hf.
  - destruct (cache_factor_lookup sd b ob c f Hinit Hf) as [_ Hlook].
    unfold SCULPT_automasking_factor_get. rewrite Hf.
    rewrite (arr_get_lookup _ _ _ _ (Hlook v Hv)).
    apply weak_unit_or_nan. apply composed_factor_weak; assumption.
  - apply on_demand_unit_or_nan. exact Hf.
Qed.

Lemma factor_unit_or_nan_witness :
  exists c,
    SCULPT_automasking_cache_init
      (scene_of 0 (Some (brush_of BRUSH_AUTOMASKING_CAVITY 3 F32.one)))
      (Some (brush_of BRUSH_AUTOMASKING_CAVITY 3 F32.one))
      {| sculpt := stacked_pair |} = Done (Some c)
    /\ unit_or_nan (SCULPT_automasking_factor_get (Some c) stacked_pair 0%nat).
Proof.
  destruct (SCULPT_automasking_cache_init
              (scene_of 0 (Some (brush_of BRUSH_AUTOMASKING_CAVITY 3 F32.one)))
              (Some (brush_of BRUSH_AUTOMASKING_CAVITY 3 F32.one))
              {| sculpt := stacked_pair |}) as [[c|]|] eqn:E;
    [|vm_compute in E; discriminate..].
  exists c. split; [reflexivity|].
  apply (factor_unit_or_nan _ _ {| sculpt := stacked_pair |} c 0%nat E).
  - cbn. lia.
  - intros u Hu. cbn in Hu.
    destruct u as [|[|u]]; [cbn; lia..|lia].
  - cbn. lia.
Defined.

(** ** One propagation step: the array and the query *)

(** With one step, the boundary term of a canonical entry is the seed
    test: the distance field stops at distance 1, where the multiplier is
    exactly 1.0, and at distance 0 the multiplier is exactly 0.0. *)
Lemma boundary_term_one_step (ss : SculptSession) (mode : eBoundaryAutomaskMode)
    (v : nat) (x : float) :
  pmap ss = true ->
  (v < totvert ss)%nat ->
  canonical_nonneg x ->
  boundary_term ss mode 1 v x
  = if boundary_seed_vertex ss mode v then F32.zero else x.
Proof.
  intros Hp Hv Hx. unfold boundary_term. rewrite Hp. cbv zeta.
  destruct (edge_distance_shape ss mode 1) as [_ Hshape].
  destruct (Hshape v Hv) as (d & Hd & Hrange & Hseed).
  change (Z.of_nat 1) with 1 in Hd, Hrange.
  rewrite (arr_get_lookup _ _ _ _ Hd).
  destruct Hrange as [->|Hrange].
  { change (EDGE_DISTANCE_INF =? EDGE_DISTANCE_INF) with true. cbv iota.
    destruct (boundary_seed_vertex ss mode v); [|reflexivity].
    exfalso. destruct Hseed as [_ H]. specialize (H eq_refl). discriminate. }
  assert (Hd01 : d = 0 \/ d = 1) by lia.
  destruct Hd01 as [-> | ->].
  - change (0 =? EDGE_DISTANCE_INF) with false. cbv iota.
    rewrite (proj1 Hseed eq_refl).
    change (boundary_multiplier 0 1) with F32.zero.
    apply unit_times_zero. exact Hx.
  - change (1 =? EDGE_DISTANCE_INF) with false. cbv iota.
    destruct (boundary_seed_vertex ss mode v).
    { destruct Hseed as [_ H]. specialize (H eq_refl). discriminate. }
    change (boundary_multiplier 1 1) with F32.one.
    apply mul_one_r. exact Hx.
Qed.

(** X10: with one propagation step, the adjacency map present and the
    stroke's brush being the paint's brush, the array that
    [SCULPT_automasking_cache_init] stores holds, at every vertex the flood
    fill reached, exactly the answer [SCULPT_automasking_factor_get] gives
    for the same settings without an array, and 0.0 at every other vertex;
    with Cavity on this needs the cavity factor of the vertex to be a number
    from 0.0 to 1.0, not NaN. *)
Theorem factor_array_agrees_with_query
    (sd : Sculpt) (b : Brush) (ob : Object) (c : AutomaskingCache) (f : list float)
    (v : nat) :
  SCULPT_automasking_cache_init sd (Some b) ob = Done (Some c) ->
  factor c = Some f ->
  automasking_boundary_edges_propagation_steps b = 1 ->
  paint_brush sd = Some b ->
  pmap (sculpt ob) = true ->
  (v < totvert (sculpt ob))%nat ->
  (SCULPT_is_automasking_mode_enabled sd (Some b) BRUSH_AUTOMASKING_CAVITY = true ->
   unit_entry (sculpt_automasking_cavity_factor c (sculpt ob) v)) ->
  f !! v
  = Some (if floodfill_reached (sculpt ob) (topology_use_radius sd (sculpt ob)) v
          then SCULPT_automasking_factor_get
                 (Some {| settings := settings c; factor := None |}) (sculpt ob) v
          else F32.zero).
Proof.
  intros Hinit Hf Hsteps Hpaint Hpmap Hv Hcavity.
  destruct (cache_factor_lookup sd b ob c f Hinit Hf) as [_ Hlook].
  rewrite (Hlook v Hv). f_equal. clear Hlook.
  destruct (cache_init_some sd (Some b) ob c Hinit) as (He & b' & Hb' & Hs & Hnone).
  injection Hb' as <-.
  assert (Hneeds : SCULPT_automasking_needs_factors_cache sd (Some b) = true).
  { destruct (SCULPT_automasking_needs_factors_cache sd (Some b)); [reflexivity|].
    rewrite (proj2 Hnone eq_refl) in Hf. discriminate. }
  assert (Htopo : SCULPT_is_automasking_mode_enabled sd (Some b) BRUSH_AUTOMASKING_TOPOLOGY
                  = true).
  { rewrite mode_enabled_effective.
    apply needs_factors_cache_iff in Hneeds. cbv zeta in Hneeds.
    destruct Hneeds as [H|[_ (b' & Hb' & Hne)]]; [exact H|].
    injection Hb' as <-. contradiction. }
  assert (Hmiss : pmap_missing_for_faces (sculpt ob) = false).
  { unfold pmap_missing_for_faces. rewrite Hpmap. destruct (pbvh_type (sculpt ob)); reflexivity. }
  assert (Hruns : paint_pass_runs sd (sculpt ob) = true).
  { unfold paint_pass_runs. rewrite Hpaint, He, Hmiss. reflexivity. }
  rewrite Hs.
  set (c0 := {| settings := {| flags := sculpt_automasking_mode_effective_bits sd (Some b);
                               initial_face_set := active_face_set (sculpt ob);
                               cavity_factor := automasking_cavity_factor b |};
                factor := None |}).
  assert (Hcav0 : sculpt_automasking_cavity_factor c (sculpt ob) v
                  = sculpt_automasking_cavity_factor c0 (sculpt ob) v).
  { rewrite (cavity_factor_settings c c0); [reflexivity|exact Hs]. }
  rewrite Hcav0 in Hcavity.
  unfold composed_factor, SCULPT_automasking_factor_get. cbv zeta. fold c0.
  cbn [factor settings flags initial_face_set c0]. fold c0.
  rewrite <- !mode_enabled_effective.
  rewrite Htopo, Hsteps.
  unfold topology_term, face_sets_term, cavity_term. rewrite Hmiss, Hruns. cbn [andb].
  change (1 <? 1) with false. cbv iota.
  set (on := SCULPT_is_automasking_mode_enabled sd (Some b)) in *.
  set (cav := sculpt_automasking_cavity_factor c0 (sculpt ob) v) in *.
  set (x0 := if floodfill_reached (sculpt ob) (topology_use_radius sd (sculpt ob)) v
             then F32.one else F32.zero).
  assert (H0 : x0 = F32.zero \/ x0 = F32.one).
  { unfold x0. destruct (floodfill_reached _ _ v); auto. }
  set (x1 := if on BRUSH_AUTOMASKING_FACE_SETS
             then (if negb (vertex_has_face_set (sculpt ob) v (active_face_set (sculpt ob)))
                   then (x0 * F32.zero)%f32 else x0)
             else x0).
  assert (H1 : x1 = F32.zero \/ x1 = F32.one).
  { unfold x1. destruct (on BRUSH_AUTOMASKING_FACE_SETS); [|exact H0].
    destruct (negb _); [|exact H0]. left. destruct H0 as [-> | ->]; reflexivity. }
  set (x2 := if on BRUSH_AUTOMASKING_CAVITY then (x1 * cav)%f32 else x1).
  assert (E2 : x2 = if on BRUSH_AUTOMASKING_CAVITY
                    then (if F32.eqb x1 F32.zero then F32.zero else cav)
                    else x1).
  { unfold x2. destruct (on BRUSH_AUTOMASKING_CAVITY); [|reflexivity].
    destruct (Hcavity eq_refl) as [Hc _].
    destruct H1 as [-> | ->].
    - rewrite zero_times_unit by exact Hc. reflexivity.
    - rewrite mul_one_l by exact Hc. reflexivity. }
  assert (C2 : canonical_nonneg x2).
  { rewrite E2. destruct (on BRUSH_AUTOMASKING_CAVITY).
    - destruct (F32.eqb x1 F32.zero); [exact I|]. apply (Hcavity eq_refl).
    - destruct H1 as [-> | ->]; [exact I|exact one_canonical]. }
  set (x3 := if on BRUSH_AUTOMASKING_BOUNDARY_EDGES
             then boundary_term (sculpt ob) AUTOMASK_INIT_BOUNDARY_EDGES 1 v x2
             else x2).
  assert (E3 : x3 = if on BRUSH_AUTOMASKING_BOUNDARY_EDGES && vertex_is_boundary (sculpt ob) v
                    then F32.zero else x2).
  { unfold x3. destruct (on BRUSH_AUTOMASKING_BOUNDARY_EDGES); [|reflexivity].
    rewrite boundary_term_one_step by assumption. reflexivity. }
  assert (C3 : canonical_nonneg x3).
  { rewrite E3. destruct (_ && _); [exact I|exact C2]. }
  assert (E4 : (if on BRUSH_AUTOMASKING_BOUNDARY_FACE_SETS
                then boundary_term (sculpt ob) AUTOMASK_INIT_BOUNDARY_FACE_SETS 1 v x3
                else x3)
               = if on BRUSH_AUTOMASKING_BOUNDARY_FACE_SETS
                    && negb (vertex_has_unique_face_set (sculpt ob) v)
                 then F32.zero else x3).
  { destruct (on BRUSH_AUTOMASKING_BOUNDARY_FACE_SETS); [|reflexivity].
    rewrite boundary_term_one_step by assumption. reflexivity. }
  rewrite E4, E3, E2. unfold x1, x0. clear.
  destruct (floodfill_reached (sculpt ob) (topology_use_radius sd (sculpt ob)) v),
    (on BRUSH_AUTOMASKING_FACE_SETS),
    (vertex_has_face_set (sculpt ob) v (active_face_set (sculpt ob))),
    (on BRUSH_AUTOMASKING_CAVITY),
    (on BRUSH_AUTOMASKING_BOUNDARY_EDGES),
    (vertex_is_boundary (sculpt ob) v), (on BRUSH_AUTOMASKING_BOUNDARY_FACE_SETS),
    (vertex_has_unique_face_set (sculpt ob) v); reflexivity.
Qed.

Lemma factor_array_agrees_with_query_witness :
  exists c f,
    SCULPT_automasking_cache_init
      (scene_of 0 (Some (brush_of 5 1 F32.one))) (Some (brush_of 5 1 F32.one))
      {| sculpt := two_islands |} = Done (Some c)
    /\ factor c = Some f
    /\ f = [F32.zero; F32.one; F32.one; F32.zero; F32.zero].
Proof.
  destruct (SCULPT_automasking_cache_init
              (scene_of 0 (Some (brush_of 5 1 F32.one))) (Some (brush_of 5 1 F32.one))
              {| sculpt := two_islands |}) as [[c|]|] eqn:E;
    [|vm_compute in E; discriminate..].
  destruct (factor c) as [f|] eqn:Ef.
  2:{ vm_compute in E. injection E as <-. discriminate. }
  exists c, f. split; [reflexivity|]. split; [exact Ef|].
  assert (Hs : settings c = {| flags := 5; initial_face_set := 1; cavity_factor := F32.one |}).
  { vm_compute in E. injection E as <-. reflexivity. }
  assert (Hl : length f = 5%nat).
  { vm_compute in E. injection E as <-. injection Ef as <-. reflexivity. }
  assert (H : forall v, (v < 5)%nat ->
            f !! v
            = Some (if floodfill_reached two_islands
                         (topology_use_radius (scene_of 0 (Some (brush_of 5 1 F32.one)))
                            two_islands) v
                    then SCULPT_automasking_factor_get
                           (Some {| settings := settings c; factor := None |}) two_islands v
                    else F32.zero)).
  { intros v Hlt.
    apply (factor_array_agrees_with_query _ _ _ c f v E Ef);
      try reflexivity; try exact Hlt.
    intros Hc. discriminate Hc. }
  rewrite Hs in H.
  apply list_eq. intros v.
  destruct (Nat.lt_ge_cases v 5) as [Hlt|Hge].
  - rewrite (H v Hlt).
    do 5 (destruct v as [|v]; [reflexivity|]). cbn in Hlt. lia.
  - rewrite !(proj2 (lookup_ge_None _ _)); [reflexivity|cbn; lia|lia].
Defined.

(** ** Vertices that are masked out *)

(** At distance 0 the multiplier is exactly 0.0, for every step count from
    1 up. *)
Lemma boundary_multiplier_seed (N : Z) :
  1 <= N < 2 ^ 31 -> boundary_multiplier 0 N = F32.zero.
Proof.
  intros HN.
  assert (HcN := of_Z_canonical N ltac:(change (2 ^ 32) with 4294967296;
                                        change (2 ^ 31) with 2147483648 in HN; lia)).
  destruct (of_Z_bounds N N ltac:(lia) ltac:(lia) ltac:(lia)) as (_ & _ & HN1).
  unfold boundary_multiplier. cbv zeta. change (F32.of_Z 0) with F32.zero.
  destruct (F32.of_Z N) as [[|]| | |[|] my ey]; cbn [canonical_nonneg] in HcN;
    try contradiction;
    try (exfalso; change (F2Q (S754_zero false)) with 0%Q in HN1; lra).
  reflexivity.
Qed.

Lemma boundary_term_zero (ss : SculptSession) (mode : eBoundaryAutomaskMode)
    (N : Z) (v : nat) :
  1 <= N < 2 ^ 31 ->
  (v < totvert ss)%nat ->
  boundary_term ss mode N v F32.zero = F32.zero.
Proof.
  intros HN Hv. unfold boundary_term. destruct (pmap ss); [|reflexivity]. cbv zeta.
  rewrite (edge_distance_of_nat ss mode N).
  destruct (edge_distance_shape ss mode (Z.to_nat N)) as [_ Hshape].
  destruct (Hshape v Hv) as (d & Hd & Hrange & _).
  rewrite (arr_get_lookup _ _ _ _ Hd).
  destruct (Z.eqb_spec d EDGE_DISTANCE_INF) as [E|NE]; [reflexivity|].
  apply zero_times_unit. apply boundary_multiplier_unit; lia.
Qed.

Lemma boundary_term_seed (ss : SculptSession) (mode : eBoundaryAutomaskMode)
    (N : Z) (v : nat) (x : float) :
  1 <= N < 2 ^ 31 ->
  (v < totvert ss)%nat ->
  pmap ss = true ->
  boundary_seed_vertex ss mode v = true ->
  unit_entry x ->
  boundary_term ss mode N v x = F32.zero.
Proof.
  intros HN Hv Hp Hseed Hx. unfold boundary_term. rewrite Hp. cbv zeta.
  rewrite (edge_distance_of_nat ss mode N).
  destruct (edge_distance_shape ss mode (Z.to_nat N)) as [_ Hshape].
  destruct (Hshape v Hv) as (d & Hd & _ & Hd0).
  rewrite (arr_get_lookup _ _ _ _ Hd).
  rewrite (proj2 Hd0 Hseed).
  change (0 =? EDGE_DISTANCE_INF) with false. cbv iota.
  rewrite boundary_multiplier_seed by exact HN.
  apply unit_times_zero. apply Hx.
Qed.

(** X11: with Cavity off, the adjacency map present, the stroke's brush
    being the paint's brush and any step count from 1 up, a vertex that is
    masked out completely is stored as exactly 0.0: this holds for every
    vertex the Topology flood fill did not reach, and for every vertex at
    which [SCULPT_automasking_factor_get] answers 0.0 for the same settings
    without an array. *)
Theorem masked_out_vertices_store_zero
    (sd : Sculpt) (b : Brush) (ob : Object) (c : AutomaskingCache) (f : list float)
    (v : nat) :
  SCULPT_automasking_cache_init sd (Some b) ob = Done (Some c) ->
  factor c = Some f ->
  SCULPT_is_automasking_mode_enabled sd (Some b) BRUSH_AUTOMASKING_CAVITY = false ->
  1 <= automasking_boundary_edges_propagation_steps b < 2 ^ 31 ->
  paint_brush sd = Some b ->
  pmap (sculpt ob) = true ->
  (v < totvert (sculpt ob))%nat ->
  (SCULPT_is_automasking_mode_enabled sd (Some b) BRUSH_AUTOMASKING_TOPOLOGY = true
   /\ floodfill_reached (sculpt ob) (topology_use_radius sd (sculpt ob)) v = false)
  \/ SCULPT_automasking_factor_get
       (Some {| settings := settings c; factor := None |}) (sculpt ob) v = F32.zero ->
  f !! v = Some F32.zero.
Proof.
  intros Hinit Hf Hcav Hsteps Hpaint Hpmap Hv Hout.
  destruct (cache_factor_lookup sd b ob c f Hinit Hf) as [_ Hlook].
  rewrite (Hlook v Hv). f_equal. clear Hlook.
  destruct (cache_init_some sd (Some b) ob c Hinit) as (He & b' & Hb' & Hs & _).
  injection Hb' as <-.
  assert (Hmiss : pmap_missing_for_faces (sculpt ob) = false).
  { unfold pmap_missing_for_faces. rewrite Hpmap. destruct (pbvh_type (sculpt ob)); reflexivity. }
  assert (Hruns : paint_pass_runs sd (sculpt ob) = true).
  { unfold paint_pass_runs. rewrite Hpaint, He, Hmiss. reflexivity. }
  unfold SCULPT_automasking_factor_get in Hout. cbn [factor settings] in Hout.
  rewrite Hs in Hout. cbn [flags initial_face_set] in Hout.
  rewrite <- !mode_enabled_effective in Hout. rewrite Hcav in Hout.
  unfold composed_factor. cbv zeta. rewrite Hcav.
  unfold topology_term, face_sets_term. rewrite Hmiss, Hruns. cbn [andb].
  set (on := SCULPT_is_automasking_mode_enabled sd (Some b)) in *.
  set (steps := automasking_boundary_edges_propagation_steps b) in *.
  set (ss := sculpt ob) in *.
  set (reached := floodfill_reached ss (topology_use_radius sd ss) v) in *.
  set (x0 := if on BRUSH_AUTOMASKING_TOPOLOGY
             then (if reached then F32.one else F32.zero) else F32.one).
  assert (U0 : unit_entry x0).
  { unfold x0. destruct (on BRUSH_AUTOMASKING_TOPOLOGY); [destruct reached|];
      first [exact unit_entry_one | exact unit_entry_zero]. }
  set (x1 := if on BRUSH_AUTOMASKING_FACE_SETS
             then (if negb (vertex_has_face_set ss v (active_face_set ss))
                   then (x0 * F32.zero)%f32 else x0)
             else x0).
  assert (U1 : unit_entry x1).
  { unfold x1. destruct (on BRUSH_AUTOMASKING_FACE_SETS); [|exact U0].
    destruct (negb _); [|exact U0]. rewrite unit_times_zero by apply U0.
    exact unit_entry_zero. }
  set (x3 := if on BRUSH_AUTOMASKING_BOUNDARY_EDGES
             then boundary_term ss AUTOMASK_INIT_BOUNDARY_EDGES steps v x1 else x1).
  assert (U3 : unit_entry x3).
  { unfold x3. destruct (on BRUSH_AUTOMASKING_BOUNDARY_EDGES); [|exact U1].
    apply boundary_term_unit; assumption. }
  set (x4 := if on BRUSH_AUTOMASKING_BOUNDARY_FACE_SETS
             then boundary_term ss AUTOMASK_INIT_BOUNDARY_FACE_SETS steps v x3 else x3).
  assert (Z1 : x0 = F32.zero -> x1 = F32.zero).
  { intros E. unfold x1. rewrite E.
    destruct (on BRUSH_AUTOMASKING_FACE_SETS); [|reflexivity].
    destruct (negb _); reflexivity. }
  assert (Z3 : x1 = F32.zero -> x3 = F32.zero).
  { intros E. unfold x3. rewrite E.
    destruct (on BRUSH_AUTOMASKING_BOUNDARY_EDGES); [|reflexivity].
    apply boundary_term_zero; assumption. }
  assert (Z4 : x3 = F32.zero -> x4 = F32.zero).
  { intros E. unfold x4. rewrite E.
    destruct (on BRUSH_AUTOMASKING_BOUNDARY_FACE_SETS); [|reflexivity].
    apply boundary_term_zero; assumption. }
  change (x4 = F32.zero).
  destruct Hout as [[Ht Hr]|Hout].
  { apply Z4, Z3, Z1. unfold x0. rewrite Ht, Hr. reflexivity. }
  destruct (on BRUSH_AUTOMASKING_FACE_SETS
            && negb (vertex_has_face_set ss v (active_face_set ss))) eqn:G1.
  { apply andb_true_iff in G1. destruct G1 as [G1 G1'].
    apply Z4, Z3. unfold x1. rewrite G1, G1'. apply unit_times_zero. apply U0. }
  destruct (on BRUSH_AUTOMASKING_BOUNDARY_EDGES && vertex_is_boundary ss v) eqn:G2.
  { apply andb_true_iff in G2. destruct G2 as [G2 G2'].
    apply Z4. unfold x3. rewrite G2.
    apply boundary_term_seed; try assumption. }
  destruct (on BRUSH_AUTOMASKING_BOUNDARY_FACE_SETS
            && negb (vertex_has_unique_face_set ss v)) eqn:G3.
  { apply andb_true_iff in G3. destruct G3 as [G3 G3'].
    unfold x4. rewrite G3.
    apply boundary_term_seed; try assumption. }
  discriminate.
Qed.

Lemma masked_out_vertices_store_zero_witness :
  exists c f,
    SCULPT_automasking_cache_init
      (scene_of 0 (Some (brush_of 5 3 F32.one))) (Some (brush_of 5 3 F32.one))
      {| sculpt := two_islands |} = Done (Some c)
    /\ factor c = Some f
    /\ f !! 0%nat = Some F32.zero
    /\ f !! 4%nat = Some F32.zero.
Proof.
  destruct (SCULPT_automasking_cache_init
              (scene_of 0 (Some (brush_of 5 3 F32.one))) (Some (brush_of 5 3 F32.one))
              {| sculpt := two_islands |}) as [[c|]|] eqn:E;
    [|vm_compute in E; discriminate..].
  destruct (factor c) as [f|] eqn:Ef.
  2:{ vm_compute in E. injection E as <-. discriminate. }
  exists c, f. split; [reflexivity|]. split; [exact Ef|].
  assert (Hs : settings c = {| flags := 5; initial_face_set := 1; cavity_factor := F32.one |}).
  { vm_compute in E. injection E as <-. reflexivity. }
  split.
  - apply (masked_out_vertices_store_zero _ _ _ c f 0%nat E Ef);
      try reflexivity; try (cbn; lia).
    right. rewrite Hs. reflexivity.
  - apply (masked_out_vertices_store_zero _ _ _ c f 4%nat E Ef);
      try reflexivity; try (cbn; lia).
    left. split; reflexivity.
Defined.

(** ** A NaN cavity factor in the array *)

Lemma mul_nan_r (x : float) : (x * S754_nan)%f32 = S754_nan.
Proof. destruct x as [[|]|[|]| |[|] m e]; reflexivity. Qed.

Lemma boundary_term_nan (ss : SculptSession) (mode : eBoundaryAutomaskMode)
    (N : Z) (v : nat) :
  boundary_term ss mode N v S754_nan = S754_nan.
Proof.
  unfold boundary_term. destruct (pmap ss); [|reflexivity]. cbv zeta.
  destruct (_ =? _); reflexivity.
Qed.

(** X12: the array never clears a NaN: when the Cavity pass runs with at
    most one propagation step (a step count above the least C [int]) and
    the cavity factor of a vertex is NaN, the factor stored for that vertex
    is NaN, whatever Topology, FaceSets and the two boundary strategies say
    about the vertex. *)
Theorem nan_cavity_factor_is_stored
    (sd : Sculpt) (b : Brush) (ob : Object) (c : AutomaskingCache) (f : list float)
    (v : nat) :
  SCULPT_automasking_cache_init sd (Some b) ob = Done (Some c) ->
  factor c = Some f ->
  SCULPT_is_automasking_mode_enabled sd (Some b) BRUSH_AUTOMASKING_CAVITY = true ->
  paint_pass_runs sd (sculpt ob) = true ->
  - 2 ^ 31 < automasking_boundary_edges_propagation_steps b <= 1 ->
  (v < totvert (sculpt ob))%nat ->
  sculpt_automasking_cavity_factor c (sculpt ob) v = S754_nan ->
  f !! v = Some S754_nan.
Proof.
  intros Hinit Hf Hcav Hruns [_ Hsteps] Hv Hnan.
  destruct (cache_factor_lookup sd b ob c f Hinit Hf) as [_ Hlook].
  refine (eq_trans (Hlook v Hv) _). f_equal. clear Hlook.
  destruct (cache_init_some sd (Some b) ob c Hinit) as (_ & b' & Hb' & Hs & _).
  injection Hb' as <-.
  unfold composed_factor. cbv zeta. rewrite Hcav.
  set (c0 := {| settings := {| flags := sculpt_automasking_mode_effective_bits sd (Some b);
                               initial_face_set := active_face_set (sculpt ob);
                               cavity_factor := automasking_cavity_factor b |};
                factor := None |}).
  assert (Hnan0 : sculpt_automasking_cavity_factor c0 (sculpt ob) v = S754_nan).
  { rewrite <- Hnan. rewrite (cavity_factor_settings c c0); [reflexivity|exact Hs]. }
  unfold cavity_term. rewrite Hruns.
  replace (1 <? automasking_boundary_edges_propagation_steps b) with false
    by (symmetry; apply Z.ltb_ge; exact Hsteps).
  rewrite Hnan0, mul_nan_r.
  destruct (SCULPT_is_automasking_mode_enabled sd (Some b) BRUSH_AUTOMASKING_BOUNDARY_EDGES);
    rewrite ?boundary_term_nan;
    destruct (SCULPT_is_automasking_mode_enabled sd (Some b)
                BRUSH_AUTOMASKING_BOUNDARY_FACE_SETS);
    rewrite ?boundary_term_nan; reflexivity.
Qed.

Lemma nan_cavity_factor_is_stored_witness :
  exists c f,
    SCULPT_automasking_cache_init
      (scene_of 0 (Some (brush_of 21 1 F32.one))) (Some (brush_of 21 1 F32.one))
      {| sculpt := coincident_pair |} = Done (Some c)
    /\ factor c = Some f
    /\ f !! 0%nat = Some S754_nan.
Proof.
  destruct (SCULPT_automasking_cache_init
              (scene_of 0 (Some (brush_of 21 1 F32.one))) (Some (brush_of 21 1 F32.one))
              {| sculpt := coincident_pair |}) as [[c|]|] eqn:E;
    [|vm_compute in E; discriminate..].
  destruct (factor c) as [f|] eqn:Ef.
  2:{ vm_compute in E. injection E as <-. discriminate. }
  exists c, f. split; [reflexivity|]. split; [exact Ef|].
  assert (Hs : settings c = {| flags := 21; initial_face_set := 1; cavity_factor := F32.one |}).
  { vm_compute in E. injection E as <-. reflexivity. }
  apply (nan_cavity_factor_is_stored _ _ _ c f 0%nat E Ef);
    try reflexivity; try (cbn; lia).
  rewrite (cavity_factor_settings c
             {| settings := {| flags := 21; initial_face_set := 1;
                               cavity_factor := F32.one |};
                factor := None |} Hs).
  vm_compute. reflexivity.
Defined.

(** ** More propagation steps *)

(** A quotient does not grow when its denominator grows. *)
Lemma div_mono_denominator (x : float) (mya myb : positive) (eya eyb : Z) :
  canonical_nonneg x ->
  (forall mx ex, x = S754_finite false mx ex -> Z.pos (digits2_pos mx) + ex - eya <= 127) ->
  (forall mx ex, x = S754_finite false mx ex -> Z.pos (digits2_pos mx) + ex - eyb <= 127) ->
  (F2Q (S754_finite false mya eya) <= F2Q (S754_finite false myb eyb))%Q ->
  (F2Q (x / S754_finite false myb eyb)%f32 <= F2Q (x / S754_finite false mya eya)%f32)%Q.
Proof.
  intros Hx Hga Hgb Hv.
  destruct x as [[|]| | |[|] mx ex]; cbn [canonical_nonneg] in Hx; try contradiction.
  { change (F2Q (S754_zero false / S754_finite false myb eyb)%f32) with 0%Q.
    change (F2Q (S754_zero false / S754_finite false mya eya)%f32) with 0%Q. lra. }
  destruct (div_core_spec mx mya ex eya (Hga mx ex eq_refl)) as (Hra & Xa & HXa & Va).
  destruct (div_core_spec mx myb ex eyb (Hgb mx ex eq_refl)) as (Hrb & Xb & HXb & Vb).
  unfold F32.div, SFdiv. cbn [xorb].
  destruct (SFdiv_core_binary _ _ (Z.pos mx) ex (Z.pos mya) eya) as [[qa ea'] la].
  destruct (SFdiv_core_binary _ _ (Z.pos mx) ex (Z.pos myb) eyb) as [[qb eb'] lb].
  cbn [fst snd] in *.
  apply (binary_round_aux_mono _ _ _ _ _ _ Xb Xa); try assumption.
  rewrite Va, Vb.
  assert (PX := F2Q_finite_pos mx ex). assert (PA := F2Q_finite_pos mya eya).
  assert (PB := F2Q_finite_pos myb eyb).
  cbn [F2Q] in Hv, PX, PA, PB.
  rewrite !Qmult_1_l in Hv. rewrite Qmult_1_l in PX. rewrite Qmult_1_l in PA.
  rewrite Qmult_1_l in PB.
  set (X := (inject_Z (Z.pos mx) * pow2 ex)%Q) in *.
  set (A := (inject_Z (Z.pos mya) * pow2 eya)%Q) in *.
  set (B := (inject_Z (Z.pos myb) * pow2 eyb)%Q) in *.
  clearbody X A B.
  apply Qle_shift_div_r; [exact PB|].
  assert (E : (X / A * B == X * B / A)%Q) by (field; lra).
  rewrite E. apply Qle_shift_div_l; [exact PA|].
  nra.
Qed.

(** With more steps the multiplier at a given distance does not grow. *)
Lemma boundary_multiplier_steps (d N N' : Z) :
  0 <= d <= N -> 1 <= N -> N <= N' -> N' < 2 ^ 31 ->
  (F2Q (boundary_multiplier d N') <= F2Q (boundary_multiplier d N))%Q.
Proof.
  intros Hd HN1 HNN HN'.
  assert (H32 : 2 ^ 31 < 2 ^ 32) by reflexivity.
  destruct (of_Z_bounds d N ltac:(lia) HN1 ltac:(lia)) as (A & B & C).
  destruct (of_Z_bounds d N' ltac:(lia) ltac:(lia) HN') as (A' & B' & C').
  assert (HcN := of_Z_canonical N ltac:(lia)).
  assert (HcN' := of_Z_canonical N' ltac:(lia)).
  destruct (multiplier_chain d (F32.of_Z N) ltac:(lia) HcN C A B)
    as (my & ey & EN & Hm & Hq & Hq1 & Hp & Hp1 & Hs & Hs1 & Hr).
  destruct (multiplier_chain d (F32.of_Z N') ltac:(lia) HcN' C' A' B')
    as (my' & ey' & EN' & Hm' & Hq' & Hq1' & Hp' & Hp1' & Hs' & Hs1' & Hr').
  assert (HNN' : (F2Q (F32.of_Z N) <= F2Q (F32.of_Z N'))%Q) by (apply of_Z_mono; lia).
  unfold boundary_multiplier. cbv zeta.
  apply sub_one_antitone; try assumption.
  apply mul_self_mono; try assumption.
  apply sub_one_antitone; try assumption.
  rewrite EN, EN' in *.
  apply div_mono_denominator; try assumption.
  apply of_Z_canonical. lia.
Qed.

(** Multiplying by a number from 0 to 1 does not raise a number from 0 to
    1. *)
Lemma mul_unit_le (x m : float) :
  unit_entry x -> unit_entry m -> (F2Q (x * m)%f32 <= F2Q x)%Q.
Proof.
  intros [Hx Hx1] [Hm Hm1].
  assert (Hx0 := F2Q_nonneg x Hx). assert (Hm0 := F2Q_nonneg m Hm).
  assert (H : (F2Q (x * m)%f32 <= F2Q (x * F32.one)%f32)%Q).
  { apply mul_mono; try assumption; try exact one_canonical;
      rewrite ?F2Q_one; try lra. nra. }
  apply (Qle_trans _ _ _ H).
  destruct x as [[|]| | |[|] mx ex]; cbn [canonical_nonneg] in Hx; try contradiction.
  { change (F2Q (S754_zero false * F32.one)%f32) with 0%Q.
    change (F2Q (S754_zero false)) with 0%Q. lra. }
  assert (He := canonical_le_one_exponent mx ex Hx Hx1).
  rewrite <- (canonical_round_trip mx ex Hx) at 2.
  unfold F32.mul, F32.one, SFmul. cbn [xorb binary_normalize]. unfold binary_round.
  assert (Hg : Zdigits2 (Z.pos mx) + ex <= 127).
  { assert (H1 := magnitude_of_value mx ex 0).
    change (Zdigits2 (Z.pos mx)) with (Z.pos (digits2_pos mx)).
    rewrite pow2_0 in H1. specialize (H1 Hx1). lia. }
  destruct (shl_align_ready mx ex Hg) as [Hr Hv].
  destruct (shl_align mx ex _) as [mz ez]. cbn [fst snd] in Hr, Hv.
  apply (binary_round_aux_mono _ _ _ _ _ _
           (inject_Z (Z.pos (mx * 8388608))) (inject_Z (Z.pos mz)));
    try reflexivity; try assumption.
  - apply (mul_ready mx 8388608 ex (-23)); try assumption; try lia.
    exact one_canonical.
  - rewrite Hv, Pos2Z.inj_mul, inject_Z_mult, pow2_add.
    assert (E : (inject_Z (Z.pos mx) * inject_Z 8388608 * (pow2 ex * pow2 (-23))
                 == inject_Z (Z.pos mx) * pow2 ex)%Q).
    { change (pow2 (-23)) with (1 # 8388608)%Q.
      change (inject_Z 8388608) with 8388608%Q. ring. }
    rewrite E. apply Qle_refl.
Qed.

(** The boundary term of a smaller entry with more steps is at most the
    boundary term of a larger entry with fewer steps. *)
Lemma boundary_term_steps (ss : SculptSession) (mode : eBoundaryAutomaskMode)
    (N N' : Z) (v : nat) (x x' : float) :
  1 <= N -> N <= N' -> N' < 2 ^ 31 ->
  (v < totvert ss)%nat ->
  unit_entry x -> unit_entry x' ->
  (F2Q x' <= F2Q x)%Q ->
  (F2Q (boundary_term ss mode N' v x') <= F2Q (boundary_term ss mode N v x))%Q.
Proof.
  intros HN1 HNN HN' Hv Hx Hx' Hle. unfold boundary_term.
  destruct (pmap ss); [|exact Hle]. cbv zeta.
  rewrite (edge_distance_of_nat ss mode N), (edge_distance_of_nat ss mode N').
  destruct (edge_distance_shape ss mode (Z.to_nat N)) as [_ Hshape].
  destruct (edge_distance_shape ss mode (Z.to_nat N')) as [_ Hshape'].
  destruct (Hshape v Hv) as (d & Hd & Hrange & _).
  destruct (Hshape' v Hv) as (d' & Hd' & Hrange' & _).
  rewrite (arr_get_lookup _ _ _ _ Hd), (arr_get_lookup _ _ _ _ Hd').
  destruct (Z.eqb_spec d EDGE_DISTANCE_INF) as [E|NE].
  - destruct (Z.eqb_spec d' EDGE_DISTANCE_INF) as [E'|NE']; [exact Hle|].
    apply Qle_trans with (F2Q x'); [|exact Hle].
    apply mul_unit_le; [exact Hx'|]. apply boundary_multiplier_unit; lia.
  - assert (Hkept := edge_distance_kept ss mode (Z.to_nat N) (Z.to_nat N' - Z.to_nat N)
                       v d Hd NE).
    replace (Z.to_nat N + (Z.to_nat N' - Z.to_nat N))%nat with (Z.to_nat N') in Hkept by lia.
    rewrite Hd' in Hkept. injection Hkept as ->.
    destruct (Z.eqb_spec d EDGE_DISTANCE_INF) as [E'|_]; [contradiction|].
    assert (Hd0 : 0 <= d <= N) by lia.
    assert (Um := boundary_multiplier_unit d N Hd0 HN1 ltac:(lia)).
    assert (Um' := boundary_multiplier_unit d N' ltac:(lia) ltac:(lia) HN').
    assert (Hm := boundary_multiplier_steps d N N' Hd0 HN1 HNN HN').
    destruct Hx as [Hx Hx1], Hx' as [Hx' Hx1'], Um as [Um Um1], Um' as [Um' Um1'].
    assert (P1 := F2Q_nonneg _ Hx). assert (P2 := F2Q_nonneg _ Hx').
    assert (P3 := F2Q_nonneg _ Um). assert (P4 := F2Q_nonneg _ Um').
    apply mul_mono; try assumption; try lra. nra.
Qed.

(** With Cavity off, the adjacency map present and automasking enabled for
    the paint's brush, the query returns the composed factor whether or not
    the cache holds an array. *)
Lemma query_is_composed
    (sd : Sculpt) (b : Brush) (ob : Object) (c : AutomaskingCache) (v : nat) :
  SCULPT_automasking_cache_init sd (Some b) ob = Done (Some c) ->
  SCULPT_is_automasking_mode_enabled sd (Some b) BRUSH_AUTOMASKING_CAVITY = false ->
  pmap (sculpt ob) = true ->
  SCULPT_is_automasking_enabled sd (sculpt ob) (paint_brush sd) = true ->
  (v < totvert (sculpt ob))%nat ->
  SCULPT_automasking_factor_get (Some c) (sculpt ob) v
  = composed_factor sd b (sculpt ob) v.
Proof.
  intros Hinit Hcav Hpmap Hpaint Hv.
  destruct (factor c) as [f|] eqn:Hf.
  { destruct (cache_factor_lookup sd b ob c f Hinit Hf) as [_ Hlook].
    unfold SCULPT_automasking_factor_get. rewrite Hf.
    apply arr_get_lookup. apply Hlook. exact Hv. }
  destruct (cache_init_some sd (Some b) ob c Hinit) as (He & b' & Hb' & Hs & Hnone).
  injection Hb' as <-.
  assert (Hneeds := proj1 Hnone Hf).
  assert (Hnot : ~ (flag_set (sculpt_automasking_mode_effective_bits sd (Some b))
                      BRUSH_AUTOMASKING_TOPOLOGY = true
                    \/ ((flag_set (sculpt_automasking_mode_effective_bits sd (Some b))
                           BRUSH_AUTOMASKING_BOUNDARY_FACE_SETS = true
                         \/ flag_set (sculpt_automasking_mode_effective_bits sd (Some b))
                              BRUSH_AUTOMASKING_BOUNDARY_EDGES = true
                         \/ flag_set (sculpt_automasking_mode_effective_bits sd (Some b))
                              BRUSH_AUTOMASKING_CAVITY = true)
                        /\ exists b0, Some b = Some b0
                                      /\ automasking_boundary_edges_propagation_steps b0
                                         <> 1))).
  { intros H. apply (needs_factors_cache_iff sd (Some b)) in H. congruence. }
  rewrite <- !mode_enabled_effective in Hnot.
  assert (Hmiss : pmap_missing_for_faces (sculpt ob) = false).
  { unfold pmap_missing_for_faces. rewrite Hpmap. destruct (pbvh_type (sculpt ob)); reflexivity. }
  assert (Hruns : paint_pass_runs sd (sculpt ob) = true).
  { unfold paint_pass_runs. rewrite Hpaint, Hmiss. reflexivity. }
  unfold composed_factor, SCULPT_automasking_factor_get. cbv zeta. rewrite Hf, Hs.
  cbn [settings flags initial_face_set].
  rewrite <- !mode_enabled_effective. rewrite Hcav.
  unfold face_sets_term. rewrite Hruns. cbn [andb].
  set (on := SCULPT_is_automasking_mode_enabled sd (Some b)) in *.
  destruct (on BRUSH_AUTOMASKING_TOPOLOGY) eqn:Ht; [exfalso; apply Hnot; left; reflexivity|].
  assert (Hone : on BRUSH_AUTOMASKING_BOUNDARY_EDGES = true
                 \/ on BRUSH_AUTOMASKING_BOUNDARY_FACE_SETS = true ->
                 automasking_boundary_edges_propagation_steps b = 1).
  { intros Hb. destruct (Z.eq_dec (automasking_boundary_edges_propagation_steps b) 1)
      as [E|NE]; [exact E|].
    exfalso. apply Hnot. right. split; [tauto|]. exists b. auto. }
  set (x1 := if on BRUSH_AUTOMASKING_FACE_SETS
             then (if negb (vertex_has_face_set (sculpt ob) v (active_face_set (sculpt ob)))
                   then (F32.one * F32.zero)%f32 else F32.one)
             else F32.one).
  assert (H1 : x1 = F32.zero \/ x1 = F32.one).
  { unfold x1. destruct (on BRUSH_AUTOMASKING_FACE_SETS); [|auto].
    destruct (negb _); auto. }
  assert (C1 : canonical_nonneg x1).
  { destruct H1 as [-> | ->]; [exact I|exact one_canonical]. }
  set (x3 := if on BRUSH_AUTOMASKING_BOUNDARY_EDGES
             then boundary_term (sculpt ob) AUTOMASK_INIT_BOUNDARY_EDGES
                    (automasking_boundary_edges_propagation_steps b) v x1
             else x1).
  assert (E3 : x3 = if on BRUSH_AUTOMASKING_BOUNDARY_EDGES && vertex_is_boundary (sculpt ob) v
                    then F32.zero else x1).
  { unfold x3. destruct (on BRUSH_AUTOMASKING_BOUNDARY_EDGES) eqn:Hbe; [|reflexivity].
    rewrite (Hone (or_introl eq_refl)).
    rewrite boundary_term_one_step by assumption. reflexivity. }
  assert (H3 : x3 = F32.zero \/ x3 = F32.one).
  { rewrite E3. destruct (_ && _); auto. }
  assert (C3 : canonical_nonneg x3).
  { destruct H3 as [-> | ->]; [exact I|exact one_canonical]. }
  assert (E4 : (if on BRUSH_AUTOMASKING_BOUNDARY_FACE_SETS
                then boundary_term (sculpt ob) AUTOMASK_INIT_BOUNDARY_FACE_SETS
                       (automasking_boundary_edges_propagation_steps b) v x3
                else x3)
               = if on BRUSH_AUTOMASKING_BOUNDARY_FACE_SETS
                    && negb (vertex_has_unique_face_set (sculpt ob) v)
                 then F32.zero else x3).
  { destruct (on BRUSH_AUTOMASKING_BOUNDARY_FACE_SETS) eqn:Hbf; [|reflexivity].
    rewrite (Hone (or_intror eq_refl)).
    rewrite boundary_term_one_step by assumption. reflexivity. }
  rewrite E4, E3. unfold x1. clear.
  destruct (on BRUSH_AUTOMASKING_FACE_SETS),
    (vertex_has_face_set (sculpt ob) v (active_face_set (sculpt ob))),
    (on BRUSH_AUTOMASKING_BOUNDARY_EDGES),
    (vertex_is_boundary (sculpt ob) v), (on BRUSH_AUTOMASKING_BOUNDARY_FACE_SETS),
    (vertex_has_unique_face_set (sculpt ob) v); reflexivity.
Qed.

Lemma composed_factor_steps
    (sd : Sculpt) (b : Brush) (ss : SculptSession) (N N' : Z) (v : nat) :
  1 <= N -> N <= N' -> N' < 2 ^ 31 ->
  SCULPT_is_automasking_mode_enabled sd (Some b) BRUSH_AUTOMASKING_CAVITY = false ->
  (v < totvert ss)%nat ->
  unit_entry (composed_factor sd (with_steps b N) ss v)
  /\ unit_entry (composed_factor sd (with_steps b N') ss v)
  /\ (F2Q (composed_factor sd (with_steps b N') ss v)
      <= F2Q (composed_factor sd (with_steps b N) ss v))%Q.
Proof.
  intros HN1 HNN HN' Hcav Hv. unfold composed_factor. cbv zeta.
  change (SCULPT_is_automasking_mode_enabled sd (Some (with_steps b N)))
    with (SCULPT_is_automasking_mode_enabled sd (Some b)).
  change (SCULPT_is_automasking_mode_enabled sd (Some (with_steps b N')))
    with (SCULPT_is_automasking_mode_enabled sd (Some b)).
  cbn [with_steps automasking_boundary_edges_propagation_steps].
  rewrite Hcav.
  set (on := SCULPT_is_automasking_mode_enabled sd (Some b)).
  set (x0 := if on BRUSH_AUTOMASKING_TOPOLOGY then topology_term sd ss v F32.one
             else F32.one).
  assert (U0 : unit_entry x0).
  { unfold x0. destruct (on BRUSH_AUTOMASKING_TOPOLOGY); [|exact unit_entry_one].
    apply topology_term_unit. exact unit_entry_one. }
  set (x1 := if on BRUSH_AUTOMASKING_FACE_SETS then face_sets_term sd ss v x0 else x0).
  assert (U1 : unit_entry x1).
  { unfold x1. destruct (on BRUSH_AUTOMASKING_FACE_SETS); [|exact U0].
    apply face_sets_term_unit. exact U0. }
  clearbody x1.
  set (y := if on BRUSH_AUTOMASKING_BOUNDARY_EDGES
            then boundary_term ss AUTOMASK_INIT_BOUNDARY_EDGES N v x1 else x1).
  set (y' := if on BRUSH_AUTOMASKING_BOUNDARY_EDGES
             then boundary_term ss AUTOMASK_INIT_BOUNDARY_EDGES N' v x1 else x1).
  assert (Uy : unit_entry y /\ unit_entry y' /\ (F2Q y' <= F2Q y)%Q).
  { unfold y, y'. destruct (on BRUSH_AUTOMASKING_BOUNDARY_EDGES).
    - split; [apply boundary_term_unit; try assumption; lia|].
      split; [apply boundary_term_unit; try assumption; lia|].
      apply boundary_term_steps; try assumption. apply Qle_refl.
    - split; [exact U1|]. split; [exact U1|apply Qle_refl]. }
  destruct Uy as (Uy & Uy' & Hy). clearbody y y'.
  destruct (on BRUSH_AUTOMASKING_BOUNDARY_FACE_SETS).
  - split; [apply boundary_term_unit; try assumption; lia|].
    split; [apply boundary_term_unit; try assumption; lia|].
    apply boundary_term_steps; assumption.
  - auto.
Qed.

(** X13: with Cavity off, the adjacency map present and automasking enabled
    for the paint's brush, raising the number of propagation steps of the
    brush never raises the factor of any vertex: what
    [SCULPT_automasking_factor_get] returns for the cache made with more
    steps is at most what it returns for the cache made with fewer. *)
Theorem more_steps_never_unmask
    (sd : Sculpt) (b : Brush) (ob : Object) (N N' : Z) (c c' : AutomaskingCache)
    (v : nat) :
  1 <= N -> N <= N' -> N' < 2 ^ 31 ->
  SCULPT_automasking_cache_init sd (Some (with_steps b N)) ob = Done (Some c) ->
  SCULPT_automasking_cache_init sd (Some (with_steps b N')) ob = Done (Some c') ->
  SCULPT_is_automasking_mode_enabled sd (Some b) BRUSH_AUTOMASKING_CAVITY = false ->
  pmap (sculpt ob) = true ->
  SCULPT_is_automasking_enabled sd (sculpt ob) (paint_brush sd) = true ->
  (v < totvert (sculpt ob))%nat ->
  F32.leb (SCULPT_automasking_factor_get (Some c') (sculpt ob) v)
          (SCULPT_automasking_factor_get (Some c) (sculpt ob) v) = true.
Proof.
  intros HN1 HNN HN' Hinit Hinit' Hcav Hpmap Hpaint Hv.
  rewrite (query_is_composed sd (with_steps b N) ob c v Hinit Hcav Hpmap Hpaint Hv).
  rewrite (query_is_composed sd (with_steps b N') ob c' v Hinit' Hcav Hpmap Hpaint Hv).
  destruct (composed_factor_steps sd b (sculpt ob) N N' v HN1 HNN HN' Hcav Hv)
    as ([U1 _] & [U2 _] & Hle).
  apply leb_of_values; assumption.
Qed.

Lemma more_steps_never_unmask_witness :
  exists c c',
    SCULPT_automasking_cache_init
      (scene_of 0 (Some (brush_of BRUSH_AUTOMASKING_BOUNDARY_EDGES 1 F32.one)))
      (Some (with_steps (brush_of BRUSH_AUTOMASKING_BOUNDARY_EDGES 1 F32.one) 1))
      {| sculpt := chain5 |} = Done (Some c)
    /\ SCULPT_automasking_cache_init
         (scene_of 0 (Some (brush_of BRUSH_AUTOMASKING_BOUNDARY_EDGES 1 F32.one)))
         (Some (with_steps (brush_of BRUSH_AUTOMASKING_BOUNDARY_EDGES 1 F32.one) 3))
         {| sculpt := chain5 |} = Done (Some c')
    /\ F32.leb (SCULPT_automasking_factor_get (Some c') chain5 1%nat)
               (SCULPT_automasking_factor_get (Some c) chain5 1%nat) = true.
Proof.
  destruct (SCULPT_automasking_cache_init
              (scene_of 0 (Some (brush_of BRUSH_AUTOMASKING_BOUNDARY_EDGES 1 F32.one)))
              (Some (with_steps (brush_of BRUSH_AUTOMASKING_BOUNDARY_EDGES 1 F32.one) 1))
              {| sculpt := chain5 |}) as [[c|]|] eqn:E;
    [|vm_compute in E; discriminate..].
  destruct (SCULPT_automasking_cache_init
              (scene_of 0 (Some (brush_of BRUSH_AUTOMASKING_BOUNDARY_EDGES 1 F32.one)))
              (Some (with_steps (brush_of BRUSH_AUTOMASKING_BOUNDARY_EDGES 1 F32.one) 3))
              {| sculpt := chain5 |}) as [[c'|]|] eqn:E';
    [|vm_compute in E'; discriminate..].
  exists c, c'. split; [reflexivity|]. split; [reflexivity|].
  apply (more_steps_never_unmask
           (scene_of 0 (Some (brush_of BRUSH_AUTOMASKING_BOUNDARY_EDGES 1 F32.one)))
           (brush_of BRUSH_AUTOMASKING_BOUNDARY_EDGES 1 F32.one)
           {| sculpt := chain5 |} 1 3 c c' 1%nat);
    try assumption; try reflexivity; try (cbn; lia).
Defined.
